(** * Service-call enrichment engine: incremental diff and merge,
      retrying classification, result materialisation, deduplicated
      translation.

    A shallow embedding of [src/utils.py], [src/classifier.py],
    [src/translator.py], the runs of [src/pipeline.py] and the input
    helpers of [main.py], and the properties of the record-enrichment
    core stated over it. *)

From stdpp Require Import gmap strings pretty list.
From Stdlib Require Import ZArith Lia Ascii DecimalString DecimalZ.

#[local] Set Warnings "-clear-no-such-hyp,-register-all".

(** ** pandas helpers shared by the modules *)

(** [Series.unique()]: the distinct values in order of first appearance. *)
Fixpoint unique `{EqDecision A} (l : list A) : list A :=
  match l with
  | [] => []
  | x :: l' => x :: filter (λ y, y ≠ x) (unique l')
  end.

(** A data frame, row-major: every row carries its index label.  Rows are
    kept abstract where a function only reads one column of them. *)
Abbreviation DataFrame Row := (list (nat * Row)).

(** Fresh [RangeIndex] labels [0 .. n-1], as [ignore_index=True] assigns. *)
Definition reset_index {Row} (df : DataFrame Row) : DataFrame Row :=
  zip (seq 0 (length df)) (df.*2).

(** ** [src/utils.py] *)
Module Utils.
Section utils.
Context {Row Key : Type} `{Countable Key}.
(** [df[id_column]] read row by row; the default column is
    [SERVICE_ORDER]. *)
Variable id_column : Row → Key.

Definition column (df : DataFrame Row) : list Key :=
  id_column <$> df.*2.

(** [set(df[id_column].unique())] *)
Definition key_set (df : DataFrame Row) : gset Key :=
  list_to_set (unique (column df)).

(** [processed_df is None or processed_df.empty] *)
Definition none_or_empty (df : option (DataFrame Row)) : bool :=
  match df with
  | None => true
  | Some [] => true
  | Some (_ :: _) => false
  end.

Definition find_new_service_orders
    (new_df : DataFrame Row) (processed_df : option (DataFrame Row))
    : DataFrame Row :=
  if none_or_empty processed_df then new_df
  else
    let existing_orders := key_set (default [] processed_df) in
    let new_orders := key_set new_df in
    let orders_to_process := new_orders ∖ existing_orders in
    if decide (orders_to_process = ∅) then []
    else filter (λ r, id_column r.2 ∈ orders_to_process) new_df.

Definition merge_processed_data
    (existing_df : option (DataFrame Row)) (new_df : DataFrame Row)
    : DataFrame Row :=
  if none_or_empty existing_df then new_df
  else reset_index (default [] existing_df ++ new_df).

End utils.
End Utils.

(** ** Python values and exceptions *)

(** The values [json.loads] produces and [json.dumps] accepts: [None],
    booleans, integers, strings, lists, and dictionaries with string keys
    in insertion order.  A string is a sequence of code points below 256.
    (Floats are left out of the model.) *)
Inductive json : Type :=
  | JNull
  | JBool (b : bool)
  | JInt (z : Z)
  | JStr (s : string)
  | JArr (l : list json)
  | JObj (m : list (string * json)).

Inductive exn : Type :=
  | KeyError | IndexError | AttributeError | TypeError | ValueError
  | RuntimeError | JSONDecodeError | RequestException.

(** A computation that returns or raises. *)
Inductive result (A : Type) : Type :=
  | Ok (a : A)
  | Raise (e : exn).
Arguments Ok {A} a.
Arguments Raise {A} e.

#[global] Instance result_ret : MRet result := @Ok.
#[global] Instance result_bind : MBind result := λ A B f m,
  match m with
  | Ok a => f a
  | Raise e => Raise e
  end.

(** [for x in xs: st = body(st, x)], stopping at the first exception. *)
Fixpoint for_each {A S} (body : S → A → result S) (xs : list A) (st : S)
    : result S :=
  match xs with
  | [] => Ok st
  | x :: xs' => st' ← body st x; for_each body xs' st'
  end.

(** [enumerate(xs, start)] *)
Definition enumerate {A} (start : nat) (xs : list A) : list (nat * A) :=
  zip (seq start (length xs)) xs.

(** A dictionary in insertion order, as an association list with one
    entry per key: lookup, and [m[k] = v], which replaces the value of a
    key already there and appends a new key at the end. *)
Fixpoint dict_lookup `{EqDecision K} {V} (k : K) (m : list (K * V)) : option V :=
  match m with
  | [] => None
  | (k', v) :: m' => if decide (k' = k) then Some v else dict_lookup k m'
  end.

Fixpoint dict_set `{EqDecision K} {V} (k : K) (v : V) (m : list (K * V))
    : list (K * V) :=
  match m with
  | [] => [(k, v)]
  | (k', v') :: m' =>
      if decide (k' = k) then (k', v) :: m' else (k', v') :: dict_set k v m'
  end.

(** [d[k]] on a [dict] object. *)
Definition getitem (d : gmap string json) (k : string) : result json :=
  match d !! k with
  | Some v => Ok v
  | None => Raise KeyError
  end.

(** [v.get(k, d)]: only a dictionary has the method. *)
Definition py_get (v : json) (k : string) (d : json) : result json :=
  match v with
  | JObj m => Ok (default d (dict_lookup k m))
  | _ => Raise AttributeError
  end.

(** Truth value of [if v:] *)
Definition truthy (v : json) : bool :=
  match v with
  | JNull => false
  | JBool b => b
  | JInt z => negb (z =? 0)%Z
  | JStr s => negb (String.eqb s "")
  | JArr l => negb (bool_decide (l = []))
  | JObj m => negb (bool_decide (m = []))
  end.

Definition chars (s : string) : list json :=
  (λ c, JStr (String c "")) <$> String.list_ascii_of_string s.

(** [iter(v)]: a list yields its items, a string its characters, a
    dictionary its keys; anything else is not iterable. *)
Definition py_iter (v : json) : result (list json) :=
  match v with
  | JArr l => Ok l
  | JStr s => Ok (chars s)
  | JObj m => Ok (JStr <$> m.*1)
  | _ => Raise TypeError
  end.

(** [v[:n]] as the sequence it is then iterated as; a dictionary cannot
    be sliced. *)
Definition py_slice_to (v : json) (n : nat) : result (list json) :=
  match v with
  | JArr l => Ok (take n l)
  | JStr s => Ok (take n (chars s))
  | _ => Raise TypeError
  end.

(** [v[0]] *)
Definition py_first (v : json) : result json :=
  match v with
  | JArr (x :: _) => Ok x
  | JArr [] => Raise IndexError
  | JStr s => match chars s with x :: _ => Ok x | [] => Raise IndexError end
  | JObj _ => Raise KeyError
  | _ => Raise TypeError
  end.

(** [sep.join(xs)]: every item must be a string. *)
Definition as_str (x : json) : result string :=
  match x with
  | JStr s => Ok s
  | _ => Raise TypeError
  end.

Definition str_join (sep : string) (xs : list json) : result string :=
  strs ← mapM as_str xs;
  Ok (String.concat sep strs).

(** ** The [json] module of the Python standard library

    [json.dumps] with its default options ([ensure_ascii=True], separators
    [", "] and [": "]) and [json.loads] in strict mode, on the values
    above. *)
Module Json.
Local Open Scope char_scope.

Definition dquote : ascii := "034".
Definition backslash : ascii := "092".

(** The digit of [n] below 16 in lower-case hexadecimal, and the value of
    a hexadecimal digit of either case. *)
Definition hex_digit (n : N) : ascii :=
  if (n <? 10)%N then ascii_of_N (48 + n) else ascii_of_N (87 + n).

Definition hex_value (c : ascii) : option N :=
  let n := N_of_ascii c in
  if ((48 <=? n) && (n <=? 57))%N then Some (n - 48)%N
  else if ((97 <=? n) && (n <=? 102))%N then Some (n - 87)%N
  else if ((65 <=? n) && (n <=? 70))%N then Some (n - 55)%N
  else None.

(** One character of [encode_basestring_ascii]: the short escapes of
    [ESCAPE_DCT], printable ASCII as it is, [\u00xx] for the rest. *)
Definition escape_char (c : ascii) : string :=
  let n := N_of_ascii c in
  if Ascii.eqb c dquote then String backslash (String dquote "")
  else if Ascii.eqb c backslash then String backslash (String backslash "")
  else if (n =? 8)%N then String backslash "b"
  else if (n =? 12)%N then String backslash "f"
  else if (n =? 10)%N then String backslash "n"
  else if (n =? 13)%N then String backslash "r"
  else if (n =? 9)%N then String backslash "t"
  else if ((32 <=? n) && (n <=? 126))%N then String c ""
  else String backslash
         (String "u" (String "0" (String "0"
            (String (hex_digit (n / 16)) (String (hex_digit (n mod 16)) ""))))).

Fixpoint escape (s : string) : string :=
  match s with
  | EmptyString => EmptyString
  | String c s' => escape_char c +:+ escape s'
  end.

Definition encode_str (s : string) : string :=
  String dquote (escape s +:+ String dquote "").

(** [int.__repr__] *)
Definition repr_int (z : Z) : string :=
  DecimalString.NilZero.string_of_int (Z.to_int z).

Fixpoint dumps (v : json) : string :=
  match v with
  | JNull => "null"
  | JBool true => "true"
  | JBool false => "false"
  | JInt z => repr_int z
  | JStr s => encode_str s
  | JArr l =>
      "[" +:+
      (fix items (l : list json) : string :=
         match l with
         | [] => ""
         | x :: l' =>
             dumps x +:+ match l' with [] => "" | _ => ", " +:+ items l' end
         end) l +:+ "]"
  | JObj m =>
      "{" +:+
      (fix items (m : list (string * json)) : string :=
         match m with
         | [] => ""
         | (k, x) :: m' =>
             encode_str k +:+ ": " +:+ dumps x +:+
             match m' with [] => "" | _ => ", " +:+ items m' end
         end) m +:+ "}"
  end%string.

(** *** Decoding *)

Definition is_ws (c : ascii) : bool :=
  Ascii.eqb c " " || (N_of_ascii c =? 9)%N || (N_of_ascii c =? 10)%N
  || (N_of_ascii c =? 13)%N.

Fixpoint skip_ws (s : string) : string :=
  match s with
  | String c s' => if is_ws c then skip_ws s' else s
  | EmptyString => EmptyString
  end.

Definition is_digit (c : ascii) : bool :=
  ((48 <=? N_of_ascii c) && (N_of_ascii c <=? 57))%N.

(** [py_scanstring], entered after the opening quote: the decoded
    string and the text after the closing quote.  An escape [\uXXXX]
    above 255 names a code point outside the model's strings and
    is refused here. *)
Fixpoint scanstring (s : string) : option (string * string) :=
  match s with
  | EmptyString => None
  | String c rest =>
      if Ascii.eqb c dquote then Some (EmptyString, rest)
      else if Ascii.eqb c backslash then
        match rest with
        | String "u" (String h1 (String h2 (String h3 (String h4 rest')))) =>
            a ← hex_value h1; b ← hex_value h2;
            c ← hex_value h3; d ← hex_value h4;
            if ((a =? 0) && (b =? 0))%N then
              '(str, r) ← scanstring rest';
              Some (String (ascii_of_N (16 * c + d)) str, r)
            else None
        | String e rest' =>
            ch ← (if Ascii.eqb e dquote then Some dquote
                  else if Ascii.eqb e backslash then Some backslash
                  else match e with
                       | "/" => Some "/"
                       | "b" => Some (ascii_of_N 8)
                       | "f" => Some (ascii_of_N 12)
                       | "n" => Some (ascii_of_N 10)
                       | "r" => Some (ascii_of_N 13)
                       | "t" => Some (ascii_of_N 9)
                       | _ => None
                       end);
            '(str, r) ← scanstring rest';
            Some (String ch str, r)
        | EmptyString => None
        end
      else if (N_of_ascii c <? 32)%N then None
      else '(str, r) ← scanstring rest; Some (String c str, r)
  end.

(** The longest prefix of decimal digits, and the rest. *)
Fixpoint span_digits (s : string) : string * string :=
  match s with
  | String c s' =>
      if is_digit c then
        let '(ds, r) := span_digits s' in (String c ds, r)
      else (EmptyString, s)
  | EmptyString => (EmptyString, EmptyString)
  end.

(** Does a fraction or an exponent follow the integer part?  Then the
    literal is a float, which the model leaves out. *)
Definition float_follows (s : string) : bool :=
  match s with
  | String "." (String c _) => is_digit c
  | String e rest =>
      (Ascii.eqb e "e" || Ascii.eqb e "E") &&
      match rest with
      | String sg (String c _) =>
          is_digit sg || ((Ascii.eqb sg "+" || Ascii.eqb sg "-") && is_digit c)
      | String c EmptyString => is_digit c
      | EmptyString => false
      end
  | EmptyString => false
  end.

(** The integer part of [NUMBER_RE]: an optional minus sign, then either
    a single 0 or a digit 1-9 followed by any digits. *)
Definition scan_number (s : string) : option (json * string) :=
  let '(neg, s1) :=
    match s with
    | String c r => if Ascii.eqb c "-" then (true, r) else (false, s)
    | EmptyString => (false, s)
    end in
  '(n, r) ← match s1 with
            | String c r =>
                if Ascii.eqb c "0" then Some (0%Z, r)
                else if is_digit c then
                  let '(ds, r) := span_digits s1 in
                  d ← DecimalString.NilEmpty.uint_of_string ds;
                  Some (Z.of_uint d, r)
                else None
            | EmptyString => None
            end;
  if float_follows r then None
  else Some (JInt (if neg : bool then - n else n)%Z, r).

(** [s[idx:idx+len(p)] == p] *)
Fixpoint strip_prefix (p s : string) : option string :=
  match p, s with
  | EmptyString, _ => Some s
  | String a p', String b s' =>
      if Ascii.eqb a b then strip_prefix p' s' else None
  | String _ _, EmptyString => None
  end.

(** [dict(pairs)]: a later duplicate of a key replaces the value at the
    key's first position. *)
Definition dict_of_pairs {V} (pairs : list (string * V)) : list (string * V) :=
  foldl (λ m kv, dict_set kv.1 kv.2 m) [] pairs.

(** [scan_once] with [JSONArray] and [JSONObject].  [fuel] bounds the
    number of nested calls. *)
Fixpoint scan_once (fuel : nat) (s : string) : option (json * string) :=
  match fuel with
  | 0 => None
  | S fuel =>
      match s with
      | EmptyString => None
      | String c rest =>
          if Ascii.eqb c dquote then
            '(str, r) ← scanstring rest; Some (JStr str, r)
          else if Ascii.eqb c "{" then
            match skip_ws rest with
            | EmptyString => None
            | String c' r as rest' =>
                if Ascii.eqb c' "}" then Some (JObj [], r)
                else '(pairs, r') ← object_items fuel rest';
                     Some (JObj (dict_of_pairs pairs), r')
            end
          else if Ascii.eqb c "[" then
            match skip_ws rest with
            | EmptyString => None
            | String c' r as rest' =>
                if Ascii.eqb c' "]" then Some (JArr [], r)
                else '(vs, r') ← array_items fuel rest'; Some (JArr vs, r')
            end
          else if Ascii.eqb c "n" then
            r ← strip_prefix "null" s; Some (JNull, r)
          else if Ascii.eqb c "t" then
            r ← strip_prefix "true" s; Some (JBool true, r)
          else if Ascii.eqb c "f" then
            r ← strip_prefix "false" s; Some (JBool false, r)
          else scan_number s
      end
  end
with array_items (fuel : nat) (s : string) : option (list json * string) :=
  match fuel with
  | 0 => None
  | S fuel =>
      '(v, r) ← scan_once fuel s;
      match skip_ws r with
      | EmptyString => None
      | String c r' =>
          if Ascii.eqb c "]" then Some ([v], r')
          else if Ascii.eqb c "," then
            '(vs, r'') ← array_items fuel (skip_ws r'); Some (v :: vs, r'')
          else None
      end
  end
with object_items (fuel : nat) (s : string)
    : option (list (string * json) * string) :=
  match fuel with
  | 0 => None
  | S fuel =>
      match s with
      | EmptyString => None
      | String q r =>
          if Ascii.eqb q dquote then
            '(k, r) ← scanstring r;
            match skip_ws r with
            | EmptyString => None
            | String c r =>
                if Ascii.eqb c ":" then
                  '(v, r) ← scan_once fuel (skip_ws r);
                  match skip_ws r with
                  | EmptyString => None
                  | String c r' =>
                      if Ascii.eqb c "}" then Some ([(k, v)], r')
                      else if Ascii.eqb c "," then
                        '(kvs, r'') ← object_items fuel (skip_ws r');
                        Some ((k, v) :: kvs, r'')
                      else None
                  end
                else None
            end
          else None
      end
  end.

(** [json.loads]: one value between optional white space, nothing after
    it. *)
Definition loads (s : string) : result json :=
  match scan_once (2 * String.length s) (skip_ws s) with
  | Some (v, r) =>
      if String.eqb (skip_ws r) "" then Ok v else Raise JSONDecodeError
  | None => Raise JSONDecodeError
  end.

(** The two inner loops of [dumps], by name. *)
Fixpoint dumps_items (l : list json) : string :=
  match l with
  | [] => ""
  | x :: l' =>
      dumps x +:+ match l' with [] => "" | _ => ", " +:+ dumps_items l' end
  end%string.

Fixpoint dumps_members (m : list (string * json)) : string :=
  match m with
  | [] => ""
  | (k, x) :: m' =>
      encode_str k +:+ ": " +:+ dumps x +:+
      match m' with [] => "" | _ => ", " +:+ dumps_members m' end
  end%string.

(** A value as [json.loads] builds it: every dictionary has one entry
    per key. *)
Fixpoint valid (v : json) : bool :=
  match v with
  | JArr l => forallb valid l
  | JObj m =>
      bool_decide (NoDup m.*1) && forallb (λ '(_, x), valid x) m
  | _ => true
  end.

(** The number of nested calls the decoder makes on the text of [v]. *)
Fixpoint calls (v : json) : nat :=
  match v with
  | JArr l => S (list_sum ((λ x, S (calls x)) <$> l))
  | JObj m => S (list_sum ((λ '(_, x), S (calls x)) <$> m))
  | _ => 1
  end.

(** The text after a value inside a list or a dictionary, or at the
    end. *)
Definition delimiter (s : string) : bool :=
  match s with
  | EmptyString => true
  | String c _ => Ascii.eqb c "," || Ascii.eqb c "]" || Ascii.eqb c "}"
  end.

(** Decoding the text of [v] followed by [rest] gives [v] and leaves
    [rest], whenever the allowance of nested calls suffices. *)
Definition scans (v : json) : Prop :=
  ∀ fuel rest, calls v ≤ fuel → delimiter rest = true →
               scan_once fuel (dumps v +:+ rest) = Some (v, rest).
End Json.

(** ** [src/classifier.py] *)
Module Classifier.
Local Open Scope string_scope.

(** A row of the frame: column name to cell value. *)
Abbreviation Row := (gmap string json).

(** [df.loc[idx, col]] *)
Definition loc (df : DataFrame Row) (idx : nat) (col : string) : result json :=
  match dict_lookup idx df with
  | Some row => getitem row col
  | None => Raise KeyError
  end.

(** [df.at[idx, col] = v], for a label [idx] of the frame. *)
Definition at_set (df : DataFrame Row) (idx : nat) (col : string) (v : json)
    : DataFrame Row :=
  (λ r, if decide (r.1 = idx) then (r.1, <[col:=v]> r.2) else r) <$> df.

(** [df[col] = v] with a scalar [v] *)
Definition set_column (df : DataFrame Row) (col : string) (v : json)
    : DataFrame Row :=
  (λ r, (r.1, <[col:=v]> r.2)) <$> df.

(** The result a record gets when every attempt failed. *)
Definition degraded_result : json :=
  JObj [("analysis", JObj [("total_problems_found", JInt 0);
                           ("confidence_level", JStr "low")]);
        ("problems", JArr [])].

Section process_single_call.
(** One request to the classification service for this record; the
    first argument counts the requests already made for it.  Building
    the prompt, the HTTP exchange, the status check and the parsing of
    the reply all happen in there, and any of them may raise. *)
Variable classify_service_call : Z → json → json → json → json → result json.
Variable row_index : nat.
Variable row_data : gmap string json.
Variable max_attempts : Z.

(** The body of [try]. *)
Definition attempt (attempts : Z) : result json :=
  reason_for_service ← getitem row_data "REASON_FOR_SERVICE";
  special_notes ← getitem row_data "SPECIAL_NOTES";
  service_performed ← getitem row_data "SERVICE_PERFORMED";
  issue_reported ← getitem row_data "ISSUE_REPORTED";
  classify_service_call attempts reason_for_service special_notes
    service_performed issue_reported.

(** [while attempts < max_attempts], by recursion on the loop variant
    [remaining = max_attempts - attempts]: the test holds exactly when
    [remaining] is a successor. *)
Fixpoint retry (remaining : nat) (attempts : Z) : nat * json :=
  match remaining with
  | 0 => (row_index, JNull)
  | S remaining' =>
      match attempt attempts with
      | Ok result => (row_index, result)
      | Raise e =>
          let attempts := (attempts + 1)%Z in
          if bool_decide (attempts = max_attempts)
          then (row_index, degraded_result)
          else retry remaining' attempts
      end
  end.

Definition process_single_call : nat * json :=
  retry (Z.to_nat (max_attempts - 0)) 0%Z.
End process_single_call.

Definition MAX_PROBLEMS : nat := 3.

(** A record of [approach4_records]. *)
Record NormalizedRow : Type := {
  SERVICE_ORDER : json;
  Row_Index : nat;
  Problem_Number : nat;
  Part : json;
  Failure_Mode : json;
  Fix : json;
  Confidence : json;
  Supporting_Text : json;
}.

(** [" | ".join([p.get(key, "") for p in problems])] *)
Definition concat_field (problems : json) (key : string) : result json :=
  items ← py_iter problems;
  values ← mapM (λ p, py_get p key (JStr "")) items;
  joined ← str_join " | " values;
  Ok (JStr joined).

(** [problems[0].get(key, "")] *)
Definition primary_field (problems : json) (key : string) : result json :=
  first ← py_first problems;
  py_get first key (JStr "").

(** The body of [for i, problem in enumerate(problems[:MAX_PROBLEMS])] *)
Definition fill_slot (idx : nat) (df_result : DataFrame Row)
    (ip : nat * json) : result (DataFrame Row) :=
  let '(i, problem) := ip in
  part ← py_get problem "part" (JStr "");
  let df_result := at_set df_result idx ("Part_" +:+ pretty (i + 1)) part in
  failure_mode ← py_get problem "failure_mode" (JStr "");
  let df_result :=
    at_set df_result idx ("Failure_Mode_" +:+ pretty (i + 1)) failure_mode in
  fix_ ← py_get problem "fix" (JStr "");
  let df_result := at_set df_result idx ("Fix_" +:+ pretty (i + 1)) fix_ in
  confidence ← py_get problem "confidence" (JStr "");
  Ok (at_set df_result idx ("Confidence_" +:+ pretty (i + 1)) confidence).

(** The body of [for problem_num, problem in enumerate(problems, 1)] *)
Definition append_problem (service_order : json) (idx : nat)
    (approach4_records : list NormalizedRow) (np : nat * json)
    : result (list NormalizedRow) :=
  let '(problem_num, problem) := np in
  part ← py_get problem "part" (JStr "");
  failure_mode ← py_get problem "failure_mode" (JStr "");
  fix_ ← py_get problem "fix" (JStr "");
  confidence ← py_get problem "confidence" (JStr "");
  supporting_text ← py_get problem "supporting_text" (JStr "");
  Ok (approach4_records ++
      [{| SERVICE_ORDER := service_order; Row_Index := idx;
          Problem_Number := problem_num; Part := part;
          Failure_Mode := failure_mode; Fix := fix_;
          Confidence := confidence; Supporting_Text := supporting_text |}])%list.

Definition unknown_record (service_order : json) (idx : nat) : NormalizedRow :=
  {| SERVICE_ORDER := service_order; Row_Index := idx; Problem_Number := 1;
     Part := JStr "Unknown"; Failure_Mode := JStr "Unknown";
     Fix := JStr "Unknown"; Confidence := JStr "low";
     Supporting_Text := JStr "" |}.

(** The body of [for idx, result in results.items()] *)
Definition add_result (df : DataFrame Row)
    (st : DataFrame Row * list NormalizedRow) (entry : nat * json)
    : result (DataFrame Row * list NormalizedRow) :=
  let '(df_result, approach4_records) := st in
  let '(idx, result) := entry in
  match result with
  | JNull => Ok st
  | _ =>
      problems ← py_get result "problems" (JArr []);
      analysis ← py_get result "analysis" (JObj []);
      total_problems ← py_get analysis "total_problems_found" (JInt 0);
      analysis ← py_get result "analysis" (JObj []);
      confidence_level ← py_get analysis "confidence_level" (JStr "low");
      service_order ← loc df idx "SERVICE_ORDER";
      let df_result := at_set df_result idx "Total_Problems" total_problems in
      let df_result :=
        at_set df_result idx "Overall_Confidence" confidence_level in
      df_result ←
        (if truthy problems then
           parts ← concat_field problems "part";
           failures ← concat_field problems "failure_mode";
           fixes ← concat_field problems "fix";
           confidences ← concat_field problems "confidence";
           let df_result := at_set df_result idx "Part_Assembly_Concat" parts in
           let df_result := at_set df_result idx "Failure_Mode_Concat" failures in
           let df_result := at_set df_result idx "Fix_Concat" fixes in
           let df_result := at_set df_result idx "Confidence_Concat" confidences in
           part ← primary_field problems "part";
           let df_result := at_set df_result idx "Primary_Part" part in
           failure_mode ← primary_field problems "failure_mode";
           let df_result := at_set df_result idx "Primary_Failure" failure_mode in
           fix_ ← primary_field problems "fix";
           let df_result := at_set df_result idx "Primary_Fix" fix_ in
           confidence ← primary_field problems "confidence";
           Ok (at_set df_result idx "Primary_Confidence" confidence)
         else Ok df_result);
      slots ← py_slice_to problems MAX_PROBLEMS;
      df_result ← for_each (fill_slot idx) (enumerate 0 slots) df_result;
      let df_result :=
        at_set df_result idx "All_Problems_JSON" (JStr (Json.dumps problems)) in
      items ← py_iter problems;
      approach4_records ←
        for_each (append_problem service_order idx) (enumerate 1 items)
                 approach4_records;
      let approach4_records :=
        if truthy problems then approach4_records
        else (approach4_records ++ [unknown_record service_order idx])%list in
      Ok (df_result, approach4_records)
  end.

(** The columns added before the results are read, with their initial
    values. *)
Definition initial_columns : list (string * json) :=
  ([("Total_Problems", JInt 0); ("Overall_Confidence", JStr "");
   ("Part_Assembly_Concat", JStr ""); ("Failure_Mode_Concat", JStr "");
   ("Fix_Concat", JStr ""); ("Confidence_Concat", JStr "");
   ("Primary_Part", JStr ""); ("Primary_Failure", JStr "");
   ("Primary_Fix", JStr ""); ("Primary_Confidence", JStr "");
   ("All_Problems_JSON", JStr "")] ++
  mjoin ((λ i, [("Part_" +:+ pretty i, JStr "");
                ("Failure_Mode_" +:+ pretty i, JStr "");
                ("Fix_" +:+ pretty i, JStr "");
                ("Confidence_" +:+ pretty i, JStr "")])
         <$> seq 1 MAX_PROBLEMS))%list.

(** [results] is the dictionary of results in insertion order; the
    problems table is the list of its records. *)
Definition _add_results_to_dataframe
    (df : DataFrame Row) (results : list (nat * json))
    : result (DataFrame Row * list NormalizedRow) :=
  let df_result := df in
  let approach4_records := [] in
  let df_result :=
    foldl (λ d cv, set_column d cv.1 cv.2) df_result initial_columns in
  for_each (add_result df) results (df_result, approach4_records).

Section process_dataframe.
Variable classify_service_call :
  nat → Z → json → json → json → json → result json.
(** The order in which the submitted calls complete. *)
Variable as_completed : list (nat * json) → list (nat * json).

Definition submit (df : DataFrame Row) (idx : nat)
    : result (nat * json) :=
  reason_for_service ← loc df idx "REASON_FOR_SERVICE";
  special_notes ← loc df idx "SPECIAL_NOTES";
  service_performed ← loc df idx "SERVICE_PERFORMED";
  issue_reported ← loc df idx "ISSUE_REPORTED";
  let row_data : gmap string json :=
    {[ "REASON_FOR_SERVICE" := reason_for_service;
       "SPECIAL_NOTES" := special_notes;
       "SERVICE_PERFORMED" := service_performed;
       "ISSUE_REPORTED" := issue_reported ]} in
  Ok (process_single_call (classify_service_call idx) idx row_data 3).

Definition process_dataframe (df : DataFrame Row)
    : result (DataFrame Row * list NormalizedRow) :=
  futures ← mapM (submit df) (df.*1);
  let results :=
    foldl (λ results r, dict_set r.1 r.2 results) [] (as_completed futures) in
  _add_results_to_dataframe df results.
End process_dataframe.
(** *** The shape of a classification result

    What the data model gives as a classification result, as far as the
    materialiser depends on it: a dictionary; its [problems], when there,
    a list of dictionaries whose [part], [failure_mode], [fix] and
    [confidence], when there, are strings; its [analysis], when there, a
    dictionary.  Every key may be missing. *)
Definition is_str (v : json) : bool :=
  match v with JStr _ => true | _ => false end.

Definition is_obj (v : json) : bool :=
  match v with JObj _ => true | _ => false end.

(** The value [p.get(key, "")] of a dictionary [p]. *)
Definition field (p : json) (key : string) : json :=
  match p with
  | JObj m => default (JStr "") (dict_lookup key m)
  | _ => JStr ""
  end.

Definition problem_ok (p : json) : bool :=
  is_obj p &&
  forallb (λ key, is_str (field p key))
          ["part"; "failure_mode"; "fix"; "confidence"].

(** The list [result.get("problems", [])] *)
Definition problems_of (result : json) : list json :=
  match result with
  | JObj m =>
      match default (JArr []) (dict_lookup "problems" m) with
      | JArr ps => ps
      | _ => []
      end
  | _ => []
  end.

Definition classification_result (result : json) : bool :=
  match result with
  | JObj m =>
      match default (JArr []) (dict_lookup "problems" m) with
      | JArr ps => forallb problem_ok ps
      | _ => false
      end
      && is_obj (default (JObj []) (dict_lookup "analysis" m))
  | _ => false
  end.

(** An entry of [results] the materialiser can process: no result, or
    a classification result for a label of the frame that has a
    [SERVICE_ORDER]. *)
Definition entry_ok (df : DataFrame Row) (entry : nat * json) : bool :=
  match entry.2 with
  | JNull => true
  | result =>
      classification_result result &&
      match loc df entry.1 "SERVICE_ORDER" with
      | Ok _ => true
      | Raise _ => false
      end
  end.

(** The normalised record of the problem numbered [n]. *)
Definition problem_row (service_order : json) (idx : nat)
    (np : nat * json) : NormalizedRow :=
  {| SERVICE_ORDER := service_order; Row_Index := idx;
     Problem_Number := np.1; Part := field np.2 "part";
     Failure_Mode := field np.2 "failure_mode"; Fix := field np.2 "fix";
     Confidence := field np.2 "confidence";
     Supporting_Text := field np.2 "supporting_text" |}.

(** The normalised records of one record, as the specification words them. *)
Definition expected_rows (service_order : json) (idx : nat)
    (problems : list json) : list NormalizedRow :=
  match problems with
  | [] => [unknown_record service_order idx]
  | _ => problem_row service_order idx <$> enumerate 1 problems
  end.

(** The text of a string value. *)
Definition text_of (v : json) : string :=
  match v with JStr s => s | _ => "" end.

(** The separator-joined view of one field over all problems. *)
Definition concat_view (problems : list json) (key : string) : json :=
  JStr (String.concat " | " ((λ p, text_of (field p key)) <$> problems)).

(** The four fixed-slot columns of the problem at position [i]. *)
Definition slot_columns (ip : nat * json) : list (string * json) :=
  [("Part_" +:+ pretty (ip.1 + 1), field ip.2 "part");
   ("Failure_Mode_" +:+ pretty (ip.1 + 1), field ip.2 "failure_mode");
   ("Fix_" +:+ pretty (ip.1 + 1), field ip.2 "fix");
   ("Confidence_" +:+ pretty (ip.1 + 1), field ip.2 "confidence")].

(** The cells the materialiser writes for a record with the given
    classification result, in the order it writes them. *)
Definition record_columns (result : json) : list (string * json) :=
  let problems := problems_of result in
  let analysis :=
    match result with
    | JObj m => default (JObj []) (dict_lookup "analysis" m)
    | _ => JObj []
    end in
  ([("Total_Problems",
     match analysis with
     | JObj a => default (JInt 0) (dict_lookup "total_problems_found" a)
     | _ => JInt 0
     end);
    ("Overall_Confidence",
     match analysis with
     | JObj a => default (JStr "low") (dict_lookup "confidence_level" a)
     | _ => JStr "low"
     end)] ++
   match problems with
   | [] => []
   | first :: _ =>
       [("Part_Assembly_Concat", concat_view problems "part");
        ("Failure_Mode_Concat", concat_view problems "failure_mode");
        ("Fix_Concat", concat_view problems "fix");
        ("Confidence_Concat", concat_view problems "confidence");
        ("Primary_Part", field first "part");
        ("Primary_Failure", field first "failure_mode");
        ("Primary_Fix", field first "fix");
        ("Primary_Confidence", field first "confidence")]
   end ++
   mjoin (slot_columns <$> enumerate 0 (take MAX_PROBLEMS problems)) ++
   [("All_Problems_JSON", JStr (Json.dumps (JArr problems)))])%list.

(** A sequence of [df.at[idx, col] = v] *)
Definition at_sets (df : DataFrame Row) (idx : nat)
    (cells : list (string * json)) : DataFrame Row :=
  foldl (λ d cv, at_set d idx cv.1 cv.2) df cells.

(** The normalised records of one entry of [results]. *)
Definition entry_rows (df : DataFrame Row) (entry : nat * json)
    : list NormalizedRow :=
  match entry.2, loc df entry.1 "SERVICE_ORDER" with
  | JNull, _ => []
  | result, Ok service_order =>
      expected_rows service_order entry.1 (problems_of result)
  | _, Raise _ => []
  end.

(** Sample data: the record SO-100 of the specification with its two
    problems, and a record whose classification failed. *)
Definition sample_df : DataFrame Row :=
  [(0, {[ "SERVICE_ORDER" := JStr "SO-100" ]});
   (1, {[ "SERVICE_ORDER" := JStr "SO-101" ]});
   (2, {[ "SERVICE_ORDER" := JStr "SO-102" ]})].

Definition sample_result : json :=
  JObj [("analysis", JObj [("total_problems_found", JInt 2);
                           ("confidence_level", JStr "high")]);
        ("problems",
         JArr [JObj [("part", JStr "Pump"); ("failure_mode", JStr "Leak");
                     ("fix", JStr "Seal replaced");
                     ("confidence", JStr "high");
                     ("supporting_text", JStr "...")];
               JObj [("part", JStr "Valve"); ("failure_mode", JStr "Stuck");
                     ("fix", JStr "Lubricated");
                     ("confidence", JStr "medium");
                     ("supporting_text", JStr "...")]])].

Definition sample_row_data : gmap string json :=
  {[ "REASON_FOR_SERVICE" := JStr "Bomba con fuga";
     "SPECIAL_NOTES" := JNull;
     "SERVICE_PERFORMED" := JStr "Sello cambiado";
     "ISSUE_REPORTED" := JStr "Fuga" ]}.

Definition sample_results : list (nat * json) :=
  [(1, degraded_result); (0, sample_result); (2, JNull)].

(** [d'] has the labels of [d] and differs from it at most in the row
    labelled [idx]. *)
Definition same_except (idx : nat) (d d' : DataFrame Row) : Prop :=
  d'.*1 = d.*1 ∧ ∀ j, j ≠ idx → dict_lookup j d' = dict_lookup j d.
End Classifier.

(** ** [src/translator.py] *)
Module Translator.
Local Open Scope string_scope.
Local Open Scope list_scope.

(** A cell of a text column: a string, or missing ([NaN]). *)
Abbreviation cell := (option string).

(** A frame by columns: column name to the cells of the column, all
    columns over the same index. *)
Abbreviation Frame := (gmap string (list cell)).

(** [c.isspace()] for a code point below 256. *)
Definition isspace (c : ascii) : bool :=
  let n := N_of_ascii c in
  ((9 <=? n) && (n <=? 13) || (28 <=? n) && (n <=? 32) ||
   (n =? 133) || (n =? 160))%N.

(** [s.strip() == ''] *)
Definition strips_to_empty (s : string) : bool :=
  forallb isspace (String.list_ascii_of_string s).

(** [pd.isna(text) or str(text).strip() == ''] *)
Definition is_blank (text : cell) : bool :=
  match text with
  | None => true
  | Some s => strips_to_empty s
  end.

(** [str(text)] *)
Definition str (text : cell) : string :=
  match text with
  | Some s => s
  | None => "nan"
  end.

(** [range(0, len(l), n)] with [l[i:i + n]] for each [i] of it, for
    a positive [n]. *)
Fixpoint batches_go {A} (fuel n : nat) (l : list A) : list (list A) :=
  match fuel, l with
  | 0, _ | _, [] => []
  | S fuel', _ => take n l :: batches_go fuel' n (drop n l)
  end.

Definition batches {A} (n : nat) (l : list A) : list (list A) :=
  batches_go (length l) n l.

Section translator.
(** The translation service: its reply, or the exception it raises,
    to a request for a text, given the requests made before. *)
Variable service : list string → string → result string.

(** The state a translation runs in is the log of the requests made
    so far. *)
Definition translate_text (text : string) (log : list string)
    : result string * list string :=
  (service log text, log ++ [text]).

(** [asyncio.gather] with [return_exceptions=True]: every request
    is made, and what a request raises is returned in its place.  The
    requests of a batch are taken in the order of the tasks. *)
Fixpoint gather (texts : list string) (log : list string)
    : result (list (result string)) * list string :=
  match texts with
  | [] => (Ok [], log)
  | text :: texts' =>
      let '(r, log) := translate_text text log in
      let '(rs, log) := gather texts' log in
      (rs ← rs; Ok (r :: rs), log)
  end.

(** The fallback of the batch handler: one request after the other. *)
Fixpoint one_by_one (valid_texts : list cell)
    (translation_map : gmap cell string) (log : list string)
    : gmap cell string * list string :=
  match valid_texts with
  | [] => (translation_map, log)
  | text :: rest =>
      let '(r, log) := translate_text (str text) log in
      let translation_map :=
        match r with
        | Ok translated => <[text := translated]> translation_map
        | Raise _ => <[text := str text]> translation_map
        end in
      one_by_one rest translation_map log
  end.

(** The body of [for i in range(0, total, self.batch_size)] *)
Definition translate_batch (st : gmap cell string * list string)
    (batch : list cell) : gmap cell string * list string :=
  let '(translation_map, log) := st in
  let translation_map :=
    foldl (λ m text, if is_blank text then <[text := ""]> m else m)
          translation_map batch in
  let valid_texts := filter (λ text, is_blank text = false) batch in
  let tasks := str <$> valid_texts in
  match tasks with
  | [] => (translation_map, log)
  | _ =>
      match gather tasks log with
      | (Ok results, log) =>
          (foldl (λ m tr,
                    match tr.2 with
                    | Raise _ => <[tr.1 := str tr.1]> m
                    | Ok translated => <[tr.1 := translated]> m
                    end)
                 translation_map (zip valid_texts results), log)
      | (Raise _, log) => one_by_one valid_texts translation_map log
      end
  end.

(** [range] refuses a step of 0 and is empty for a negative step. *)
Definition translate_unique_values (batch_size : Z)
    (unique_values : list cell) (log : list string)
    : result (gmap cell string) * list string :=
  if (batch_size =? 0)%Z then (Raise ValueError, log)
  else if (batch_size <? 0)%Z then (Ok ∅, log)
  else
    let '(translation_map, log) :=
      foldl translate_batch (∅, log)
            (batches (Z.to_nat batch_size) unique_values) in
    (Ok translation_map, log).

(** [df[col].dropna().unique()] *)
Definition unique_non_null (column : list cell) : list cell :=
  unique (filter (λ c, c ≠ None) column).

(** [df[col].map(translation_map)], then [fillna(df[col])] *)
Definition map_column (translation_map : gmap cell string)
    (column : list cell) : list cell :=
  let mapped := (λ c, translation_map !! c) <$> column in
  zip_with (λ new original,
              match new with
              | None => original
              | Some _ => new
              end) mapped column.

(** The body of [for col in columns_to_process] *)
Definition translate_column (batch_size : Z) (df : Frame)
    (st : result Frame * list string) (col : string)
    : result Frame * list string :=
  match st with
  | (Raise e, log) => (Raise e, log)
  | (Ok df_result, log) =>
      let column := default [] (df !! col) in
      let unique_values := unique_non_null column in
      match unique_values with
      | [] => (Ok df_result, log)
      | _ =>
          match translate_unique_values batch_size unique_values log with
          | (Raise e, log) => (Raise e, log)
          | (Ok translation_map, log) =>
              (Ok (<[col +:+ "_EN" := map_column translation_map column]>
                     df_result), log)
          end
      end
  end.

Definition translate_dataframe_async (batch_size : Z)
    (columns_to_translate : list string) (df : Frame)
    (log : list string) : result Frame * list string :=
  let df_result := df in
  let columns_to_process :=
    filter (λ col, is_Some (df !! col)) columns_to_translate in
  match columns_to_process with
  | [] => (Ok df_result, log)
  | _ => foldl (translate_column batch_size df) (Ok df_result, log)
               columns_to_process
  end.

(** What the map holds for a requested text: the translation, or
    the text itself when the request raised. *)
Definition translated_or_original (r : result string) (text : string)
    : string :=
  match r with
  | Ok translated => translated
  | Raise _ => text
  end.

(** The replies to a batch of requests made one after the other. *)
Fixpoint replies (texts : list string) (log : list string)
    : list (result string) :=
  match texts with
  | [] => []
  | text :: texts' => service log text :: replies texts' (log ++ [text])
  end.

(** The values taken one at a time, without batches: a blank value is
    mapped to the empty string, any other value is requested and mapped
    to the reply or to itself. *)
Fixpoint translate_each (values : list cell)
    (translation_map : gmap cell string) (log : list string)
    : gmap cell string * list string :=
  match values with
  | [] => (translation_map, log)
  | text :: values' =>
      if is_blank text
      then translate_each values' (<[text := ""]> translation_map) log
      else translate_each values'
             (<[text := translated_or_original (service log (str text))
                                               (str text)]> translation_map)
             (log ++ [str text])
  end.
End translator.

(** Sample data: a service that fails on one text, and a column with a
    missing cell, blank cells and a repeated value. *)
Definition sample_service (log : list string) (text : string)
    : result string :=
  if String.eqb text "mala" then Raise RequestException
  else Ok ("EN " +:+ text).

Definition sample_column : list cell :=
  [Some "hola"; None; Some "  "; Some "mala"; Some "hola"; Some ""].

Definition sample_frame : Frame :=
  {[ "REASON_FOR_SERVICE" := sample_column ]}.

(** The distinct values of a column that are neither missing nor blank. *)
Definition distinct_non_blank (column : list cell) : gset string :=
  list_to_set
    (omap (λ c, match c with
                | Some s => if strips_to_empty s then None else Some s
                | None => None
                end) column).
End Translator.

(** ** [str] methods of Python, on strings of code points below 256 *)
Module Text.
Local Open Scope string_scope.

(** The line feed. *)
Definition nl : string := String (ascii_of_N 10) "".

(** [s.startswith(p)] *)
Fixpoint startswith (s p : string) : bool :=
  match p, s with
  | "", _ => true
  | String a p', String b s' => Ascii.eqb a b && startswith s' p'
  | String _ _, "" => false
  end.

(** [old in s] *)
Fixpoint contains (s old : string) : bool :=
  startswith s old ||
  match s with
  | "" => false
  | String _ s' => contains s' old
  end.

(** [s.replace(old, new)] for a non-empty [old]: the occurrences of
    [old] are taken from the left and do not overlap.  [skip] counts
    the characters of the occurrence just replaced that are still to
    be passed over. *)
Fixpoint replace_go (old new : string) (skip : nat) (s : string) : string :=
  match s with
  | "" => ""
  | String c s' =>
      match skip with
      | S skip' => replace_go old new skip' s'
      | 0 =>
          if startswith s old
          then new +:+ replace_go old new (String.length old - 1) s'
          else String c (replace_go old new 0 s')
      end
  end.

(** With the empty [old], [new] is put before every character and at
    the end. *)
Fixpoint intersperse (new s : string) : string :=
  match s with
  | "" => new
  | String c s' => new +:+ String c (intersperse new s')
  end.

Definition replace (s old new : string) : string :=
  match old with
  | "" => intersperse new s
  | _ => replace_go old new 0 s
  end.

(** [s.strip(chars)], with the set of characters as a predicate. *)
Fixpoint lstrip_by (p : ascii → bool) (s : string) : string :=
  match s with
  | "" => ""
  | String c s' => if p c then lstrip_by p s' else s
  end.

Fixpoint rstrip_by (p : ascii → bool) (s : string) : string :=
  match s with
  | "" => ""
  | String c s' =>
      let r := rstrip_by p s' in
      if p c && String.eqb r "" then "" else String c r
  end.

Definition strip_by (p : ascii → bool) (s : string) : string :=
  rstrip_by p (lstrip_by p s).

(** [s.strip()] *)
Definition strip (s : string) : string := strip_by Translator.isspace s.

(** [s.strip(c)] for one character [c] *)
Definition strip_char (c : ascii) (s : string) : string :=
  strip_by (Ascii.eqb c) s.

(** [s.lower()]: the upper-case letters of Latin-1 are 32 below their
    lower-case letters. *)
Definition lower_char (c : ascii) : ascii :=
  let n := N_of_ascii c in
  if ((65 <=? n) && (n <=? 90) || (192 <=? n) && (n <=? 222) && negb (n =? 215))%N
  then ascii_of_N (n + 32) else c.

Fixpoint lower (s : string) : string :=
  match s with
  | "" => ""
  | String c s' => String (lower_char c) (lower s')
  end.

(** Does [s] begin, and does it end, with a character that [p] does
    not hold of? *)
Definition begins_outside (p : ascii → bool) (s : string) : bool :=
  match s with
  | "" => false
  | String c _ => negb (p c)
  end.

Fixpoint ends_outside (p : ascii → bool) (s : string) : bool :=
  match s with
  | "" => false
  | String c "" => negb (p c)
  | String _ s' => ends_outside p s'
  end.

(** Is [old] found at none of the positions of [s] in [s +:+ t]? *)
Fixpoint no_match (old s t : string) : bool :=
  match s with
  | "" => true
  | String c s' => negb (startswith (s +:+ t) old) && no_match old s' t
  end.
(** [s[n:]] *)
Fixpoint string_drop (n : nat) (s : string) : string :=
  match n, s with
  | 0, _ => s
  | S n', String _ s' => string_drop n' s'
  | S _, "" => ""
  end.

(** No proper suffix of [old] begins [t]: an occurrence of [old]
    cannot end in [t] unless it begins there. *)
Definition border_free (old t : string) : bool :=
  forallb (λ m, negb (startswith t (string_drop m old)))
          (seq 1 (String.length old - 1)).
End Text.

(** ** [src/utils.py], continued *)
Module Storage.
Import Text.
Local Open Scope string_scope.

(** [validate_dataframe]: the frame is read through [df.columns]. *)
Definition validate_dataframe {DF : Type} (columns : DF → list string)
    (df : DF) (required_columns : list string) : bool * list string :=
  let missing := filter (λ col, col ∉ columns df) required_columns in
  match missing with
  | [] => (true, [])
  | _ => (false, missing)
  end.

(** [df.columns] of a frame by columns. *)
Definition frame_columns (df : Translator.Frame) : list string :=
  (map_to_list df).*1.

Section save_excel.
(** The file system and the clock are the world [save_excel] runs in;
    the frame is handed to pandas as it is. *)
Context {World DataFrame : Type}.
(** [os.path.exists] *)
Variable path_exists : World → string → bool.
(** [datetime.now().strftime("%Y%m%d_%H%M%S")] *)
Variable now : World → string.
(** [os.rename], [df.to_excel] and [df.to_csv]: each returns or raises,
    and leaves a world behind. *)
Variable rename : string → string → World → result unit * World.
Variable to_excel : DataFrame → string → World → result unit * World.
Variable to_csv : DataFrame → string → World → result unit * World.

(** [if create_backup and os.path.exists(filepath)] with its body *)
Definition backup (filepath : string) (create_backup : bool) (w : World)
    : result unit * World :=
  if create_backup && path_exists w filepath then
    let timestamp := now w in
    let backup_path :=
      replace filepath ".xlsx" ("_backup_" +:+ timestamp +:+ ".xlsx") in
    rename filepath backup_path w
  else (Ok (), w).

(** [while os.path.exists(filepath)]: the path the loop ends with.
    [fuel] bounds the number of rounds; [None] when it does not
    suffice. *)
Fixpoint versioned (fuel : nat) (w : World) (original_filepath filepath : string)
    (counter : nat) : option string :=
  if path_exists w filepath then
    match fuel with
    | 0 => None
    | S fuel' =>
        let base := replace original_filepath ".xlsx" "" in
        let filepath := base +:+ "_" +:+ pretty counter +:+ ".xlsx" in
        versioned fuel' w original_filepath filepath (counter + 1)
    end
  else Some filepath.

(** [try: df.to_excel(filepath) ... except Exception: df.to_csv(...)] *)
Definition write (df : DataFrame) (filepath : string) (w : World)
    : result string * World :=
  match to_excel df filepath w with
  | (Ok _, w) => (Ok filepath, w)
  | (Raise _, w) =>
      let csv_path := replace filepath ".xlsx" ".csv" in
      match to_csv df csv_path w with
      | (Ok _, w) => (Ok csv_path, w)
      | (Raise e, w) => (Raise e, w)
      end
  end.

Definition save_excel (fuel : nat) (df : DataFrame) (filepath : string)
    (create_backup : bool) (w : World) : option (result string * World) :=
  match backup filepath create_backup w with
  | (Raise e, w) => Some (Raise e, w)
  | (Ok _, w) =>
      let counter := 1 in
      let original_filepath := filepath in
      filepath ← versioned fuel w original_filepath filepath counter;
      Some (write df filepath w)
  end.
End save_excel.

(** What the loop puts between the base and the extension in round
    [k]. *)
Definition version (k : nat) : string :=
  match k with
  | 0 => ""
  | _ => "_" +:+ pretty k
  end.

(** The path the loop tries in round [k]. *)
Definition candidate (original_filepath : string) (k : nat) : string :=
  match k with
  | 0 => original_filepath
  | _ => replace original_filepath ".xlsx" "" +:+ "_" +:+ pretty k +:+ ".xlsx"
  end.
End Storage.

(** ** [src/classifier.py], continued: the request to the service *)
Module Service.
Import Text.
Local Open Scope string_scope.

(** [v[k]] for a string [k]: only a dictionary is indexed by strings. *)
Definition py_item (v : json) (k : string) : result json :=
  match v with
  | JObj m =>
      match dict_lookup k m with
      | Some x => Ok x
      | None => Raise KeyError
      end
  | _ => Raise TypeError
  end.

(** [v.items()] *)
Definition py_items (v : json) : result (list (string * json)) :=
  match v with
  | JObj m => Ok m
  | _ => Raise AttributeError
  end.

(** What [session.post] is given: the endpoint, the fields of the
    payload and the authorization header.  [temperature] is [None] when
    the configuration has none and the default [0.1], a float, is
    sent. *)
Record Request : Type := {
  url : json;
  model : json;
  system_content : string;
  user_content : string;
  temperature : option json;
  authorization : string;
}.

(** What the code reads of a response: the status, the text, and what
    [response.json()] returns or raises. *)
Record Response : Type := {
  status_code : Z;
  text : string;
  response_json : result json;
}.

(** [data["choices"][0]["message"]["content"]] *)
Definition message_content (data : json) : result json :=
  choices ← py_item data "choices";
  choice ← py_first choices;
  message ← py_item choice "message";
  py_item message "content".

(** The opening and the closing line of a fenced block. *)
Definition fence_open : string := "```json" +:+ nl.
Definition fence_close : string := nl +:+ "```".

Section classify_service_call.
(** The fields of the classifier. *)
Variable part_failure_data prompts api_config : json.
Variable token : option string.
(** [str.format] with keyword arguments, as the library has it. *)
Variable str_format : string → list (string * json) → result string.
(** [self.session.post]; the first argument counts the requests already
    made for the record. *)
Variable post : Z → Request → result Response.

(** [template.format(...)]: only a string has the method. *)
Definition format (template : json) (kwargs : list (string * json))
    : result string :=
  match template with
  | JStr t => str_format t kwargs
  | _ => Raise AttributeError
  end.

(** The body of [for part, data in self.part_failure_data.items()].
    The two symbols of the rule that are outside Latin-1 stand as their
    UTF-8 bytes. *)
Definition add_rule (rules : string) (item : string * json) : result string :=
  let '(part, data) := item in
  failure_modes ← py_item data "failure_modes";
  failure_modes ← py_iter failure_modes;
  failure_modes_str ← str_join "', '" failure_modes;
  fixes ← py_item data "fixes";
  fixes ← py_iter fixes;
  fixes_str ← str_join "', '" fixes;
  Ok (rules +:+ "If Part = '" +:+ part +:+ "' → Failure Mode ∈ {'" +:+
      failure_modes_str +:+ "'}; Fix ∈ {'" +:+ fixes_str +:+ "'}" +:+ nl).

Definition generate_classification_prompt : result string :=
  let rules := "" in
  items ← py_items part_failure_data;
  rules ← for_each add_rule items rules;
  template ← py_get prompts "classification_prompt_template" (JStr "");
  format template [("rules", JStr rules)].

(** [classify_service_call] up to the request. *)
Definition build_request
    (reason_for_service special_notes service_performed issue_reported : json)
    : result Request :=
  url ← py_item api_config "endpoint";
  system_prompt ← generate_classification_prompt;
  user_template ←
    py_get prompts "classification_user_message_template" (JStr "");
  user_message ←
    format user_template
      [("reason_for_service", reason_for_service);
       ("special_notes", special_notes);
       ("service_performed", service_performed);
       ("issue_reported", issue_reported)];
  model ← py_get api_config "model" (JStr "gpt-4o");
  temperature ← (items ← py_items api_config;
                 Ok (dict_lookup "temperature" items));
  Ok {| url := url; model := model; system_content := system_prompt;
        user_content := user_message; temperature := temperature;
        authorization := "Bearer " +:+ default "None" token |}.

(** [classify_service_call] from the response on. *)
Definition read_response (response : Response) : result json :=
  if (status_code response =? 200)%Z then
    data ← response_json response;
    content ← message_content data;
    match content with
    | JStr content =>
        let content :=
          if startswith content "```json"
          then replace (replace (replace content fence_open "")
                                fence_close "") "```" ""
          else content in
        Json.loads content
    | _ => Raise AttributeError
    end
  else Raise RuntimeError.

Definition classify_service_call (attempts : Z)
    (reason_for_service special_notes service_performed issue_reported : json)
    : result json :=
  request ← build_request reason_for_service special_notes
                          service_performed issue_reported;
  response ← post attempts request;
  read_response response.
End classify_service_call.
End Service.

(** ** [src/pipeline.py]: the names of the files and the incremental run *)
Module Pipeline.
Import Text.
Local Open Scope string_scope.

(** The path [run_full_pipeline] saves the enriched table under, and
    the path it saves the problems table under. *)
Definition main_file (output_base_name : string) : string :=
  output_base_name +:+ "_final.xlsx".

Definition problems_file (output_base_name : string) : string :=
  output_base_name +:+ "_problems_normalized.xlsx".

(** The path [run_incremental_pipeline] reads the existing problems
    table from. *)
Definition problems_file_path (processed_file : string) : string :=
  replace processed_file "_final.xlsx" "_problems_normalized.xlsx".

Section pipeline.
(** The world the pipeline runs in: the files, the clock, the two
    services.  A frame is the frame of [src/utils.py]; its column
    labels are strings. *)
Context {World Row Key : Type} `{Countable Key}.
(** [df['SERVICE_ORDER']] *)
Variable id_column : Row → Key.
(** [df.columns] *)
Variable columns : DataFrame Row → list string.
(** [pd.read_excel] *)
Variable read_excel : string → World → result (DataFrame Row) * World.
(** [self.translator.translate] *)
Variable translate :
  DataFrame Row → World → result (DataFrame Row) * World.
(** [self.classifier.process_dataframe] with its [max_workers] *)
Variable process_dataframe :
  DataFrame Row → json → World →
  result (DataFrame Row * DataFrame Row) * World.
(** [save_excel] of [src/utils.py] *)
Variable save_excel :
  DataFrame Row → string → bool → World → result string * World.
(** [datetime.now().strftime("%Y%m%d_%H%M%S")] *)
Variable now : World → string.
(** [self.settings] *)
Variable settings : json.

(** [load_excel] of [src/utils.py]: whatever the reader raises, the
    answer is [None]. *)
Definition load_excel (filepath : string) (w : World)
    : option (DataFrame Row) * World :=
  match read_excel filepath w with
  | (Ok df, w) => (Some df, w)
  | (Raise _, w) => (None, w)
  end.

Definition run_incremental_pipeline
    (new_file processed_file output_base_name : string) (w : World)
    : result (option (DataFrame Row) * option (DataFrame Row)) * World :=
  let '(new_df, w) := load_excel new_file w in
  let '(processed_df, w) := load_excel processed_file w in
  match new_df with
  | None => (Ok (None, None), w)
  | Some new_df =>
      let records_to_process :=
        Utils.find_new_service_orders id_column new_df processed_df in
      match records_to_process with
      | [] => (Ok (processed_df, None), w)
      | _ =>
          match translate records_to_process w with
          | (Raise e, w) => (Raise e, w)
          | (Ok new_translated, w) =>
              match (classification ← Service.py_item settings "classification";
                     Service.py_item classification "max_workers") with
              | Raise e => (Raise e, w)
              | Ok max_workers =>
                  match process_dataframe new_translated max_workers w with
                  | (Raise e, w) => (Raise e, w)
                  | (Ok (new_classified, new_problems_df), w) =>
                      let combined_df :=
                        Utils.merge_processed_data processed_df new_classified in
                      let problems_file_path :=
                        problems_file_path processed_file in
                      let '(existing_problems_df, w) :=
                        load_excel problems_file_path w in
                      let combined_problems_df :=
                        Utils.merge_processed_data existing_problems_df
                          new_problems_df in
                      let timestamp := now w in
                      match save_excel combined_df
                              (output_base_name +:+ "_" +:+ timestamp +:+ ".xlsx")
                              false w with
                      | (Raise e, w) => (Raise e, w)
                      | (Ok main_file, w) =>
                          match save_excel combined_problems_df
                                  (output_base_name +:+ "_problems_" +:+
                                   timestamp +:+ ".xlsx") false w with
                          | (Raise e, w) => (Raise e, w)
                          | (Ok problems_file, w) =>
                              (Ok (Some combined_df, Some combined_problems_df), w)
                          end
                      end
                  end
              end
          end
      end
  end.

(** [[label] + v]: only a list is added to a list. *)
Definition list_add (label : json) (v : json) : result (list json) :=
  match v with
  | JArr l => Ok (label :: l)
  | _ => Raise TypeError
  end.

(** A list or a dict cannot be hashed, so it cannot be looked up among
    the column labels. *)
Definition unhashable (v : json) : bool :=
  match v with
  | JArr _ | JObj _ => true
  | _ => false
  end.

(** The first component of [validate_dataframe(df, required_cols)] for
    labels as the settings give them: [col not in df.columns] raises
    on an unhashable label, and a hashable label that is not a string
    is no column of the frame. *)
Definition is_valid (df : DataFrame Row) (required_cols : list json)
    : result bool :=
  if existsb unhashable required_cols then Raise TypeError
  else
    match mapM as_str required_cols with
    | Ok required_cols =>
        Ok (Storage.validate_dataframe columns df required_cols).1
    | Raise _ => Ok false
    end.

(** [self.settings[section][key]] *)
Definition setting (section key : string) : result json :=
  section ← Service.py_item settings section;
  Service.py_item section key.

Definition run_full_pipeline (input_file output_base_name : string) (w : World)
    : result (option (DataFrame Row) * option (DataFrame Row)) * World :=
  let '(df, w) := load_excel input_file w in
  match df with
  | None => (Ok (None, None), w)
  | Some df =>
      match (columns_to_translate ← setting "translation" "columns_to_translate";
             list_add (JStr "SERVICE_ORDER") columns_to_translate) with
      | Raise e => (Raise e, w)
      | Ok required_cols =>
          match is_valid df required_cols with
          | Raise e => (Raise e, w)
          | Ok false => (Ok (None, None), w)
          | Ok true =>
            match translate df w with
            | (Raise e, w) => (Raise e, w)
            | (Ok df_translated, w) =>
          match setting "output" "create_backup" with
          | Raise e => (Raise e, w)
          | Ok create_backup =>
          match save_excel df_translated
                  (output_base_name +:+ "_translated.xlsx")
                  (truthy create_backup) w with
          | (Raise e, w) => (Raise e, w)
          | (Ok translated_file, w) =>
          match setting "classification" "max_workers" with
          | Raise e => (Raise e, w)
          | Ok max_workers =>
          match process_dataframe df_translated max_workers w with
          | (Raise e, w) => (Raise e, w)
          | (Ok (df_classified, problems_df), w) =>
          match save_excel df_classified (main_file output_base_name)
                  (truthy create_backup) w with
          | (Raise e, w) => (Raise e, w)
          | (Ok main_file, w) =>
          match save_excel problems_df (problems_file output_base_name)
                  (truthy create_backup) w with
          | (Raise e, w) => (Raise e, w)
          | (Ok problems_file, w) =>
              (Ok (Some df_classified, Some problems_df), w)
          end end end end end end
            end
          end
      end
  end.
End pipeline.

End Pipeline.

(** ** [main.py]: what the user types

    [input()] returns the next line typed; when the input has ended
    it raises [EOFError], which is [None] here.  What is printed is
    left out. *)
Module Cli.
Import Text.
Local Open Scope string_scope.

Fixpoint get_user_choice (inputs : list string)
    : option (string * list string) :=
  match inputs with
  | [] => None
  | line :: inputs' =>
      let choice := strip line in
      if bool_decide (choice ∈ ["1"; "2"; "3"]) then Some (choice, inputs')
      else get_user_choice inputs'
  end.

Section get_file_path.
(** [os.path.exists] *)
Variable path_exists : string → bool.

Fixpoint get_file_path (inputs : list string)
    : option (option string * list string) :=
  match inputs with
  | [] => None
  | line :: inputs' =>
      let filepath := strip line in
      let filepath := strip_char "'" (strip_char Json.dquote filepath) in
      if path_exists filepath then Some (Some filepath, inputs')
      else
        match inputs' with
        | [] => None
        | answer :: inputs'' =>
            let retry := lower (strip answer) in
            if negb (String.eqb retry "y") then Some (None, inputs'')
            else get_file_path inputs''
        end
  end.
End get_file_path.

(** White space and the two quotes, which [get_file_path] strips. *)
Definition space_or_quote (c : ascii) : bool :=
  Translator.isspace c || Ascii.eqb Json.dquote c || Ascii.eqb "'" c.

Definition get_output_name (inputs : list string)
    : option (string * list string) :=
  let default_name := "processed_service_calls" in
  match inputs with
  | [] => None
  | line :: inputs' =>
      let name := strip line in
      if String.eqb name "" then Some (default_name, inputs')
      else
        let name := replace (replace name ".xlsx" "") ".xls" "" in
        Some (name, inputs')
  end.
End Cli.

(** ** Vocabulary of the properties *)
Module Vocabulary.
Import Classifier Translator.
Local Open Scope string_scope.
Local Open Scope list_scope.

(** [d'] has the labels of [d] and the cells of [d] in every column
    that is not one of [names]. *)
Definition keeps_columns (names : list string) (d d' : DataFrame Row) : Prop :=
  d'.*1 = d.*1 ∧ ∀ idx col, col ∉ names → loc d' idx col = loc d idx col.

(** The number of normalised records of a result. *)
Definition rows_of (result : json) : nat :=
  match result with
  | JNull => 0
  | _ => length (problems_of result) `max` 1
  end.

(** The requests a column gives rise to: its distinct values that are
    neither missing nor blank, in order of first appearance. *)
Definition requests_of (column : list cell) : list string :=
  str <$> filter (λ t, is_blank t = false) (unique_non_null column).

(** Does the frame have the column, with a value that is not missing? *)
Definition has_value (df : Frame) (col : string) : bool :=
  match df !! col with
  | Some column => bool_decide (unique_non_null column ≠ [])
  | None => false
  end.

(** Two runs agree on whether they return and on the records they
    return. *)
Definition same_records {A}
    (r r' : result (A * list NormalizedRow)) : Prop :=
  match r, r' with
  | Ok (_, recs), Ok (_, recs') => recs = recs'
  | Raise e, Raise e' => e = e'
  | _, _ => False
  end.

(** The columns the classification reads. *)
Definition columns_read : list string :=
  ["REASON_FOR_SERVICE"; "SPECIAL_NOTES"; "SERVICE_PERFORMED";
   "ISSUE_REPORTED"; "SERVICE_ORDER"].
End Vocabulary.

(** ** Sample data for the instances *)
Module Samples.
Import Text Storage Service.
Local Open Scope string_scope.
Local Open Scope list_scope.

(** Two service calls with the columns the classification reads. *)
Definition sample_calls : DataFrame Classifier.Row :=
  [(0, {[ "SERVICE_ORDER" := JStr "SO-100";
          "REASON_FOR_SERVICE" := JStr "Bomba con fuga";
          "SPECIAL_NOTES" := JNull;
          "SERVICE_PERFORMED" := JStr "Sello cambiado";
          "ISSUE_REPORTED" := JStr "Fuga" ]});
   (1, {[ "SERVICE_ORDER" := JStr "SO-101";
          "REASON_FOR_SERVICE" := JStr "Ruido";
          "SPECIAL_NOTES" := JStr "Urgente";
          "SERVICE_PERFORMED" := JStr "Ajuste";
          "ISSUE_REPORTED" := JStr "Vibra" ]})].

(** The same calls after a translation that added a column. *)
Definition sample_calls_EN : DataFrame Classifier.Row :=
  (λ r, (r.1, <["REASON_FOR_SERVICE_EN" := JStr "..."]> r.2)) <$> sample_calls.

(** A service that is down. *)
Definition service_down (idx : nat) (attempts : Z) (a b c d : json)
    : result json :=
  Raise RequestException.

(** A frame with the key column and a column to translate. *)
Definition sample_orders : Translator.Frame :=
  {[ "SERVICE_ORDER" :=
       [Some "SO-1"; Some "SO-2"; Some "SO-3"; Some "SO-4"; Some "SO-5";
        Some "SO-6"];
     "REASON_FOR_SERVICE" := Translator.sample_column ]}.

(** A file system as the list of the paths that exist, with a clock
    that stands still; the workbook writer can be made to fail. *)
Definition sample_exists (w : list string) (p : string) : bool :=
  bool_decide (p ∈ w).
Definition sample_now (w : list string) : string := "20250101_120000".
Definition sample_rename (src dst : string) (w : list string)
    : result unit * list string :=
  (Ok (), dst :: filter (λ p, p ≠ src) w).
Definition sample_to_excel (fails : bool) (df : unit) (p : string)
    (w : list string) : result unit * list string :=
  if fails then (Raise RuntimeError, w) else (Ok (), p :: w).
Definition sample_to_csv (df : unit) (p : string) (w : list string)
    : result unit * list string :=
  (Ok (), p :: w).

(** A classifier configuration, a stand-in for [str.format] that
    leaves the template as it is, and a service that answers with a
    fenced block. *)
Definition sample_parts : json :=
  JObj [("Pump", JObj [("failure_modes", JArr [JStr "Leak"; JStr "Noise"]);
                       ("fixes", JArr [JStr "Seal replaced"])])].
Definition sample_prompts : json :=
  JObj [("classification_prompt_template", JStr "Rules: {rules}");
        ("classification_user_message_template", JStr "{issue_reported}")].
Definition sample_api : json := JObj [("endpoint", JStr "https://api/chat")].
Definition sample_format (t : string) (kwargs : list (string * json))
    : result string := Ok t.
Definition sample_reply (status : Z) (content : string) : Response :=
  {| status_code := status; text := content;
     response_json :=
       Ok (JObj [("choices",
                  JArr [JObj [("message",
                               JObj [("content", JStr content)])]])]) |}.
Definition sample_post (status : Z) (content : string)
    (attempts : Z) (request : Request) : result Response :=
  Ok (sample_reply status content).

(** A world that is the log of what was done in it: two workbooks
    that can be read, stages that hand their frame on, and a save that
    always succeeds.  A row is its key. *)
Definition sample_old : DataFrame string := [(0, "A"); (1, "B"); (2, "C")].
Definition sample_new : DataFrame string :=
  [(0, "A"); (1, "B"); (2, "C"); (3, "D"); (4, "E")].
Definition sample_read (path : string) (w : list string)
    : result (DataFrame string) * list string :=
  (if String.eqb path "old_final.xlsx" then Ok sample_old
   else if String.eqb path "new.xlsx" then Ok sample_new
   else if String.eqb path "same.xlsx" then Ok sample_old
   else Raise RuntimeError,
   w ++ ["read " +:+ path]).
Definition sample_translate (df : DataFrame string) (w : list string)
    : result (DataFrame string) * list string :=
  (Ok df, w ++ ["translate"]).
Definition sample_process (df : DataFrame string) (max_workers : json)
    (w : list string)
    : result (DataFrame string * DataFrame string) * list string :=
  (Ok (df, df), w ++ ["classify"]).
Definition sample_save (df : DataFrame string) (path : string)
    (create_backup : bool) (w : list string) : result string * list string :=
  (Ok path, w ++ ["save " +:+ path]).
Definition sample_settings : json :=
  JObj [("classification", JObj [("max_workers", JInt 4)])].
(** Settings of a full run that say nothing on the output, and two
    ways of reading the column labels of a frame. *)
Definition sample_full_settings : json :=
  JObj [("translation",
         JObj [("columns_to_translate", JArr [JStr "REASON_FOR_SERVICE"])]);
        ("classification", JObj [("max_workers", JInt 4)])].
Definition sample_key_only (df : DataFrame string) : list string :=
  ["SERVICE_ORDER"].
Definition sample_both (df : DataFrame string) : list string :=
  ["SERVICE_ORDER"; "REASON_FOR_SERVICE"].
End Samples.

(** ** Properties *)

Lemma filter_none {A} (P : A → Prop) `{∀ x, Decision (P x)} (l : list A) :
  (∀ x, x ∈ l → ¬ P x) → filter P l = [].
Proof.
  induction l as [|x l IH]; intros Hl; [done|].
  rewrite filter_cons_False by (apply Hl; left).
  apply IH. intros y Hy. apply Hl. by right.
Qed.

Section unique_facts.
Context `{EqDecision A}.

Lemma elem_of_unique (l : list A) x : x ∈ unique l ↔ x ∈ l.
Proof.
  induction l as [|y l IH]; simpl; [done|].
  rewrite !elem_of_cons, list_elem_of_filter, IH.
  destruct (decide (x = y)); naive_solver.
Qed.

Lemma NoDup_unique (l : list A) : NoDup (unique l).
Proof.
  induction l as [|y l IH]; simpl; constructor.
  - rewrite list_elem_of_filter. naive_solver.
  - by apply NoDup_filter.
Qed.

End unique_facts.

Lemma list_to_set_unique `{Countable A} (l : list A) :
  list_to_set (C := gset A) (unique l) = list_to_set l.
Proof. apply set_eq. intros x. by rewrite !elem_of_list_to_set, elem_of_unique. Qed.

Lemma length_reset_index {Row} (df : DataFrame Row) :
  length (reset_index df) = length df.
Proof.
  unfold reset_index. rewrite length_zip_with, length_seq, length_fmap. lia.
Qed.

Lemma snd_reset_index {Row} (df : DataFrame Row) : (reset_index df).*2 = df.*2.
Proof.
  unfold reset_index. apply snd_zip. by rewrite length_seq, length_fmap.
Qed.

Section utils_facts.
Context {Row Key : Type} `{Countable Key} (id_column : Row → Key).
Implicit Types df new_df : DataFrame Row.
Implicit Types processed_df : option (DataFrame Row).

Local Abbreviation key_set := (Utils.key_set id_column).
Local Abbreviation find_new_service_orders := (Utils.find_new_service_orders id_column).

Lemma elem_of_key_set df k :
  k ∈ key_set df ↔ ∃ r, r ∈ df ∧ id_column r.2 = k.
Proof.
  unfold Utils.key_set, Utils.column.
  rewrite list_to_set_unique, elem_of_list_to_set, !list_elem_of_fmap.
  setoid_rewrite list_elem_of_fmap. naive_solver.
Qed.

Lemma column_reset_index df :
  Utils.column id_column (reset_index df) = Utils.column id_column df.
Proof.
  unfold Utils.column. by rewrite snd_reset_index.
Qed.

Lemma key_set_reset_index df : key_set (reset_index df) = key_set df.
Proof. unfold Utils.key_set. by rewrite column_reset_index. Qed.

Lemma key_set_app df1 df2 : key_set (df1 ++ df2) = key_set df1 ∪ key_set df2.
Proof.
  apply set_eq. intros k.
  rewrite elem_of_union, !elem_of_key_set.
  setoid_rewrite elem_of_app. naive_solver.
Qed.

(** Both exits of the differencer select the rows whose key is outside
    the processed key set. *)
Lemma find_new_service_orders_filter new_df r p :
  find_new_service_orders new_df (Some (r :: p)) =
  filter (λ x, id_column x.2 ∈ key_set new_df ∖ key_set (r :: p)) new_df.
Proof.
  unfold Utils.find_new_service_orders. simpl.
  case_decide as Hd; [|done].
  rewrite Hd. symmetry. apply filter_none. intros x _. set_solver.
Qed.

Lemma find_new_service_orders_self new_df :
  find_new_service_orders new_df (Some new_df) = [].
Proof.
  destruct new_df as [|r p]; [done|].
  rewrite find_new_service_orders_filter.
  apply filter_none. intros x _. set_solver.
Qed.

(** C5.  Merging appends: the result has [len(A) + len(B)] rows, its key
    set is the union of the two key sets, its rows are those of [A] in
    order followed by those of [B] in order, and an absent or empty [A]
    gives back [B] itself ([None] counts as a frame without rows). *)
Theorem merge_processed_data_concat
    (existing_df : option (DataFrame Row)) (new_df : DataFrame Row) :
  let A := default [] existing_df in
  let M := Utils.merge_processed_data existing_df new_df in
  length M = length A + length new_df ∧
  key_set M = key_set A ∪ key_set new_df ∧
  M.*2 = A.*2 ++ new_df.*2 ∧
  Utils.merge_processed_data None new_df = new_df ∧
  Utils.merge_processed_data (Some []) new_df = new_df.
Proof.
  simpl. split_and!; try done.
  - destruct existing_df as [[|r p]|]; simpl; try done.
    rewrite length_zip_with, length_seq, !length_fmap, length_app. simpl. lia.
  - destruct existing_df as [[|r p]|]; simpl; try set_solver.
    change (key_set (reset_index ((r :: p) ++ new_df)) =
            key_set (r :: p) ∪ key_set new_df).
    by rewrite key_set_reset_index, key_set_app.
  - destruct existing_df as [[|r p]|]; simpl; try done.
    change ((reset_index ((r :: p) ++ new_df)).*2 = (r :: p).*2 ++ new_df.*2).
    by rewrite snd_reset_index, fmap_app.
Qed.

End utils_facts.


(** *** The classification worker *)
Section classifier_facts.
Import Classifier.
Local Open Scope string_scope.

Lemma retry_zero classify idx row max_attempts attempts :
  retry classify idx row max_attempts 0 attempts = (idx, JNull).
Proof. done. Qed.


End classifier_facts.

(** *** The result materialiser *)
Section materializer_facts.
Import Classifier.
Local Open Scope string_scope.
Local Open Scope list_scope.
Implicit Types df d : DataFrame Row.

Lemma bind_Ok {A B} (a : A) (f : A → result B) : (x ← Ok a; f x) = f a.
Proof. done. Qed.

Lemma dict_lookup_is_Some `{EqDecision K} {V} (k : K) (m : list (K * V)) :
  is_Some (dict_lookup k m) ↔ k ∈ m.*1.
Proof.
  induction m as [|[k' v] m IH]; simpl.
  - rewrite elem_of_nil. split; [by intros [? ?]|done].
  - rewrite elem_of_cons. case_decide; [naive_solver|].
    rewrite IH. naive_solver.
Qed.

Lemma dict_lookup_elem_of `{EqDecision K} {V} (k : K) (v : V) (m : list (K * V)) :
  NoDup m.*1 → (k, v) ∈ m → dict_lookup k m = Some v.
Proof.
  induction m as [|[k' v'] m IH]; simpl; intros Hnd Hin.
  - by apply elem_of_nil in Hin.
  - apply NoDup_cons in Hnd as [Hk' Hnd].
    apply elem_of_cons in Hin as [[= <- <-]|Hin].
    + by rewrite decide_True.
    + rewrite decide_False; [by apply IH|].
      intros ->. apply Hk'. apply list_elem_of_fmap. by exists (k, v).
Qed.

Lemma fst_at_set d idx col v : (at_set d idx col v).*1 = d.*1.
Proof.
  unfold at_set. rewrite <-list_fmap_compose. apply list_fmap_ext.
  intros i [j r] _. simpl. by case_decide.
Qed.

Lemma dict_lookup_at_set d idx col v j :
  dict_lookup j (at_set d idx col v) =
  (if decide (j = idx) then <[col:=v]> else id) <$> dict_lookup j d.
Proof.
  induction d as [|[i r] d IH]; simpl; [done|].
  destruct (decide (i = idx)) as [->|Hi]; simpl.
  - destruct (decide (idx = j)) as [->|]; [by rewrite decide_True|done].
  - destruct (decide (i = j)) as [->|]; [|done].
    by rewrite decide_False.
Qed.

Lemma fst_set_column d col v : (set_column d col v).*1 = d.*1.
Proof.
  unfold set_column. rewrite <-list_fmap_compose. by apply list_fmap_ext.
Qed.

Lemma dict_lookup_set_column d col v j :
  dict_lookup j (set_column d col v) = <[col:=v]> <$> dict_lookup j d.
Proof.
  induction d as [|[i r] d IH]; simpl; [done|]. by case_decide.
Qed.

Lemma same_except_refl idx d : same_except idx d d.
Proof. done. Qed.

Lemma same_except_trans idx d1 d2 d3 :
  same_except idx d1 d2 → same_except idx d2 d3 → same_except idx d1 d3.
Proof.
  intros [H1 H1'] [H2 H2']. split; [congruence|].
  intros j Hj. by rewrite H2', H1'.
Qed.

Lemma same_except_at_set idx d d' col v :
  same_except idx d d' → same_except idx d (at_set d' idx col v).
Proof.
  intros [H1 H2]. split; [by rewrite fst_at_set|].
  intros j Hj. rewrite dict_lookup_at_set, decide_False by done.
  rewrite H2 by done. by destruct (dict_lookup j d).
Qed.

Lemma forallb_true_Forall {A} (f : A → bool) (l : list A) :
  forallb f l = true ↔ Forall (λ x, f x = true) l.
Proof.
  rewrite forallb_forall, Forall_forall.
  by setoid_rewrite list_elem_of_In.
Qed.

Lemma mapM_cons {A B} (f : A → result B) x l :
  mapM f (x :: l) = y ← f x; k ← mapM f l; Ok (y :: k).
Proof. done. Qed.

Lemma problem_ok_obj p : problem_ok p = true → ∃ m, p = JObj m.
Proof. destruct p; try done. eauto. Qed.

Lemma py_get_field p key :
  is_obj p = true → py_get p key (JStr "") = Ok (field p key).
Proof. by destruct p. Qed.

Lemma problem_ok_field p key :
  problem_ok p = true →
  key ∈ ["part"; "failure_mode"; "fix"; "confidence"] →
  ∃ s, field p key = JStr s.
Proof.
  unfold problem_ok. intros [_ Hf%forallb_true_Forall]%andb_prop Hkey.
  rewrite Forall_forall in Hf. specialize (Hf _ Hkey).
  destruct (field p key); try done. eauto.
Qed.

Lemma concat_field_ok ps key :
  forallb problem_ok ps = true →
  key ∈ ["part"; "failure_mode"; "fix"; "confidence"] →
  concat_field (JArr ps) key = Ok (concat_view ps key).
Proof.
  intros Hps%forallb_true_Forall Hkey. unfold concat_field, py_iter.
  rewrite bind_Ok.
  assert (mapM (λ p, py_get p key (JStr "")) ps =
          Ok ((λ p, field p key) <$> ps)) as ->.
  { induction Hps as [|p ps Hp _ IH]; [done|].
    rewrite mapM_cons, IH, py_get_field; [done|].
    by destruct (problem_ok_obj p) as [m ->]. }
  rewrite bind_Ok. unfold str_join, concat_view.
  assert (mapM as_str ((λ p, field p key) <$> ps) =
          Ok ((λ p, text_of (field p key)) <$> ps)) as ->.
  { induction Hps as [|p ps Hp _ IH]; [done|].
    rewrite !fmap_cons, mapM_cons, IH.
    by destruct (problem_ok_field p key) as [s' ->]. }
  done.
Qed.

Lemma primary_field_ok p ps key :
  problem_ok p = true →
  primary_field (JArr (p :: ps)) key = Ok (field p key).
Proof. intros [m ->]%problem_ok_obj. done. Qed.

Lemma at_sets_app d idx cells1 cells2 :
  at_sets d idx (cells1 ++ cells2) = at_sets (at_sets d idx cells1) idx cells2.
Proof. apply foldl_app. Qed.

Lemma same_except_at_sets idx d d' cells :
  same_except idx d d' → same_except idx d (at_sets d' idx cells).
Proof.
  revert d'. induction cells as [|cv cells IH]; intros d' Hd; [done|].
  apply IH. by apply same_except_at_set.
Qed.

Lemma fill_slot_obj idx d n m :
  fill_slot idx d (n, JObj m) = Ok (at_sets d idx (slot_columns (n, JObj m))).
Proof. done. Qed.

Lemma fill_slots_ok idx slots n d :
  forallb problem_ok slots = true →
  for_each (fill_slot idx) (zip (seq n (length slots)) slots) d =
  Ok (at_sets d idx
        (mjoin (slot_columns <$> zip (seq n (length slots)) slots))).
Proof.
  intros Hs%forallb_true_Forall. revert n d.
  induction Hs as [|p ps Hp _ IH]; intros n d; [done|].
  destruct (problem_ok_obj p) as [m ->]; [done|].
  cbn [length seq zip zip_with for_each]. rewrite fmap_cons.
  cbn [mjoin list_join]. rewrite at_sets_app.
  rewrite fill_slot_obj, bind_Ok, IH. done.
Qed.

Lemma append_problems_ok so idx items n recs :
  forallb problem_ok items = true →
  for_each (append_problem so idx) (zip (seq n (length items)) items) recs =
  Ok (recs ++ (problem_row so idx <$> zip (seq n (length items)) items)).
Proof.
  intros Hs%forallb_true_Forall. revert n recs.
  induction Hs as [|p ps Hp _ IH]; intros n recs; simpl.
  { by rewrite app_nil_r. }
  destruct (problem_ok_obj p) as [m ->]; [done|].
  simpl. rewrite IH. by rewrite <-app_assoc.
Qed.

(** One iteration of the loop over the results, for a record that has
    a result. *)
Lemma add_result_ok df d recs idx result so :
  result ≠ JNull →
  classification_result result = true →
  loc df idx "SERVICE_ORDER" = Ok so →
  add_result df (d, recs) (idx, result) =
  Ok (at_sets d idx (record_columns result),
      recs ++ expected_rows so idx (problems_of result)).
Proof.
  intros _ Hres Hso.
  destruct result as [| | | | |m]; try done.
  unfold classification_result in Hres. unfold record_columns, problems_of.
  apply andb_prop in Hres as [Hps Han].
  unfold add_result. cbn [py_get].
  destruct (default (JArr []) (dict_lookup "problems" m)) as [| | | |ps|];
    try done.
  destruct (default (JObj []) (dict_lookup "analysis" m)) as [| | | | |a];
    try done.
  rewrite Hso. repeat (progress (cbn [py_get]; rewrite ?bind_Ok)).
  rewrite !at_sets_app.
  set (d0 := at_sets d idx [_; _]).
  change (at_set (at_set d idx _ _) idx _ _) with d0.
  set (cells := match ps with [] => [] | _ => _ end).
  match goal with |- context [(if truthy (JArr ps) then ?t else _)] =>
    assert ((if truthy (JArr ps) then t else Ok d0) =
            Ok (at_sets d0 idx cells)) as ->
  end.
  { unfold cells. destruct ps as [|p ps']; [done|].
    cbn [truthy negb]. rewrite bool_decide_eq_false_2 by done. cbn [negb].
    apply andb_prop in Hps as Hp. destruct Hp as [Hp _].
    rewrite !concat_field_ok by (done || set_solver).
    rewrite !primary_field_ok, !bind_Ok by done. done. }
  rewrite bind_Ok. unfold py_slice_to, py_iter, enumerate. rewrite bind_Ok.
  rewrite fill_slots_ok
    by (apply forallb_true_Forall, Forall_take; by apply forallb_true_Forall).
  rewrite !bind_Ok, append_problems_ok, bind_Ok by done.
  do 2 f_equal.
  destruct ps as [|p ps']; [|done].
  simpl. by rewrite app_nil_r.
Qed.

Lemma for_each_app {A S} (body : S → A → result S) l1 l2 st :
  for_each body (l1 ++ l2) st = st' ← for_each body l1 st; for_each body l2 st'.
Proof.
  revert st. induction l1 as [|x l1 IH]; intros st; simpl; [done|].
  destruct (body st x); simpl; [apply IH|done].
Qed.

Lemma expected_rows_elem so idx ps r :
  r ∈ expected_rows so idx ps → Row_Index r = idx ∧ SERVICE_ORDER r = so.
Proof.
  unfold expected_rows. destruct ps as [|p ps].
  - by intros ->%list_elem_of_singleton.
  - by intros (np & -> & _)%list_elem_of_fmap.
Qed.

Lemma entry_rows_index df entry r :
  r ∈ entry_rows df entry → Row_Index r = entry.1.
Proof.
  destruct entry as [j res]. unfold entry_rows. cbn [fst snd].
  destruct res, (loc df j "SERVICE_ORDER") as [so|]; intros Hr;
    try (by apply elem_of_nil in Hr);
    by apply expected_rows_elem in Hr as [? ?].
Qed.

Lemma entry_rows_service_order df entry r so :
  loc df entry.1 "SERVICE_ORDER" = Ok so →
  r ∈ entry_rows df entry → SERVICE_ORDER r = so.
Proof.
  destruct entry as [j res]. unfold entry_rows. cbn [fst snd]. intros ->.
  destruct res; intros Hr;
    try (by apply elem_of_nil in Hr);
    by apply expected_rows_elem in Hr as [? ?].
Qed.

(** The whole loop over the results. *)
Lemma add_results_ok df results d recs :
  forallb (entry_ok df) results = true →
  ∃ d',
    for_each (add_result df) results (d, recs) =
    Ok (d', recs ++ mjoin (entry_rows df <$> results)) ∧
    d'.*1 = d.*1 ∧
    ∀ j, j ∉ results.*1 → dict_lookup j d' = dict_lookup j d.
Proof.
  intros Hok%forallb_true_Forall. revert d recs.
  induction Hok as [|[idx res] results Hres _ IH]; intros d recs.
  { exists d. simpl. by rewrite app_nil_r. }
  assert (∃ d1, add_result df (d, recs) (idx, res) =
                Ok (d1, recs ++ entry_rows df (idx, res)) ∧
                same_except idx d d1) as (d1 & Hd1 & Hfst & Hne).
  { unfold entry_ok in Hres. cbn [fst snd] in Hres.
    destruct res as [| | | | |m];
      [exists d; simpl; rewrite app_nil_r; by eauto using same_except_refl|..];
      apply andb_prop in Hres as [Hc Hl]; try done.
    destruct (loc df idx "SERVICE_ORDER") as [so|] eqn:Hso; [|done].
    rewrite (add_result_ok df d recs idx (JObj m) so) by done.
    eexists. split.
    - unfold entry_rows. cbn [fst snd]. by rewrite Hso.
    - apply same_except_at_sets, same_except_refl. }
  cbn [for_each]. rewrite Hd1, bind_Ok.
  destruct (IH d1 (recs ++ entry_rows df (idx, res))) as (d' & -> & Hfst' & Hne').
  exists d'. split_and!.
  - rewrite fmap_cons. simpl. by rewrite app_assoc.
  - congruence.
  - intros j Hj. rewrite fmap_cons, not_elem_of_cons in Hj.
    destruct Hj as [Hj1 Hj2]. rewrite Hne' by done. by apply Hne.
Qed.

Lemma filter_all {A} (P : A → Prop) `{∀ x, Decision (P x)} (l : list A) :
  (∀ x, x ∈ l → P x) → filter P l = l.
Proof.
  induction l as [|x l IH]; intros Hl; [done|].
  rewrite filter_cons_True by (apply Hl; left).
  f_equal. apply IH. intros y Hy. apply Hl. by right.
Qed.

(** The records of the problems table that carry a given row index are
    those of that record's entry. *)
Lemma filter_rows_index df results idx res :
  NoDup results.*1 → (idx, res) ∈ results →
  filter (λ r, Row_Index r = idx) (mjoin (entry_rows df <$> results)) =
  entry_rows df (idx, res).
Proof.
  induction results as [|[j res'] results IH]; intros Hnd Hin.
  { by apply elem_of_nil in Hin. }
  rewrite fmap_cons in Hnd. apply NoDup_cons in Hnd as [Hj Hnd].
  rewrite fmap_cons. simpl. rewrite filter_app.
  apply elem_of_cons in Hin as [[= <- <-]|Hin].
  - rewrite filter_all by (intros r Hr; by apply entry_rows_index in Hr).
    rewrite filter_none; [by rewrite app_nil_r|].
    intros r (rows & Hr & Hrows)%list_elem_of_join.
    apply list_elem_of_fmap in Hrows as ([j' r'] & -> & He).
    apply entry_rows_index in Hr. simpl in Hr. intros Heq.
    apply Hj. rewrite <-Heq, Hr. apply list_elem_of_fmap. by exists (j', r').
  - rewrite filter_none; [by rewrite IH|].
    intros r Hr%entry_rows_index. simpl in Hr. intros Heq.
    apply Hj. rewrite <-Hr, Heq. apply list_elem_of_fmap. by exists (idx, res).
Qed.

Lemma fst_initial_columns df cols :
  (foldl (λ d cv, set_column d cv.1 cv.2) df cols).*1 = df.*1.
Proof.
  revert df. induction cols as [|cv cols IH]; intros df; simpl; [done|].
  by rewrite IH, fst_set_column.
Qed.

Lemma length_expected_rows so idx ps :
  length (expected_rows so idx ps) = length ps `max` 1.
Proof.
  unfold expected_rows, enumerate. destruct ps as [|p ps]; [done|].
  rewrite length_fmap, length_zip_with, length_seq. simpl. lia.
Qed.

Lemma Problem_Number_expected_rows so idx ps :
  Problem_Number <$> expected_rows so idx ps = seq 1 (length ps `max` 1).
Proof.
  unfold expected_rows, enumerate. destruct ps as [|p ps]; [done|].
  rewrite <-list_fmap_compose.
  replace (length (p :: ps) `max` 1) with (length (p :: ps)) by (simpl; lia).
  change (Problem_Number ∘ problem_row so idx) with (@fst nat json).
  apply fst_zip. by rewrite length_seq.
Qed.



Lemma dict_lookup_app `{EqDecision K} {V} (k : K) (m1 m2 : list (K * V)) :
  dict_lookup k (m1 ++ m2) =
  match dict_lookup k m1 with
  | Some v => Some v
  | None => dict_lookup k m2
  end.
Proof.
  induction m1 as [|[k' v'] m1 IH]; simpl; [done|]. by case_decide.
Qed.

Lemma foldl_insert_lookup (row : Row) (cols : list (string * json)) k :
  foldl (λ r cv, <[cv.1:=cv.2]> r) row cols !! k =
  match dict_lookup k (reverse cols) with
  | Some v => Some v
  | None => row !! k
  end.
Proof.
  revert row. induction cols as [|[c v] cols IH]; intros row; simpl; [done|].
  rewrite IH, reverse_cons, dict_lookup_app.
  destruct (dict_lookup k (reverse cols)); [done|]. simpl.
  case_decide as Hc; [subst; by rewrite lookup_insert_eq|].
  by rewrite lookup_insert_ne.
Qed.

Lemma dict_lookup_initial_columns df cols j :
  dict_lookup j (foldl (λ d cv, set_column d cv.1 cv.2) df cols) =
  (λ row, foldl (λ r cv, <[cv.1:=cv.2]> r) row cols) <$> dict_lookup j df.
Proof.
  revert df. induction cols as [|cv cols IH]; intros df; simpl.
  - by destruct (dict_lookup j df).
  - rewrite IH, dict_lookup_set_column. by destruct (dict_lookup j df).
Qed.

(** The loop over the results around one of its entries: the entries
    before and after it leave the row of that entry as it is. *)
Lemma add_results_split df l1 entry l2 d recs :
  forallb (entry_ok df) (l1 ++ entry :: l2) = true →
  NoDup (l1 ++ entry :: l2).*1 →
  ∃ d1 recs1 d2 recs2 d' recs',
    add_result df (d1, recs1) entry = Ok (d2, recs2) ∧
    for_each (add_result df) (l1 ++ entry :: l2) (d, recs) = Ok (d', recs') ∧
    d1.*1 = d.*1 ∧
    dict_lookup entry.1 d1 = dict_lookup entry.1 d ∧
    dict_lookup entry.1 d' = dict_lookup entry.1 d2.
Proof.
  intros Hok Hnd. rewrite forallb_app in Hok.
  apply andb_prop in Hok as [Hok1 Hok2].
  rewrite fmap_app, fmap_cons in Hnd.
  apply NoDup_app in Hnd as (_ & Hnd1 & Hnd2).
  apply NoDup_cons in Hnd2 as [Hnd2 _].
  destruct (add_results_ok df l1 d recs Hok1) as (d1 & H1 & Hf1 & Hl1).
  destruct (add_results_ok df (entry :: l2) d1
              (recs ++ mjoin (entry_rows df <$> l1)) Hok2) as (d' & H2 & _ & _).
  pose proof H2 as H2'. cbn [for_each] in H2'.
  destruct (add_result df (d1, recs ++ mjoin (entry_rows df <$> l1)) entry)
    as [[d2 recs2]|] eqn:He; [|done].
  rewrite bind_Ok in H2'. simpl in Hok2. apply andb_prop in Hok2 as [_ Hok2].
  destruct (add_results_ok df l2 d2 recs2 Hok2) as (d'' & H3 & _ & Hl3).
  rewrite H3 in H2'. injection H2' as <- _.
  exists d1, (recs ++ mjoin (entry_rows df <$> l1)), d2, recs2, d''.
  eexists. split; [done|]. split.
  { rewrite for_each_app, H1, bind_Ok. exact H2. }
  split; [done|]. split.
  - apply Hl1. intros Hin. by apply (Hnd1 _ Hin), elem_of_cons; left.
  - by apply Hl3.
Qed.

Lemma retry_non_positive classify idx row max_attempts :
  (max_attempts ≤ 0)%Z →
  process_single_call classify idx row max_attempts = (idx, JNull).
Proof.
  intros Hle. unfold process_single_call.
  by replace (Z.to_nat (max_attempts - 0)) with 0 by lia.
Qed.

(** From one attempt on, the call returns what an attempt returned or
    the degraded default. *)
Lemma retry_positive classify idx row max_attempts n attempts :
  n = Z.to_nat (max_attempts - attempts) → (attempts < max_attempts)%Z →
  let r := retry classify idx row max_attempts n attempts in
  r.1 = idx ∧
  ((∃ k, attempt classify row k = Ok r.2) ∨ r.2 = degraded_result).
Proof.
  revert attempts. induction n as [|n IH]; intros attempts Hn Hlt; [lia|].
  simpl. destruct (attempt classify row attempts) as [v|e] eqn:Ha; simpl.
  { eauto. }
  case_bool_decide as Hm; simpl; [by eauto|].
  apply IH; lia.
Qed.


End materializer_facts.

(** *** The JSON codec *)
Section json_facts.
Import Json.
Local Open Scope string_scope.
Local Open Scope list_scope.

Lemma string_app_cons x (a b : string) : String x a +:+ b = String x (a +:+ b).
Proof. done. Qed.

Lemma string_app_nil_l (b : string) : "" +:+ b = b.
Proof. done. Qed.

Lemma string_app_assoc (a b c : string) : (a +:+ b) +:+ c = a +:+ (b +:+ c).
Proof.
  induction a as [|x a IH]; [done|]. rewrite !string_app_cons. by f_equal.
Qed.

Lemma string_app_nil_r (a : string) : a +:+ "" = a.
Proof.
  induction a as [|x a IH]; [done|]. rewrite string_app_cons. by f_equal.
Qed.

Lemma string_length_app (a b : string) :
  String.length (a +:+ b) = String.length a + String.length b.
Proof.
  induction a as [|x a IH]; [done|]. rewrite string_app_cons. simpl.
  by f_equal.
Qed.

(** Decoding an escaped character gives the character back. *)
Lemma scanstring_escape_char c tail :
  scanstring (escape_char c +:+ tail) =
  '(str, r) ← scanstring tail; Some (String c str, r).
Proof.
  destruct c as [[] [] [] [] [] [] [] []]; reflexivity.
Qed.

Lemma scanstring_escape s rest :
  scanstring (escape s +:+ String dquote rest) = Some (s, rest).
Proof.
  induction s as [|c s IH]; [done|].
  cbn [escape]. rewrite string_app_assoc, scanstring_escape_char, IH. done.
Qed.

Lemma delimiter_no_float rest : delimiter rest = true → float_follows rest = false.
Proof.
  destruct rest as [|c rest]; [done|]. simpl.
  destruct c as [[] [] [] [] [] [] [] []]; try done.
Qed.

Lemma delimiter_no_digit rest : delimiter rest = true → span_digits rest = ("", rest).
Proof.
  destruct rest as [|c rest]; [done|]. simpl.
  destruct c as [[] [] [] [] [] [] [] []]; try done.
Qed.

Lemma span_digits_uint d rest :
  delimiter rest = true →
  span_digits (NilEmpty.string_of_uint d +:+ rest) =
  (NilEmpty.string_of_uint d, rest).
Proof.
  intros Hrest. induction d as [|d IH|d IH|d IH|d IH|d IH|d IH|d IH|d IH|d IH|d IH];
    [by apply delimiter_no_digit|..];
    cbn [NilEmpty.string_of_uint]; rewrite string_app_cons;
    cbn [span_digits]; by rewrite IH.
Qed.

Lemma nzhead_not_D0 d d' : Decimal.nzhead d ≠ Decimal.D0 d'.
Proof. induction d; simpl; congruence. Qed.

(** The decimal digits of a positive number do not start with 0. *)
Lemma to_uint_head p :
  match Pos.to_uint p with
  | Decimal.Nil | Decimal.D0 _ => False
  | _ => True
  end.
Proof.
  pose proof (DecimalPos.Unsigned.to_of (Pos.to_uint p)) as Hn.
  rewrite DecimalPos.Unsigned.of_to in Hn. simpl in Hn.
  pose proof (DecimalPos.Unsigned.to_uint_nonzero p) as Hz.
  destruct (Pos.to_uint p) as [|d| | | | | | | | |] eqn:Hd; try done.
  - unfold Decimal.unorm in Hn. simpl in Hn.
    destruct (Decimal.nzhead d) eqn:Hh; try done.
    symmetry in Hn. by apply nzhead_not_D0 in Hh.
Qed.

Lemma scan_digits_pos p rest :
  delimiter rest = true →
  ∃ c ds,
    NilEmpty.string_of_uint (Pos.to_uint p) = String c ds ∧
    is_digit c = true ∧ c ≠ "0"%char ∧ c ≠ "-"%char ∧
    span_digits (String c ds +:+ rest) = (String c ds, rest) ∧
    NilEmpty.uint_of_string (String c ds) = Some (Pos.to_uint p).
Proof.
  intros Hrest.
  pose proof (to_uint_head p) as Hh.
  pose proof (span_digits_uint (Pos.to_uint p) rest Hrest) as Hs.
  pose proof (NilEmpty.usu (Pos.to_uint p)) as Hu.
  destruct (Pos.to_uint p) as [|d|d|d|d|d|d|d|d|d|d]; try done;
    cbn [NilEmpty.string_of_uint] in *; eauto 10.
Qed.


Lemma of_uint_to_uint p : Z.of_uint (Pos.to_uint p) = Z.pos p.
Proof. unfold Z.of_uint. by rewrite DecimalPos.Unsigned.of_to. Qed.

Lemma string_of_uint_pos p :
  NilZero.string_of_uint (Pos.to_uint p) =
  NilEmpty.string_of_uint (Pos.to_uint p).
Proof.
  unfold NilZero.string_of_uint.
  pose proof (to_uint_head p). by destruct (Pos.to_uint p).
Qed.

Lemma scan_number_repr z rest :
  delimiter rest = true →
  scan_number (repr_int z +:+ rest) = Some (JInt z, rest).
Proof.
  intros Hrest. unfold repr_int.
  destruct z as [|p|p]; cbn [Z.to_int NilZero.string_of_int].
  - change (NilZero.string_of_uint Decimal.zero +:+ rest) with (String "0" rest).
    unfold scan_number.
    change (Ascii.eqb "0" "-") with false. cbv iota beta.
    rewrite Ascii.eqb_refl. cbn [mbind option_bind].
    by rewrite delimiter_no_float.
  - destruct (scan_digits_pos p rest Hrest)
      as (c & ds & Hc & Hd & H0 & Hm & Hs & Hu).
    rewrite string_of_uint_pos, Hc, string_app_cons. unfold scan_number.
    apply Ascii.eqb_neq in H0, Hm. rewrite Hm, H0, Hd.
    rewrite <-string_app_cons, Hs, Hu. cbn [mbind option_bind].
    by rewrite delimiter_no_float, of_uint_to_uint.
  - destruct (scan_digits_pos p rest Hrest)
      as (c & ds & Hc & Hd & H0 & Hm & Hs & Hu).
    rewrite string_of_uint_pos, Hc, !string_app_cons. unfold scan_number.
    rewrite Ascii.eqb_refl.
    apply Ascii.eqb_neq in H0, Hm. rewrite H0, Hd.
    rewrite <-string_app_cons, Hs, Hu. cbn [mbind option_bind].
    by rewrite delimiter_no_float, of_uint_to_uint.
Qed.

Lemma json_nested_ind (P : json → Prop) :
  P JNull → (∀ b, P (JBool b)) → (∀ z, P (JInt z)) → (∀ s, P (JStr s)) →
  (∀ l, Forall P l → P (JArr l)) →
  (∀ m, Forall (λ kv, P kv.2) m → P (JObj m)) →
  ∀ v, P v.
Proof.
  intros Hnull Hbool Hint Hstr Harr Hobj.
  fix IH 1. intros [|b|z|s|l|m].
  - exact Hnull.
  - apply Hbool.
  - apply Hint.
  - apply Hstr.
  - apply Harr. induction l as [|x l IHl]; constructor; [apply IH|exact IHl].
  - apply Hobj. induction m as [|[k x] m IHm]; constructor;
      [apply IH|exact IHm].
Qed.

Lemma dumps_JArr l : dumps (JArr l) = "[" +:+ dumps_items l +:+ "]".
Proof.
  reflexivity.
Qed.

Lemma dumps_JObj m : dumps (JObj m) = "{" +:+ dumps_members m +:+ "}".
Proof.
  reflexivity.
Qed.

Lemma digit_start c :
  is_digit c = true → is_ws c = false ∧ Ascii.eqb c "]" = false.
Proof. destruct c as [[] [] [] [] [] [] [] []]; done. Qed.

(** The text of a value starts with a character that is neither white
    space nor a closing bracket. *)
Lemma dumps_start v :
  ∃ c t, dumps v = String c t ∧ is_ws c = false ∧ Ascii.eqb c "]" = false.
Proof.
  destruct v as [|[]|z|s|l|m].
  - by exists "n"%char, "ull".
  - by exists "t"%char, "rue".
  - by exists "f"%char, "alse".
  - cbn [dumps]. unfold repr_int. destruct z as [|p|p];
      cbn [Z.to_int NilZero.string_of_int].
    + by exists "0"%char, "".
    + destruct (scan_digits_pos p "" eq_refl) as (c & ds & Hc & Hd & _).
      rewrite string_of_uint_pos, Hc. exists c, ds.
      by destruct (digit_start c Hd).
    + by eexists "-"%char, _.
  - cbn [dumps]. unfold encode_str. by eexists _, _.
  - rewrite dumps_JArr. by eexists "["%char, _.
  - rewrite dumps_JObj. by eexists "{"%char, _.
Qed.

Lemma skip_ws_dumps v rest : skip_ws (dumps v +:+ rest) = dumps v +:+ rest.
Proof.
  destruct (dumps_start v) as (c & t & -> & Hc & _).
  rewrite string_app_cons. cbn [skip_ws]. by rewrite Hc.
Qed.

Lemma skip_ws_delimiter rest : delimiter rest = true → skip_ws rest = rest.
Proof.
  destruct rest as [|c rest]; [done|]. cbn [delimiter skip_ws].
  destruct c as [[] [] [] [] [] [] [] []]; done.
Qed.

Lemma dict_set_fresh `{EqDecision K} {V} (k : K) (v : V) (m : list (K * V)) :
  k ∉ m.*1 → dict_set k v m = m ++ [(k, v)].
Proof.
  induction m as [|[k' v'] m IH]; simpl; [done|].
  rewrite not_elem_of_cons. intros [Hne Hk].
  rewrite decide_False by done. by rewrite IH.
Qed.

Lemma foldl_dict_set_NoDup `{EqDecision K} {V} (acc l : list (K * V)) :
  NoDup (acc ++ l).*1 →
  foldl (λ m kv, dict_set kv.1 kv.2 m) acc l = acc ++ l.
Proof.
  revert acc. induction l as [|[k v] l IH]; intros acc Hnd; simpl.
  { by rewrite app_nil_r. }
  rewrite dict_set_fresh.
  - rewrite IH; rewrite <-app_assoc; done.
  - rewrite fmap_app, fmap_cons in Hnd.
    apply NoDup_app in Hnd as (_ & Hd & _).
    intros Hin. apply (Hd _ Hin). left.
Qed.

Lemma dict_of_pairs_NoDup {V} (m : list (string * V)) :
  NoDup m.*1 → dict_of_pairs m = m.
Proof. intros Hnd. by apply (foldl_dict_set_NoDup []). Qed.

Lemma repr_int_start z :
  ∃ c t, repr_int z = String c t ∧ (is_digit c = true ∨ c = "-"%char).
Proof.
  unfold repr_int. destruct z as [|p|p]; cbn [Z.to_int NilZero.string_of_int].
  - exists "0"%char, "". by split; [|left].
  - destruct (scan_digits_pos p "" eq_refl) as (c & ds & Hc & Hd & _).
    rewrite string_of_uint_pos, Hc. eauto.
  - eexists "-"%char, _. split; [done|by right].
Qed.

Lemma number_start c :
  is_digit c = true ∨ c = "-"%char →
  Ascii.eqb c dquote = false ∧ Ascii.eqb c "{" = false ∧
  Ascii.eqb c "[" = false ∧ Ascii.eqb c "n" = false ∧
  Ascii.eqb c "t" = false ∧ Ascii.eqb c "f" = false.
Proof.
  intros [Hd| ->]; [|done].
  destruct c as [[] [] [] [] [] [] [] []]; done.
Qed.

Lemma scan_once_number fuel z rest :
  delimiter rest = true →
  scan_once (S fuel) (repr_int z +:+ rest) = Some (JInt z, rest).
Proof.
  intros Hrest. rewrite <-(scan_number_repr z rest Hrest).
  destruct (repr_int_start z) as (c & t & -> & Hc).
  apply number_start in Hc as (H1 & H2 & H3 & H4 & H5 & H6).
  rewrite string_app_cons. cbn [scan_once].
  by rewrite H1, H2, H3, H4, H5, H6.
Qed.

Lemma scan_once_string fuel s rest :
  scan_once (S fuel) (encode_str s +:+ rest) = Some (JStr s, rest).
Proof.
  unfold encode_str. rewrite string_app_cons, string_app_assoc, string_app_cons.
  rewrite string_app_nil_l. cbn [scan_once]. rewrite Ascii.eqb_refl.
  by rewrite scanstring_escape.
Qed.

Lemma dumps_items_start x l rest :
  skip_ws (dumps_items (x :: l) +:+ rest) = dumps_items (x :: l) +:+ rest.
Proof.
  cbn [dumps_items]. rewrite string_app_assoc. apply skip_ws_dumps.
Qed.

Lemma array_items_last fuel x rest :
  scans x → (calls x ≤ fuel)%nat →
  array_items (S fuel) (dumps x +:+ "]" +:+ rest) = Some ([x], rest).
Proof.
  intros Hx Hfuel. cbn [array_items]. by rewrite Hx.
Qed.

Lemma array_items_more fuel x t :
  scans x → (calls x ≤ fuel)%nat →
  array_items (S fuel) (dumps x +:+ ", " +:+ t) =
  '(vs, r) ← array_items fuel (skip_ws t); Some (x :: vs, r).
Proof.
  intros Hx Hfuel. cbn [array_items]. by rewrite Hx.
Qed.

Lemma array_items_dumps l :
  l ≠ [] → Forall scans l →
  ∀ fuel rest,
    (list_sum ((λ x, S (calls x)) <$> l) ≤ fuel)%nat →
    array_items fuel (dumps_items l +:+ "]" +:+ rest) = Some (l, rest).
Proof.
  intros Hne Hl. induction Hl as [|x l Hx Hl IH]; [done|].
  clear Hne. intros fuel rest Hfuel.
  rewrite fmap_cons in Hfuel. simpl in Hfuel.
  destruct fuel as [|fuel]; [lia|].
  cbn [dumps_items]. rewrite string_app_assoc.
  destruct l as [|y l].
  - rewrite string_app_nil_l. apply array_items_last; [done|lia].
  - rewrite string_app_assoc, array_items_more by (done || lia).
    rewrite dumps_items_start, IH by (done || simpl in *; lia).
    done.
Qed.

Lemma skip_ws_colon t : skip_ws (": " +:+ t) = String ":" (String " " t).
Proof. reflexivity. Qed.

Lemma skip_ws_space t : skip_ws (String " " t) = skip_ws t.
Proof. reflexivity. Qed.

Lemma object_items_key fuel k t :
  object_items (S fuel) (encode_str k +:+ ": " +:+ t) =
  '(v, r) ← scan_once fuel (skip_ws t);
  match skip_ws r with
  | EmptyString => None
  | String c r' =>
      if Ascii.eqb c "}" then Some ([(k, v)], r')
      else if Ascii.eqb c "," then
        '(kvs, r'') ← object_items fuel (skip_ws r');
        Some ((k, v) :: kvs, r'')
      else None
  end.
Proof.
  unfold encode_str.
  rewrite string_app_cons, string_app_assoc, string_app_cons, string_app_nil_l.
  cbn [object_items]. rewrite Ascii.eqb_refl, scanstring_escape.
  cbn [mbind option_bind]. rewrite skip_ws_colon. cbv iota beta.
  rewrite Ascii.eqb_refl. by rewrite skip_ws_space.
Qed.

Lemma object_items_dumps m :
  m ≠ [] → Forall (λ kv, scans kv.2) m →
  ∀ fuel rest,
    (list_sum ((λ '(_, x), S (calls x)) <$> m) ≤ fuel)%nat →
    object_items fuel (dumps_members m +:+ "}" +:+ rest) = Some (m, rest).
Proof.
  intros Hne Hm. induction Hm as [|[k x] m Hx Hm IH]; [done|].
  clear Hne. intros fuel rest Hfuel.
  rewrite fmap_cons in Hfuel. simpl in Hfuel, Hx.
  destruct fuel as [|fuel]; [lia|].
  cbn [dumps_members]. rewrite !string_app_assoc, object_items_key.
  rewrite skip_ws_dumps.
  destruct m as [|[k' y] m].
  - rewrite string_app_nil_l, Hx by (done || lia). done.
  - rewrite Hx by (done || lia). cbn [mbind option_bind].
    rewrite string_app_assoc.
    change (skip_ws (", " +:+ ?t)) with (String "," (String " " t)).
    cbv iota beta. change (Ascii.eqb "," "}") with false.
    rewrite Ascii.eqb_refl. cbv iota. rewrite skip_ws_space.
    assert (skip_ws (dumps_members ((k', y) :: m) +:+ "}" +:+ rest) =
            dumps_members ((k', y) :: m) +:+ "}" +:+ rest) as ->.
    { cbn [dumps_members]. unfold encode_str. by rewrite !string_app_cons. }
    rewrite IH by (done || simpl in *; lia). done.
Qed.

Lemma dumps_JArr_app l rest :
  dumps (JArr l) +:+ rest = String "[" (dumps_items l +:+ "]" +:+ rest).
Proof. rewrite dumps_JArr, !string_app_assoc. reflexivity. Qed.

Lemma dumps_JObj_app m rest :
  dumps (JObj m) +:+ rest = String "{" (dumps_members m +:+ "}" +:+ rest).
Proof. rewrite dumps_JObj, !string_app_assoc. reflexivity. Qed.

Lemma dumps_items_head x l rest :
  ∃ c t, dumps_items (x :: l) +:+ rest = String c t ∧
         is_ws c = false ∧ Ascii.eqb c "]" = false.
Proof.
  destruct (dumps_start x) as (c & t & Hc & Hw & Hb).
  cbn [dumps_items]. rewrite Hc, !string_app_cons. eauto.
Qed.

Lemma dumps_members_head k x m rest :
  ∃ t, dumps_members ((k, x) :: m) +:+ rest = String dquote t.
Proof.
  cbn [dumps_members]. unfold encode_str. rewrite !string_app_cons. eauto.
Qed.

(** Decoding the text of a value gives the value back. *)
Lemma scan_once_dumps v : valid v = true → scans v.
Proof.
  induction v as [|b|z|s|l IH|m IH] using json_nested_ind;
    intros Hv fuel rest Hfuel Hrest;
    (destruct fuel as [|fuel]; [simpl in Hfuel; lia|]).
  - reflexivity.
  - by destruct b.
  - by apply scan_once_number.
  - apply scan_once_string.
  - rewrite dumps_JArr_app.
    cbn [scan_once]. change (Ascii.eqb "[" dquote) with false.
    change (Ascii.eqb "[" "{") with false. rewrite Ascii.eqb_refl. cbv iota.
    destruct l as [|x l]; [done|].
    destruct (dumps_items_head x l ("]" +:+ rest)) as (c & t & Hc & Hw & Hb).
    rewrite Hc. cbn [skip_ws]. rewrite Hw, Hb, <-Hc.
    rewrite array_items_dumps; [done|done| |].
    + cbn [valid] in Hv. apply forallb_true_Forall in Hv.
      rewrite Forall_forall in IH, Hv. apply Forall_forall.
      intros x' Hx'. by apply IH, Hv.
    + cbn [calls] in Hfuel. lia.
  - rewrite dumps_JObj_app.
    cbn [scan_once]. change (Ascii.eqb "{" dquote) with false.
    rewrite Ascii.eqb_refl. cbv iota.
    cbn [valid] in Hv. apply andb_prop in Hv as [Hnd Hv].
    apply bool_decide_eq_true in Hnd.
    destruct m as [|[k x] m]; [done|].
    destruct (dumps_members_head k x m ("}" +:+ rest)) as (t & Hc).
    rewrite Hc. cbn [skip_ws]. change (is_ws dquote) with false. cbv iota.
    change (Ascii.eqb dquote "}") with false. cbv iota. rewrite <-Hc.
    rewrite object_items_dumps; [|done| |].
    + cbn [mbind option_bind]. by rewrite dict_of_pairs_NoDup.
    + apply forallb_true_Forall in Hv.
      rewrite Forall_forall in IH, Hv. apply Forall_forall.
      intros [k' x'] Hx'. apply IH; [done|]. by apply (Hv (k', x')).
    + cbn [calls] in Hfuel. lia.
Qed.

Lemma length_comma t : String.length (", " +:+ t) = S (S (String.length t)).
Proof. reflexivity. Qed.

Lemma calls_dumps_items l :
  Forall (λ x, (calls x < 2 * String.length (dumps x))%nat) l →
  (list_sum ((λ x, S (calls x)) <$> l) ≤ 2 * String.length (dumps_items l))%nat.
Proof.
  induction 1 as [|x l Hx Hl IH]; [simpl; lia|].
  rewrite fmap_cons. cbn [list_sum dumps_items].
  rewrite string_length_app.
  destruct l as [|y l]; [simpl in *; lia|].
  rewrite length_comma. change (list_sum (?a :: ?r)) with (a + list_sum r). lia.
Qed.

Lemma calls_dumps_members m :
  Forall (λ kv, (calls kv.2 < 2 * String.length (dumps kv.2))%nat) m →
  (list_sum ((λ '(_, x), S (calls x)) <$> m)
   ≤ 2 * String.length (dumps_members m))%nat.
Proof.
  induction 1 as [|[k x] m Hx Hm IH]; [simpl; lia|].
  rewrite fmap_cons. cbn [list_sum dumps_members]. simpl in Hx.
  rewrite !string_length_app.
  destruct m as [|[k' y] m]; [simpl in *; lia|].
  rewrite length_comma. change (list_sum (?a :: ?r)) with (a + list_sum r). lia.
Qed.

(** The allowance [json.loads] starts with suffices for the text of any
    value. *)
Lemma calls_dumps v : (calls v < 2 * String.length (dumps v))%nat.
Proof.
  induction v as [|b|z|s|l IH|m IH] using json_nested_ind.
  - simpl. lia.
  - destruct b; simpl; lia.
  - cbn [calls dumps]. destruct (repr_int_start z) as (c & t & -> & _).
    simpl. lia.
  - cbn [calls dumps]. unfold encode_str. simpl. lia.
  - rewrite dumps_JArr, !string_length_app. cbn [calls].
    pose proof (calls_dumps_items l IH). simpl String.length. lia.
  - rewrite dumps_JObj, !string_length_app. cbn [calls].
    pose proof (calls_dumps_members m IH). simpl String.length. lia.
Qed.

(** [json.loads(json.dumps(v)) == v] *)
Lemma loads_dumps v : valid v = true → loads (dumps v) = Ok v.
Proof.
  intros Hv. unfold loads.
  rewrite <-(string_app_nil_r (dumps v)) at 2.
  rewrite skip_ws_dumps.
  rewrite (scan_once_dumps v Hv); [done| |done].
  pose proof (calls_dumps v). lia.
Qed.
End json_facts.

(** *** The JSON view *)
Section json_view_facts.
Import Classifier.
Local Open Scope string_scope.
Local Open Scope list_scope.
Implicit Types df d : DataFrame Row.

Lemma dict_lookup_at_sets d idx cells j :
  dict_lookup j (at_sets d idx cells) =
  (if decide (j = idx)
   then λ row, foldl (λ r cv, <[cv.1:=cv.2]> r) row cells
   else id) <$> dict_lookup j d.
Proof.
  revert d. induction cells as [|cv cells IH]; intros d.
  - simpl. case_decide; by destruct (dict_lookup j d).
  - unfold at_sets in *. cbn [foldl]. rewrite IH, dict_lookup_at_set.
    case_decide; by destruct (dict_lookup j d).
Qed.

Lemma valid_dict_lookup m k v :
  Json.valid (JObj m) = true → dict_lookup k m = Some v →
  Json.valid v = true.
Proof.
  cbn [Json.valid]. intros [_ Hm%forallb_true_Forall]%andb_prop.
  induction Hm as [|[k' v'] m Hv _ IH]; simpl; [done|].
  case_decide; [by intros [= <-]|done].
Qed.

Lemma valid_problems result :
  Json.valid result = true → Json.valid (JArr (problems_of result)) = true.
Proof.
  intros Hv. destruct result as [| | | | |m]; try done.
  unfold problems_of.
  destruct (dict_lookup "problems" m) as [v|] eqn:Hp; [|done].
  apply (valid_dict_lookup m _ _ Hv) in Hp. simpl. by destruct v.
Qed.

(** The cells of a record's row after the materialiser has run: the
    last value written to each column. *)
Lemma final_cell df results idx result df_result problems_df col v :
  NoDup results.*1 →
  forallb (entry_ok df) results = true →
  (idx, result) ∈ results →
  result ≠ JNull →
  _add_results_to_dataframe df results = Ok (df_result, problems_df) →
  dict_lookup col (reverse (record_columns result)) = Some v →
  loc df_result idx col = Ok v.
Proof.
  intros Hnd Hok Hin Hnn Hres Hcol. unfold _add_results_to_dataframe in Hres.
  set (d0 := foldl _ df initial_columns) in *.
  assert (entry_ok df (idx, result) = true) as He.
  { apply forallb_true_Forall in Hok. rewrite Forall_forall in Hok.
    by apply Hok. }
  apply list_elem_of_split in Hin as (l1 & l2 & ->).
  destruct (add_results_split df l1 (idx, result) l2 d0 [] Hok Hnd)
    as (d1 & recs1 & d2 & recs2 & d' & recs' & Hstep & Hrun & Hfst & H1 & H2).
  cbn [fst] in H1, H2.
  rewrite Hres in Hrun. injection Hrun as <- <-.
  unfold entry_ok in He. cbn [fst snd] in He.
  assert (classification_result result = true ∧
          ∃ so, loc df idx "SERVICE_ORDER" = Ok so) as [Hc [so Hso]].
  { destruct result; try done; apply andb_prop in He as [? Hl];
      (split; [done|]); destruct (loc df idx "SERVICE_ORDER"); by eauto. }
  rewrite (add_result_ok df d1 recs1 idx result so) in Hstep by done.
  set (cells := record_columns result) in *. clearbody cells.
  assert (d2 = at_sets d1 idx cells) as -> by congruence.
  rewrite dict_lookup_at_sets, decide_True in H2 by done.
  assert (is_Some (dict_lookup idx d0)) as [row0 Hrow0].
  { apply dict_lookup_is_Some. unfold d0. rewrite fst_initial_columns.
    apply dict_lookup_is_Some. unfold loc in Hso.
    by destruct (dict_lookup idx df). }
  unfold loc, getitem. rewrite H2, H1, Hrow0. cbn [fmap option_fmap option_map].
  by rewrite foldl_insert_lookup, Hcol.
Qed.

Lemma materializer_runs df results :
  forallb (entry_ok df) results = true →
  ∃ df_result,
    _add_results_to_dataframe df results =
    Ok (df_result, mjoin (entry_rows df <$> results)).
Proof.
  intros Hok. unfold _add_results_to_dataframe.
  destruct (add_results_ok df results
              (foldl (λ d cv, set_column d cv.1 cv.2) df initial_columns) [])
    as (d' & -> & _ & _); [done|]. eauto.
Qed.

Lemma record_columns_json result :
  dict_lookup "All_Problems_JSON" (reverse (record_columns result)) =
  Some (JStr (Json.dumps (JArr (problems_of result)))).
Proof.
  unfold record_columns. cbv zeta. rewrite !reverse_app, <-!app_assoc.
  reflexivity.
Qed.

Lemma record_columns_concat result key col :
  problems_of result ≠ [] →
  (col, key) ∈ [("Part_Assembly_Concat", "part");
                ("Failure_Mode_Concat", "failure_mode");
                ("Fix_Concat", "fix"); ("Confidence_Concat", "confidence")] →
  dict_lookup col (reverse (record_columns result)) =
  Some (concat_view (problems_of result) key).
Proof.
  intros Hne Hcol. unfold record_columns. cbv zeta.
  destruct (problems_of result) as [|p1 [|p2 [|p3 rest]]]; [done|..];
    repeat (apply elem_of_cons in Hcol as [[= -> ->]|Hcol]; [reflexivity|]);
    by apply elem_of_nil in Hcol.
Qed.

Lemma record_columns_slot result i p :
  i < MAX_PROBLEMS → problems_of result !! i = Some p →
  Forall (λ cv, dict_lookup cv.1 (reverse (record_columns result)) = Some cv.2)
         (slot_columns (i, p)).
Proof.
  intros Hi Hp. unfold record_columns. cbv zeta.
  destruct (problems_of result) as [|p1 [|p2 [|p3 rest]]];
    destruct i as [|[|[|i]]]; try done; try (unfold MAX_PROBLEMS in Hi; lia);
    injection Hp as <-; repeat constructor.
Qed.


End json_view_facts.

(** *** The worker pool *)
Section pool_facts.
Import Classifier.
Local Open Scope string_scope.
Local Open Scope list_scope.
Variable classify_service_call : nat → Z → json → json → json → json → result json.
Variable as_completed : list (nat * json) → list (nat * json).
(** The submitted calls all complete, in some order. *)
Hypothesis as_completed_all : ∀ futures, as_completed futures ≡ₚ futures.

Lemma submit_index df idx entry :
  submit classify_service_call df idx = Ok entry → entry.1 = idx.
Proof.
  unfold submit.
  destruct (loc df idx "REASON_FOR_SERVICE"); [|done].
  destruct (loc df idx "SPECIAL_NOTES"); [|done].
  destruct (loc df idx "SERVICE_PERFORMED"); [|done].
  destruct (loc df idx "ISSUE_REPORTED"); [|done].
  rewrite !bind_Ok. intros [= <-].
  by apply (retry_positive _ idx _ 3 _ 0%Z).
Qed.

Lemma mapM_submit_index df idxs futures :
  mapM (submit classify_service_call df) idxs = Ok futures →
  futures.*1 = idxs.
Proof.
  revert futures. induction idxs as [|idx idxs IH]; intros futures.
  { by intros [= <-]. }
  rewrite mapM_cons.
  destruct (submit classify_service_call df idx) as [entry|] eqn:He; [|done].
  rewrite bind_Ok.
  destruct (mapM (submit classify_service_call df) idxs) as [rest|]; [|done].
  rewrite bind_Ok. intros [= <-]. rewrite fmap_cons.
  f_equal; [by eapply submit_index|by apply IH].
Qed.

(** The pool hands the materialiser one result per row of the frame. *)
Lemma process_dataframe_results df futures :
  NoDup df.*1 →
  mapM (submit classify_service_call df) df.*1 = Ok futures →
  process_dataframe classify_service_call as_completed df =
    _add_results_to_dataframe df (as_completed futures) ∧
  (as_completed futures).*1 ≡ₚ df.*1.
Proof.
  intros Hnd Hf. unfold process_dataframe. rewrite Hf, bind_Ok.
  assert ((as_completed futures).*1 ≡ₚ df.*1) as Hperm.
  { rewrite (as_completed_all futures). by rewrite (mapM_submit_index df _ _ Hf). }
  split; [|done].
  rewrite (foldl_dict_set_NoDup []); [done|].
  simpl. by rewrite Hperm.
Qed.
End pool_facts.

(** *** The translator *)
Section translator_facts.
Import Translator.
Local Open Scope string_scope.
Local Open Scope list_scope.
Variable service : list string → string → result string.
Implicit Types m : gmap cell string.
Implicit Types log : list string.

Lemma gather_replies texts log :
  gather service texts log = (Ok (replies service texts log), log ++ texts).
Proof.
  revert log. induction texts as [|t texts IH]; intros log; simpl.
  { by rewrite app_nil_r. }
  unfold translate_text. rewrite IH. simpl. by rewrite <-app_assoc.
Qed.

Lemma batches_go_concat {A} fuel n (l : list A) :
  0 < n → (length l ≤ fuel)%nat → mjoin (batches_go fuel n l) = l.
Proof.
  intros Hn. revert l. induction fuel as [|fuel IH]; intros l Hl.
  { destruct l; [done|simpl in Hl; lia]. }
  destruct l as [|x l]; [done|]. cbn [batches_go mjoin list_join].
  rewrite IH; [apply take_drop|].
  rewrite length_drop. simpl in *. lia.
Qed.

Lemma batches_concat {A} n (l : list A) : 0 < n → mjoin (batches n l) = l.
Proof. intros Hn. by apply batches_go_concat. Qed.

Lemma translate_each_app l1 l2 m log :
  translate_each service (l1 ++ l2) m log =
  translate_each service l2 (translate_each service l1 m log).1
                            (translate_each service l1 m log).2.
Proof.
  revert m log. induction l1 as [|x l1 IH]; intros m log; simpl; [done|].
  destruct (is_blank x); apply IH.
Qed.

Lemma blank_inserts_commute (x : cell) v m batch :
  is_blank x = false →
  foldl (λ m text, if is_blank text then <[text := ""]> m else m)
        (<[x := v]> m) batch =
  <[x := v]> (foldl (λ m text, if is_blank text then <[text := ""]> m else m)
                    m batch).
Proof.
  intros Hx. revert m. induction batch as [|y batch IH]; intros m; simpl; [done|].
  destruct (is_blank y) eqn:Hy; [|apply IH].
  rewrite <-IH. f_equal. apply insert_insert_ne. congruence.
Qed.

(** A batch, with its requests gathered, does what taking its values
    one at a time does. *)
Lemma translate_batch_each m log batch :
  translate_batch service (m, log) batch = translate_each service batch m log.
Proof.
  unfold translate_batch.
  set (blanks := foldl _ m batch).
  set (valid := filter _ batch).
  assert ((foldl (λ m tr,
                    match tr.2 with
                    | Raise _ => <[tr.1 := str tr.1]> m
                    | Ok translated => <[tr.1 := translated]> m
                    end)
                 blanks (zip valid (replies service (str <$> valid) log)),
           log ++ (str <$> valid)) = translate_each service batch m log) as <-.
  { subst blanks valid. revert m log.
    induction batch as [|x batch IH]; intros m log.
    { simpl. by rewrite app_nil_r. }
    cbn [foldl translate_each]. destruct (is_blank x) eqn:Hx.
    - rewrite filter_cons_False by congruence. apply IH.
    - rewrite filter_cons_True by done. rewrite <-IH.
      rewrite fmap_cons. cbn [replies zip zip_with foldl fst snd].
      rewrite blank_inserts_commute by done.
      rewrite <-app_assoc. f_equal. f_equal.
      unfold translated_or_original. by destruct (service log (str x)). }
  destruct (str <$> valid) as [|t ts] eqn:Hts.
  { apply fmap_nil_inv in Hts. rewrite Hts. simpl. by rewrite app_nil_r. }
  rewrite <-Hts, gather_replies. done.
Qed.

Lemma translate_batches_each bs m log :
  foldl (translate_batch service) (m, log) bs =
  translate_each service (mjoin bs) m log.
Proof.
  revert m log. induction bs as [|b bs IH]; intros m log; [done|].
  cbn [foldl mjoin list_join].
  rewrite translate_batch_each, translate_each_app.
  destruct (translate_each service b m log) as [m' log']. apply IH.
Qed.

Lemma translate_unique_values_each batch_size unique_values log :
  (0 < batch_size)%Z →
  translate_unique_values service batch_size unique_values log =
  (Ok (translate_each service unique_values ∅ log).1,
   (translate_each service unique_values ∅ log).2).
Proof.
  intros Hb. unfold translate_unique_values.
  destruct (Z.eqb_spec batch_size 0); [lia|].
  destruct (Z.ltb_spec batch_size 0); [lia|].
  rewrite translate_batches_each, batches_concat by lia.
  by destruct (translate_each service unique_values ∅ log).
Qed.

Lemma translate_each_log l m log :
  (translate_each service l m log).2 =
  log ++ (str <$> filter (λ t, is_blank t = false) l).
Proof.
  revert m log. induction l as [|x l IH]; intros m log; simpl.
  { by rewrite app_nil_r. }
  destruct (is_blank x) eqn:Hx.
  - rewrite filter_cons_False by congruence. apply IH.
  - rewrite filter_cons_True by done. rewrite IH, fmap_cons.
    by rewrite <-app_assoc.
Qed.

Lemma translate_each_not_in l m log k :
  k ∉ l → (translate_each service l m log).1 !! k = m !! k.
Proof.
  revert m log. induction l as [|x l IH]; intros m log Hk; simpl; [done|].
  apply not_elem_of_cons in Hk as [Hkx Hk].
  destruct (is_blank x); rewrite IH by done; by rewrite lookup_insert_ne.
Qed.

Lemma translate_each_blank l m log k :
  is_blank k = true → k ∈ l →
  (translate_each service l m log).1 !! k = Some "".
Proof.
  intros Hb. revert m log. induction l as [|x l IH]; intros m log Hk.
  { by apply elem_of_nil in Hk. }
  simpl. destruct (decide (k ∈ l)) as [Hin|Hnin].
  { destruct (is_blank x); by apply IH. }
  apply elem_of_cons in Hk as [->|]; [|done].
  rewrite Hb, translate_each_not_in by done. apply lookup_insert_eq.
Qed.

(** A value that is not blank is requested once, and mapped to the
    reply to that request or to itself. *)
Lemma translate_each_request l m log k :
  NoDup l → is_blank k = false → k ∈ l →
  ∃ before after,
    (translate_each service l m log).2 = log ++ before ++ str k :: after ∧
    (translate_each service l m log).1 !! k =
    Some (translated_or_original (service (log ++ before) (str k)) (str k)).
Proof.
  intros Hnd Hb. revert m log.
  induction Hnd as [|x l Hx Hnd IH]; intros m log Hk.
  { by apply elem_of_nil in Hk. }
  simpl. apply elem_of_cons in Hk as [->|Hk].
  - rewrite Hb, translate_each_not_in, lookup_insert_eq by done.
    exists [], (str <$> filter (λ t, is_blank t = false) l).
    rewrite translate_each_log, app_nil_r. split; [|done].
    by rewrite <-app_assoc.
  - destruct (is_blank x) eqn:Hbx.
    + by apply IH.
    + destruct (IH (<[x:=translated_or_original (service log (str x)) (str x)]> m)
                   (log ++ [str x]) Hk) as (before & after & Hlog & Hm).
      exists (str x :: before), after. rewrite Hlog, Hm.
      split; [by rewrite <-app_assoc|].
      by rewrite <-app_assoc.
Qed.

Lemma unique_non_null_elem column c :
  c ∈ unique_non_null column ↔ c ∈ column ∧ c ≠ None.
Proof.
  unfold unique_non_null. by rewrite elem_of_unique, list_elem_of_filter, (comm and).
Qed.

Lemma translate_unique_values_log batch_size unique_values log :
  ∃ calls,
    (translate_unique_values service batch_size unique_values log).2 =
      log ++ calls ∧
    ∃ requested,
      calls = str <$> requested ∧
      sublist requested (filter (λ t, is_blank t = false) unique_values).
Proof.
  destruct (Z.lt_trichotomy batch_size 0) as [Hb|[Hb|Hb]].
  - exists []. unfold translate_unique_values.
    destruct (Z.eqb_spec batch_size 0); [lia|].
    destruct (Z.ltb_spec batch_size 0); [|lia].
    split; [by rewrite app_nil_r|]. exists []. split; [done|].
    apply sublist_nil_l.
  - exists []. unfold translate_unique_values. subst. simpl.
    split; [by rewrite app_nil_r|]. exists []. split; [done|].
    apply sublist_nil_l.
  - rewrite translate_unique_values_each by done. cbn [snd].
    rewrite translate_each_log. eauto.
Qed.

(** C3.  The requests made while the map of a column is built are
    pairwise distinct texts among the distinct values of the column that
    are neither missing nor blank, so there are at most as many of them
    as there are such values. *)
Theorem translation_calls_bounded
    (batch_size : Z) (column : list cell) (log : list string) :
  ∃ calls,
    (translate_unique_values service batch_size
       (unique_non_null column) log).2 = log ++ calls ∧
    NoDup calls ∧
    list_to_set calls ⊆ distinct_non_blank column ∧
    (length calls ≤ size (distinct_non_blank column))%nat.
Proof.
  destruct (translate_unique_values_log batch_size (unique_non_null column) log)
    as (calls & Hlog & requested & -> & Hsub).
  exists (str <$> requested). split; [done|].
  assert (∀ c, c ∈ requested →
               ∃ s, c = Some s ∧ strips_to_empty s = false ∧ Some s ∈ column)
    as Hreq.
  { intros c Hc. eapply elem_of_sublist in Hc; [|done].
    apply list_elem_of_filter in Hc as [Hb [Hc Hn]%unique_non_null_elem].
    destruct c as [s|]; [|done]. eauto. }
  assert (NoDup (str <$> requested)) as Hnd.
  { apply NoDup_fmap_2_strong.
    - intros c1 c2 (s1 & -> & _)%Hreq (s2 & -> & _)%Hreq. simpl. congruence.
    - eapply sublist_NoDup; [|done]. apply NoDup_filter, NoDup_unique. }
  assert (list_to_set (str <$> requested) ⊆ distinct_non_blank column) as Hsubset.
  { intros s (c & -> & (s' & -> & Hb & Hin)%Hreq)%elem_of_list_to_set%list_elem_of_fmap.
    unfold distinct_non_blank. apply elem_of_list_to_set, list_elem_of_omap.
    exists (Some s'). split; [done|]. simpl. by rewrite Hb. }
  split; [done|]. split; [done|].
  rewrite <-(size_list_to_set (C := gset string)) by done.
  by apply subseteq_size.
Qed.

(** C7.  Every unique value that is not blank is requested; the map
    holds the reply to its request, or the value's own text when that
    request raised.  The stage returns its map whatever the replies. *)
Theorem failed_translation_keeps_original
    (batch_size : Z) (unique_values : list cell) (log : list string) :
  (0 < batch_size)%Z →
  NoDup unique_values →
  ∃ translation_map calls,
    translate_unique_values service batch_size unique_values log =
      (Ok translation_map, log ++ calls) ∧
    ∀ text, text ∈ unique_values → is_blank text = false →
      ∃ before after,
        calls = before ++ str text :: after ∧
        translation_map !! text =
          Some (match service (log ++ before) (str text) with
                | Ok translated => translated
                | Raise _ => str text
                end).
Proof.
  intros Hb Hnd. rewrite translate_unique_values_each by done.
  eexists _, (str <$> filter (λ t, is_blank t = false) unique_values).
  split; [by rewrite translate_each_log|].
  intros text Hin Hblank.
  destruct (translate_each_request unique_values ∅ log text Hnd Hblank Hin)
    as (before & after & Hlog & Hm).
  exists before, after. split; [|exact Hm].
  rewrite translate_each_log in Hlog. by apply app_inv_head in Hlog.
Qed.

Lemma string_app_inj_r (a b s : string) : a +:+ s = b +:+ s → a = b.
Proof.
  revert b. induction a as [|x a IH]; intros [|y b] Heq; [done|..].
  - apply (f_equal String.length) in Heq.
    rewrite string_app_cons, string_app_nil_l in Heq. simpl in Heq.
    rewrite string_length_app in Heq. lia.
  - apply (f_equal String.length) in Heq.
    rewrite string_app_cons, string_app_nil_l in Heq. simpl in Heq.
    rewrite string_length_app in Heq. lia.
  - rewrite !string_app_cons in Heq. injection Heq as -> Heq.
    f_equal. by apply IH.
Qed.

(** The map of a column: blank values go to the empty string and the
    missing value has no entry. *)
Lemma translate_each_column column log :
  let m := (translate_each service (unique_non_null column) ∅ log).1 in
  m !! None = None ∧
  ∀ s, Some s ∈ column → strips_to_empty s = true → m !! Some s = Some "".
Proof.
  split.
  - rewrite translate_each_not_in; [done|].
    by intros [_ ?]%unique_non_null_elem.
  - intros s Hs Hb. apply translate_each_blank; [done|].
    by apply unique_non_null_elem.
Qed.

(** The loop over the columns. *)
Lemma translate_columns_ok batch_size df cs dfr log :
  (0 < batch_size)%Z →
  ∃ dfr' calls,
    foldl (translate_column service batch_size df) (Ok dfr, log) cs =
      (Ok dfr', log ++ calls) ∧
    (∀ t, t ∈ calls →
          ∃ col column, col ∈ cs ∧ df !! col = Some column ∧
                        Some t ∈ column ∧ strips_to_empty t = false) ∧
    (∀ col column,
       col ∈ cs → df !! col = Some column → unique_non_null column ≠ [] →
       ∃ m, dfr' !! (col +:+ "_EN") = Some (map_column m column) ∧
            m !! None = None ∧
            ∀ s, Some s ∈ column → strips_to_empty s = true →
                 m !! Some s = Some "").
Proof.
  intros Hb. induction cs as [|c cs IH] using rev_ind.
  { exists dfr, []. simpl. rewrite app_nil_r. split; [done|].
    split; [by intros t ?%elem_of_nil|by intros col column ?%elem_of_nil]. }
  destruct IH as (dfr1 & calls1 & Hrun & Hcalls & Hcols).
  rewrite foldl_app, Hrun. cbn [foldl]. unfold translate_column.
  destruct (unique_non_null (default [] (df !! c))) as [|u us] eqn:Hu.
  { exists dfr1, calls1. split; [done|]. split.
    - intros t (col & column & Hin & ?)%Hcalls.
      exists col, column. split; [|done]. apply elem_of_app. by left.
    - intros col column [Hin|Hin%list_elem_of_singleton]%elem_of_app Hdf Hne.
      + by apply Hcols.
      + subst col. rewrite Hdf in Hu. done. }
  rewrite <-Hu, translate_unique_values_each by done.
  rewrite translate_each_log.
  eexists _, (calls1 ++ _). split; [by rewrite <-app_assoc|]. split.
  - intros t [Hin|Hin]%elem_of_app.
    + apply Hcalls in Hin as (col & column & Hin & ?).
      exists col, column. split; [|done]. apply elem_of_app. by left.
    + apply list_elem_of_fmap in Hin as (x & -> & Hx).
      apply list_elem_of_filter in Hx as [Hbl [Hx Hn]%unique_non_null_elem].
      destruct x as [s|]; [|done].
      destruct (df !! c) as [column|] eqn:Hdf; [|by apply elem_of_nil in Hx].
      exists c, column. split; [|done]. apply elem_of_app. right. left.
  - intros col column Hin Hdf Hne.
    destruct (decide (col = c)) as [->|Hcol].
    + rewrite lookup_insert_eq, Hdf. cbn [default]. eexists. split; [done|].
      apply translate_each_column.
    + rewrite lookup_insert_ne by (by intros ?%string_app_inj_r).
      apply Hcols; [|done|done].
      apply elem_of_app in Hin as [Hin|Hin%list_elem_of_singleton]; done.
Qed.

Lemma lookup_map_column m column i c :
  column !! i = Some c →
  map_column m column !! i =
  Some (match m !! c with Some t => Some t | None => c end).
Proof.
  intros Hc. unfold map_column.
  rewrite lookup_zip_with, list_lookup_fmap, Hc. simpl.
  by destruct (m !! c).
Qed.

End translator_facts.

Lemma failed_translation_keeps_original_witness :
  ∃ translation_map calls,
    Translator.translate_unique_values Translator.sample_service 2
      (Translator.unique_non_null Translator.sample_column) [] =
      (Ok translation_map, [] ++ calls) ∧
    translation_map !! Some "mala"%string = Some "mala"%string.
Proof.
  destruct (failed_translation_keeps_original Translator.sample_service 2
              (Translator.unique_non_null Translator.sample_column) [])
    as (m & calls & H1 & H2).
  - reflexivity.
  - exact (bool_decide_unpack
             (NoDup (Translator.unique_non_null Translator.sample_column)) I).
  - exists m, calls. split; [exact H1|].
    destruct (H2 (Some "mala"%string)) as (before & after & _ & Hm).
    + right. right. left.
    + reflexivity.
    + exact Hm.
Defined.



(** ** Further properties *)

Section utils_more.
Context {Row Key : Type} `{Countable Key} (id_column : Row → Key).
Implicit Types (df new_df : DataFrame Row).
Local Abbreviation column := (Utils.column id_column).
Local Abbreviation key_set := (Utils.key_set id_column).
Local Abbreviation find_new_service_orders := (Utils.find_new_service_orders id_column).

Lemma key_set_column df1 df2 :
  column df1 = column df2 → key_set df1 = key_set df2.
Proof. unfold Utils.key_set. by intros ->. Qed.

Lemma key_set_find_new new_df processed_df :
  key_set (find_new_service_orders new_df processed_df) =
  key_set new_df ∖ key_set (default [] processed_df).
Proof.
  destruct processed_df as [[|r p]|]; simpl.
  - change (key_set new_df = key_set new_df ∖ key_set []).
    unfold Utils.key_set at 3. simpl. set_solver.
  - rewrite find_new_service_orders_filter.
    apply set_eq. intros k. rewrite elem_of_difference, !elem_of_key_set.
    split.
    + intros (x & Hx & <-). apply list_elem_of_filter in Hx as [Hk Hx].
      apply elem_of_difference in Hk as [Hk1 Hk2].
      split; [by exists x|]. by rewrite <-elem_of_key_set.
    + intros [(x & Hx & <-) Hn]. exists x. split; [|done].
      apply list_elem_of_filter. split; [|done].
      apply elem_of_difference. split; [apply elem_of_key_set; eauto|].
      by rewrite elem_of_key_set.
  - change (key_set new_df = key_set new_df ∖ key_set []).
    unfold Utils.key_set at 3. simpl. set_solver.
Qed.

Lemma column_find_new_sublist new_df processed_df :
  sublist (column (find_new_service_orders new_df processed_df)) (column new_df).
Proof.
  destruct processed_df as [[|r p]|]; simpl; try done.
  rewrite find_new_service_orders_filter. unfold Utils.column.
  do 2 apply fmap_sublist. apply sublist_filter.
Qed.

Lemma merge_selection_keys new_df processed_df (enriched : DataFrame Row) :
  column enriched = column (find_new_service_orders new_df processed_df) →
  let merged := Utils.merge_processed_data processed_df enriched in
  key_set merged = key_set (default [] processed_df) ∪ key_set new_df ∧
  (NoDup (column (default [] processed_df)) → NoDup (column new_df) →
   NoDup (column merged)) ∧
  (Utils.none_or_empty processed_df = false →
   merged.*1 = seq 0 (length merged)).
Proof.
  intros Hcol merged.
  assert (key_set enriched = key_set new_df ∖ key_set (default [] processed_df))
    as Hkeys.
  { rewrite <-key_set_find_new. by apply key_set_column. }
  assert (NoDup (column new_df) → NoDup (column enriched)) as Hnd.
  { rewrite Hcol. intros Hn. eapply sublist_NoDup; [exact Hn|].
    apply column_find_new_sublist. }
  subst merged. destruct processed_df as [[|r p]|]; simpl in *.
  - change (Utils.merge_processed_data (Some []) enriched) with enriched.
    split; [|by auto]. rewrite Hkeys. unfold Utils.key_set at 2 3. simpl. set_solver.
  - change (Utils.merge_processed_data (Some (r :: p)) enriched)
      with (reset_index ((r :: p) ++ enriched)).
    split; [|split].
    + rewrite key_set_reset_index, key_set_app, Hkeys.
      apply set_eq. intros k. rewrite !elem_of_union, elem_of_difference.
      destruct (decide (k ∈ key_set (r :: p))); naive_solver.
    + intros Hp Hn. rewrite column_reset_index.
      unfold Utils.column. rewrite fmap_app, fmap_app.
      apply NoDup_app. split; [done|]. split; [|by apply Hnd].
      intros k Hk1 Hk2.
      assert (k ∈ key_set enriched) as Hk.
      { apply elem_of_key_set.
        apply list_elem_of_fmap in Hk2 as (x & -> & Hx).
        apply list_elem_of_fmap in Hx as (y & -> & Hy). eauto. }
      rewrite Hkeys in Hk. apply elem_of_difference in Hk as [_ Hk].
      apply Hk, elem_of_key_set.
      apply list_elem_of_fmap in Hk1 as (x & -> & Hx).
      apply list_elem_of_fmap in Hx as (y & -> & Hy). eauto.
    + intros _. unfold reset_index. rewrite fst_zip; [|by rewrite length_seq, length_fmap].
      by rewrite length_zip_with, length_seq, length_fmap, Nat.min_id.
  - change (Utils.merge_processed_data None enriched) with enriched.
    split; [|by auto]. rewrite Hkeys. unfold Utils.key_set at 2 3. simpl. set_solver.
Qed.


End utils_more.

Ltac bind_step H :=
  match type of H with
  | mbind _ ?m = Ok _ =>
      let E := fresh "E" in
      destruct m eqn:E; [rewrite bind_Ok in H|discriminate H]
  end.

Ltac added :=
  apply (bool_decide_unpack _); vm_compute; exact I.

Section materializer_more.
Import Classifier Vocabulary.
Local Open Scope string_scope.
Local Open Scope list_scope.

(** X10.  A reply that is neither [None] nor a dictionary stops the
    materialiser: [result.get] raises, and nothing is returned. *)
Theorem malformed_result_aborts
    (df : DataFrame Row) (results : list (nat * json)) (idx : nat) (v : json) :
  (idx, v) ∈ results → v ≠ JNull → is_obj v = false →
  ∃ e, _add_results_to_dataframe df results = Raise e.
Proof.
  intros Hin Hn Ho. unfold _add_results_to_dataframe.
  generalize (foldl (λ d cv, set_column d cv.1 cv.2) df initial_columns,
              @nil NormalizedRow).
  induction results as [|entry results IH]; intros st.
  { by apply elem_of_nil in Hin. }
  cbn [for_each].
  apply elem_of_cons in Hin as [<-|Hin].
  - destruct st as [d recs]. exists AttributeError. by destruct v.
  - destruct (add_result df st entry) as [st'|e]; [|by exists e].
    rewrite bind_Ok. by apply IH.
Qed.



Lemma keeps_columns_refl names d : keeps_columns names d d.
Proof. done. Qed.

Lemma keeps_columns_trans names d1 d2 d3 :
  keeps_columns names d1 d2 → keeps_columns names d2 d3 →
  keeps_columns names d1 d3.
Proof.
  intros [H1 H2] [H3 H4]. split; [congruence|].
  intros idx col Hc. by rewrite H4, H2.
Qed.

Lemma keeps_columns_at_set names d d' idx col v :
  col ∈ names → keeps_columns names d d' →
  keeps_columns names d (at_set d' idx col v).
Proof.
  intros Hc [H1 H2]. split; [by rewrite fst_at_set|].
  intros j c Hn. rewrite <-H2 by done. unfold loc.
  rewrite dict_lookup_at_set.
  destruct (dict_lookup j d') as [row|]; [|done]. simpl.
  case_decide; [|done]. unfold getitem. rewrite lookup_insert_ne; [done|].
  intros ->. by apply Hn.
Qed.

Lemma keeps_columns_set_column names d d' col v :
  col ∈ names → keeps_columns names d d' →
  keeps_columns names d (set_column d' col v).
Proof.
  intros Hc [H1 H2]. split; [by rewrite fst_set_column|].
  intros j c Hn. rewrite <-H2 by done. unfold loc.
  rewrite dict_lookup_set_column.
  destruct (dict_lookup j d') as [row|]; [|done]. simpl.
  unfold getitem. rewrite lookup_insert_ne; [done|].
  intros ->. by apply Hn.
Qed.

Lemma fill_slots_keep idx slots n d d' :
  (n + length slots ≤ MAX_PROBLEMS)%nat →
  for_each (fill_slot idx) (zip (seq n (length slots)) slots) d = Ok d' →
  keeps_columns initial_columns.*1 d d'.
Proof.
  revert n d. induction slots as [|p slots IH]; intros n d Hn H.
  { injection H as <-. apply keeps_columns_refl. }
  cbn [length seq zip zip_with for_each] in H.
  destruct (fill_slot idx d (n, p)) as [d1|] eqn:Hp; [|done].
  rewrite bind_Ok in H. apply (keeps_columns_trans _ d d1).
  - unfold fill_slot in Hp. repeat bind_step Hp. injection Hp as <-.
    unfold MAX_PROBLEMS in Hn. simpl in Hn.
    destruct n as [|[|[|n]]]; [| | |lia];
      repeat (apply keeps_columns_at_set; [added|]);
      apply keeps_columns_refl.
  - apply (IH (S n)); [simpl in Hn; lia|done].
Qed.

Lemma add_result_keeps df d recs entry d' recs' :
  add_result df (d, recs) entry = Ok (d', recs') →
  keeps_columns initial_columns.*1 d d'.
Proof.
  destruct entry as [idx result]. intros H.
  destruct result; try discriminate H.
  { injection H as <- <-. apply keeps_columns_refl. }
  unfold add_result in H.
  repeat bind_step H.
  injection H as <- <-.
  apply keeps_columns_at_set; [added|].
  apply (keeps_columns_trans _ d a5).
  - destruct (truthy a).
    + repeat bind_step E5. injection E5 as <-.
      repeat (apply keeps_columns_at_set; [added|]). apply keeps_columns_refl.
    + injection E5 as <-.
      repeat (apply keeps_columns_at_set; [added|]). apply keeps_columns_refl.
  - apply (fill_slots_keep idx a6 0); [|done].
    unfold py_slice_to in E6.
    destruct a; try discriminate E6; injection E6 as <-;
      rewrite length_take; unfold MAX_PROBLEMS; lia.
Qed.

Lemma add_results_keep df results st st' :
  for_each (add_result df) results st = Ok st' →
  keeps_columns initial_columns.*1 st.1 st'.1.
Proof.
  revert st. induction results as [|entry results IH]; intros st H.
  { injection H as <-. apply keeps_columns_refl. }
  cbn [for_each] in H.
  destruct (add_result df st entry) as [[d1 recs1]|] eqn:He; [|done].
  rewrite bind_Ok in H. destruct st as [d recs].
  apply (keeps_columns_trans _ d d1).
  - by eapply add_result_keeps.
  - by apply (IH _ H).
Qed.

Lemma initial_columns_keep df cols :
  keeps_columns cols.*1 df (foldl (λ d cv, set_column d cv.1 cv.2) df cols).
Proof.
  induction cols as [|cv cols IH] using rev_ind; [done|].
  rewrite foldl_app, fmap_app. cbn [foldl fmap list_fmap].
  apply keeps_columns_set_column; [set_solver|].
  destruct IH as [H1 H2]. split; [done|].
  intros idx col Hc. apply H2. set_solver.
Qed.

(** X11.  The materialiser writes the columns it adds and no other: the
    enriched frame has the labels of the input frame, and in every
    other column the cells of the input frame. *)
Theorem materializer_keeps_input_columns
    (df : DataFrame Row) (results : list (nat * json))
    (df_result : DataFrame Row) (problems_df : list NormalizedRow) :
  _add_results_to_dataframe df results = Ok (df_result, problems_df) →
  df_result.*1 = df.*1 ∧
  ∀ idx col, col ∉ initial_columns.*1 →
             loc df_result idx col = loc df idx col.
Proof.
  unfold _add_results_to_dataframe. intros H.
  apply add_results_keep in H. cbn [fst] in H.
  exact (keeps_columns_trans _ _ _ _ (initial_columns_keep df initial_columns) H).
Qed.

(** The row of a record after the materialiser has run: its row of the
    input frame, with the initial columns and then the record's cells
    written over it. *)
Lemma final_row df results idx result df_result problems_df :
  NoDup results.*1 →
  forallb (entry_ok df) results = true →
  (idx, result) ∈ results →
  result ≠ JNull →
  _add_results_to_dataframe df results = Ok (df_result, problems_df) →
  ∃ row,
    dict_lookup idx df = Some row ∧
    dict_lookup idx df_result =
    Some (foldl (λ r cv, <[cv.1:=cv.2]> r)
            (foldl (λ r cv, <[cv.1:=cv.2]> r) row initial_columns)
            (record_columns result)).
Proof.
  intros Hnd Hok Hin Hnn Hres. unfold _add_results_to_dataframe in Hres.
  set (d0 := foldl _ df initial_columns) in *.
  assert (entry_ok df (idx, result) = true) as He.
  { apply forallb_true_Forall in Hok. rewrite Forall_forall in Hok.
    by apply Hok. }
  apply list_elem_of_split in Hin as (l1 & l2 & ->).
  destruct (add_results_split df l1 (idx, result) l2 d0 [] Hok Hnd)
    as (d1 & recs1 & d2 & recs2 & d' & recs' & Hstep & Hrun & Hfst & H1 & H2).
  cbn [fst] in H1, H2.
  rewrite Hres in Hrun. injection Hrun as <- <-.
  unfold entry_ok in He. cbn [fst snd] in He.
  assert (classification_result result = true ∧
          ∃ so, loc df idx "SERVICE_ORDER" = Ok so) as [Hc [so Hso]].
  { destruct result; try done; apply andb_prop in He as [? Hl];
      (split; [done|]); destruct (loc df idx "SERVICE_ORDER"); by eauto. }
  rewrite (add_result_ok df d1 recs1 idx result so) in Hstep by done.
  set (cells := record_columns result) in *. clearbody cells.
  assert (d2 = at_sets d1 idx cells) as -> by congruence.
  rewrite dict_lookup_at_sets, decide_True in H2 by done.
  unfold loc in Hso. destruct (dict_lookup idx df) as [row|] eqn:Hrow; [|done].
  exists row. split; [done|].
  rewrite H2, H1. unfold d0. rewrite dict_lookup_initial_columns, Hrow. done.
Qed.

Lemma loc_final_row (d : DataFrame Row) idx row cells col :
  dict_lookup idx d =
    Some (foldl (λ r cv, <[cv.1:=cv.2]> r)
            (foldl (λ r cv, <[cv.1:=cv.2]> r) row initial_columns) cells) →
  dict_lookup col (reverse cells) = None →
  ∀ v, dict_lookup col (reverse initial_columns) = Some v →
       loc d idx col = Ok v.
Proof.
  intros Hd Hc v Hv. unfold loc, getitem.
  by rewrite Hd, foldl_insert_lookup, Hc, foldl_insert_lookup, Hv.
Qed.



Lemma fmap_const_replicate {A B} (f : A → B) (c : B) (l : list A) :
  (∀ x, x ∈ l → f x = c) → f <$> l = replicate (length l) c.
Proof.
  induction l as [|x l IH]; intros Hl; [done|]. simpl.
  rewrite (Hl x) by left. f_equal. apply IH. intros y Hy. apply Hl. by right.
Qed.

Lemma length_entry_rows df entry :
  entry_ok df entry = true → length (entry_rows df entry) = rows_of entry.2.
Proof.
  destruct entry as [idx result]. unfold entry_ok, entry_rows, rows_of.
  cbn [fst snd]. intros He.
  destruct result; try done;
    apply andb_prop in He as [_ He];
    (destruct (loc df idx "SERVICE_ORDER"); [|done]);
    apply length_expected_rows.
Qed.

Lemma problems_table_shape (df : DataFrame Row) (results : list (nat * json)) :
  forallb (entry_ok df) results = true →
  Row_Index <$> mjoin (entry_rows df <$> results) =
    mjoin ((λ e, replicate (rows_of e.2) e.1) <$> results) ∧
  length (mjoin (entry_rows df <$> results)) =
    list_sum ((λ e, rows_of e.2) <$> results).
Proof.
  intros Hok%forallb_true_Forall.
  induction Hok as [|entry results He _ [IH1 IH2]]; [done|].
  rewrite !fmap_cons. change (mjoin (?x :: ?l)) with (x ++ mjoin l).
  cbn [list_sum foldr].
  rewrite fmap_app, length_app, IH1, IH2, <-(length_entry_rows df entry He).
  split; [|done]. f_equal.
  apply fmap_const_replicate. intros r Hr. by apply entry_rows_index in Hr.
Qed.

End materializer_more.

Section retry_more.
Import Classifier Vocabulary.
Local Open Scope string_scope.
Local Open Scope list_scope.

Lemma process_single_call_all_raise
    (classify : Z → json → json → json → json → result json) idx row :
  (∀ n a b c d, ∃ e, classify n a b c d = Raise e) →
  process_single_call classify idx row 3 = (idx, degraded_result).
Proof.
  intros Hc.
  assert (∀ k, ∃ e, attempt classify row k = Raise e) as Ha.
  { intros k. unfold attempt.
    destruct (getitem row "REASON_FOR_SERVICE"); [|by eauto].
    destruct (getitem row "SPECIAL_NOTES"); [|by eauto].
    destruct (getitem row "SERVICE_PERFORMED"); [|by eauto].
    destruct (getitem row "ISSUE_REPORTED"); [|by eauto].
    rewrite !bind_Ok. apply Hc. }
  unfold process_single_call. cbn [Z.sub Z.opp Z.add Z.to_nat Pos.to_nat].
  change (Z.to_nat (3 - 0)) with 3. cbn [retry].
  destruct (Ha 0%Z) as [e0 ->]. change (0 + 1)%Z with 1%Z.
  rewrite bool_decide_eq_false_2 by done.
  destruct (Ha 1%Z) as [e1 ->]. change (1 + 1)%Z with 2%Z.
  rewrite bool_decide_eq_false_2 by done.
  destruct (Ha 2%Z) as [e2 ->]. change (2 + 1)%Z with 3%Z.
  by rewrite bool_decide_eq_true_2.
Qed.
End retry_more.

Section pool_more.
Import Classifier Vocabulary.
Local Open Scope string_scope.
Local Open Scope list_scope.
Variable classify_service_call : nat → Z → json → json → json → json → result json.
Variable as_completed : list (nat * json) → list (nat * json).
Hypothesis as_completed_all : ∀ futures, as_completed futures ≡ₚ futures.


Lemma submit_all_raise df idx :
  (∀ i n a b c d, ∃ e, classify_service_call i n a b c d = Raise e) →
  (∀ col, col ∈ ["REASON_FOR_SERVICE"; "SPECIAL_NOTES"; "SERVICE_PERFORMED";
                 "ISSUE_REPORTED"] → ∃ v, loc df idx col = Ok v) →
  submit classify_service_call df idx = Ok (idx, degraded_result).
Proof.
  intros Hc Hcols. unfold submit.
  destruct (Hcols "REASON_FOR_SERVICE") as [v1 ->]; [set_solver|].
  destruct (Hcols "SPECIAL_NOTES") as [v2 ->]; [set_solver|].
  destruct (Hcols "SERVICE_PERFORMED") as [v3 ->]; [set_solver|].
  destruct (Hcols "ISSUE_REPORTED") as [v4 ->]; [set_solver|].
  rewrite !bind_Ok. f_equal. apply process_single_call_all_raise. apply Hc.
Qed.

Lemma mapM_submit_all_raise df idxs :
  (∀ i n a b c d, ∃ e, classify_service_call i n a b c d = Raise e) →
  (∀ idx col, idx ∈ idxs →
     col ∈ ["REASON_FOR_SERVICE"; "SPECIAL_NOTES"; "SERVICE_PERFORMED";
            "ISSUE_REPORTED"] → ∃ v, loc df idx col = Ok v) →
  mapM (submit classify_service_call df) idxs =
  Ok ((λ i, (i, degraded_result)) <$> idxs).
Proof.
  intros Hc. induction idxs as [|idx idxs IH]; intros Hcols; [done|].
  rewrite mapM_cons, submit_all_raise, bind_Ok, IH, bind_Ok; [done| |done|].
  - intros i col Hi. apply Hcols. by right.
  - intros col. apply Hcols. by left.
Qed.

End pool_more.

Section translator_more.
Import Translator Storage Vocabulary.
Local Open Scope string_scope.
Local Open Scope list_scope.
Variable service : list string → string → result string.




Lemma unique_non_null_nil column :
  unique_non_null column = [] ↔ ∀ s, Some s ∉ column.
Proof.
  split.
  - intros Hnil s Hs.
    assert (Some s ∈ unique_non_null column) as Hin
      by by apply unique_non_null_elem.
    rewrite Hnil in Hin. by apply elem_of_nil in Hin.
  - intros Hn. destruct (unique_non_null column) as [|c l] eqn:Hu; [done|].
    assert (c ∈ unique_non_null column) as Hc by (rewrite Hu; left).
    apply unique_non_null_elem in Hc as [Hc Hne].
    destruct c as [s|]; [|done]. by apply Hn in Hc.
Qed.

Lemma length_map_column m column : length (map_column m column) = length column.
Proof.
  unfold map_column. rewrite length_zip_with, length_fmap. lia.
Qed.

(** The loop over the columns, with the map each column is given. *)
Lemma translate_columns_maps batch_size df cs dfr log :
  (0 < batch_size)%Z →
  ∃ dfr' calls,
    foldl (translate_column service batch_size df) (Ok dfr, log) cs =
      (Ok dfr', log ++ calls) ∧
    (∀ name,
       (∀ col, col ∈ cs → unique_non_null (default [] (df !! col)) ≠ [] →
               name ≠ col +:+ "_EN") →
       dfr' !! name = dfr !! name) ∧
    (∀ col column,
       col ∈ cs → df !! col = Some column → unique_non_null column ≠ [] →
       ∃ before after,
         calls = before ++ requests_of column ++ after ∧
         dfr' !! (col +:+ "_EN") =
         Some (map_column
                 (translate_each service (unique_non_null column) ∅
                    (log ++ before)).1 column)).
Proof.
  intros Hb. induction cs as [|c cs IH] using rev_ind.
  { exists dfr, []. simpl. rewrite app_nil_r. split; [done|].
    split; [done|by intros col column ?%elem_of_nil]. }
  destruct IH as (dfr1 & calls1 & Hrun & Hframe & Hcols).
  rewrite foldl_app, Hrun. cbn [foldl]. unfold translate_column.
  destruct (unique_non_null (default [] (df !! c))) as [|u us] eqn:Hu.
  { exists dfr1, calls1. split; [done|]. split.
    - intros name Hname. apply Hframe. intros col Hin. apply Hname.
      apply elem_of_app. by left.
    - intros col column [Hin|Hin%list_elem_of_singleton]%elem_of_app Hdf Hne.
      + by apply Hcols.
      + subst col. rewrite Hdf in Hu. done. }
  rewrite <-Hu, translate_unique_values_each by done.
  rewrite translate_each_log.
  eexists _, (calls1 ++ _). split; [by rewrite <-app_assoc|]. split.
  - intros name Hname. rewrite lookup_insert_ne.
    + apply Hframe. intros col Hin. apply Hname. apply elem_of_app. by left.
    + intros Heq. apply (Hname c); [|by rewrite Hu|done].
      apply elem_of_app. right. left.
  - intros col column Hin Hdf Hne.
    destruct (decide (col = c)) as [->|Hcol].
    + rewrite lookup_insert_eq, Hdf. cbn [default].
      exists calls1, []. by rewrite app_nil_r.
    + rewrite lookup_insert_ne by (by intros ?%string_app_inj_r).
      apply elem_of_app in Hin as [Hin|Hin%list_elem_of_singleton]; [|done].
      destruct (Hcols col column Hin Hdf Hne) as (before & after & -> & Hen).
      exists before, (after ++ requests_of (default [] (df !! c))).
      split; [by rewrite <-!app_assoc|done].
Qed.

Lemma translate_dataframe_async_fold batch_size cols df log :
  translate_dataframe_async service batch_size cols df log =
  foldl (translate_column service batch_size df) (Ok df, log)
        (filter (λ col, is_Some (df !! col)) cols).
Proof.
  unfold translate_dataframe_async.
  by destruct (filter (λ col, is_Some (df !! col)) cols).
Qed.

(** X5.  Translation adds columns and changes none: a column of the result
    that is not the [_EN] column of a configured column with a value is
    the column of the input, and the [_EN] column of such a column
    has one cell per cell of the column. *)
Theorem translate_adds_only_EN_columns
    (batch_size : Z) (columns_to_translate : list string) (df : Frame)
    (log : list string) :
  (0 < batch_size)%Z →
  ∃ df_result calls,
    translate_dataframe_async service batch_size columns_to_translate df log
      = (Ok df_result, log ++ calls) ∧
    (∀ name,
       (∀ col column s, col ∈ columns_to_translate → df !! col = Some column →
                        Some s ∈ column → name ≠ col +:+ "_EN") →
       df_result !! name = df !! name) ∧
    (∀ col column s,
       col ∈ columns_to_translate → df !! col = Some column →
       Some s ∈ column →
       ∃ new_column, df_result !! (col +:+ "_EN") = Some new_column ∧
                     length new_column = length column).
Proof.
  intros Hb. rewrite translate_dataframe_async_fold.
  set (cs := filter _ columns_to_translate).
  destruct (translate_columns_maps batch_size df cs df log Hb)
    as (dfr' & calls & Hrun & Hframe & Hcols).
  exists dfr', calls. split; [done|]. split.
  - intros name Hname. apply Hframe. intros col Hin Hne.
    apply list_elem_of_filter in Hin as [[column Hdf] Hin].
    rewrite Hdf in Hne. cbn [default] in Hne.
    destruct (unique_non_null column) as [|c l] eqn:Hu; [done|].
    assert (c ∈ unique_non_null column) as Hc by (rewrite Hu; left).
    apply unique_non_null_elem in Hc as [Hc Hcn].
    destruct c as [s|]; [|done]. by apply (Hname col column s).
  - intros col column s Hin Hdf Hs.
    destruct (Hcols col column) as (before & after & _ & Hen); [|done| |].
    + apply list_elem_of_filter. split; [by rewrite Hdf|done].
    + rewrite unique_non_null_nil. intros Hn. by apply (Hn s).
    + eexists. split; [done|]. apply length_map_column.
Qed.

(** X6.  A cell holding a text that is not blank gets, in the [_EN] column,
    the reply of the service to the one request made for that text in
    the column's pass, or the text itself when that request raised;
    cells of the column with the same text get the same cell. *)
Theorem non_blank_cell_translated
    (batch_size : Z) (columns_to_translate : list string) (df : Frame)
    (log : list string) (col : string) (column : list cell)
    (i : nat) (s : string) :
  (0 < batch_size)%Z →
  col ∈ columns_to_translate →
  df !! col = Some column →
  column !! i = Some (Some s) →
  strips_to_empty s = false →
  ∃ df_result calls new_column before after,
    translate_dataframe_async service batch_size columns_to_translate df log
      = (Ok df_result, log ++ calls) ∧
    calls = before ++ s :: after ∧
    df_result !! (col +:+ "_EN") = Some new_column ∧
    new_column !! i =
      Some (Some (translated_or_original (service (log ++ before) s) s)) ∧
    ∀ j, column !! j = Some (Some s) → new_column !! j = new_column !! i.
Proof.
  intros Hb Hcol Hdf Hi Hnb. rewrite translate_dataframe_async_fold.
  set (cs := filter _ columns_to_translate).
  destruct (translate_columns_maps batch_size df cs df log Hb)
    as (dfr' & calls & Hrun & _ & Hcols).
  assert (Some s ∈ column) as Hs by (apply list_elem_of_lookup; eauto).
  destruct (Hcols col column) as (before & after & Hcalls & Hen); [|done| |].
  { apply list_elem_of_filter. split; [by rewrite Hdf|done]. }
  { rewrite unique_non_null_nil. intros Hn. by apply (Hn s). }
  destruct (translate_each_request service (unique_non_null column) ∅
              (log ++ before) (Some s)) as (b2 & a2 & Hlog & Hm).
  { apply NoDup_unique. }
  { done. }
  { by apply unique_non_null_elem. }
  rewrite translate_each_log in Hlog. apply app_inv_head in Hlog.
  fold (requests_of column) in Hlog. cbn [str] in Hlog, Hm.
  eexists dfr', calls, _, (before ++ b2), (a2 ++ after).
  split; [done|]. split.
  { rewrite Hcalls, Hlog. by rewrite <-!app_assoc. }
  split; [exact Hen|]. rewrite (app_assoc log before b2).
  assert (∀ j, column !! j = Some (Some s) →
            map_column (translate_each service (unique_non_null column) ∅
                          ((log ++ before))).1 column !! j =
            Some (Some (translated_or_original
                          (service ((log ++ before) ++ b2) s) s))) as Hcell.
  { intros j Hj. by rewrite (lookup_map_column _ _ _ _ Hj), Hm. }
  split; [by apply Hcell|]. intros j Hj. by rewrite !Hcell.
Qed.

Lemma translate_column_batch_size b1 b2 df st col :
  (0 < b1)%Z → (0 < b2)%Z →
  translate_column service b1 df st col = translate_column service b2 df st col.
Proof.
  intros H1 H2. unfold translate_column. destruct st as [[dfr|e] lg]; [|done].
  destruct (unique_non_null (default [] (df !! col))) as [|u us]; [done|].
  by rewrite !translate_unique_values_each.
Qed.

(** X7.  The batch size groups the requests and nothing else: any two
    positive batch sizes give the same requests in the same order and
    the same frame. *)
Theorem batch_size_changes_nothing
    (b1 b2 : Z) (columns_to_translate : list string) (df : Frame)
    (log : list string) :
  (0 < b1)%Z → (0 < b2)%Z →
  translate_dataframe_async service b1 columns_to_translate df log =
  translate_dataframe_async service b2 columns_to_translate df log.
Proof.
  intros H1 H2. rewrite !translate_dataframe_async_fold.
  generalize (Ok df, log).
  induction (filter (λ col, is_Some (df !! col)) columns_to_translate)
    as [|c cs IH]; intros st; [done|].
  cbn [foldl]. by rewrite IH, (translate_column_batch_size b1 b2).
Qed.

Lemma map_column_empty column : map_column ∅ column = column.
Proof.
  unfold map_column. induction column as [|c column IH]; [done|].
  rewrite fmap_cons. cbn [zip_with]. by rewrite IH, lookup_empty.
Qed.

Lemma translate_columns_raise batch_size df cs e log :
  foldl (translate_column service batch_size df) (Raise e, log) cs =
  (Raise e, log).
Proof. induction cs as [|c cs IH]; [done|]. exact IH. Qed.

Lemma translate_column_no_value batch_size df dfr log col :
  has_value df col = false →
  translate_column service batch_size df (Ok dfr, log) col = (Ok dfr, log).
Proof.
  unfold has_value, translate_column.
  destruct (df !! col) as [column|]; [|intros _; reflexivity]. cbn [default from_option id].
  destruct (unique_non_null column); [done|].
  by rewrite bool_decide_eq_true_2.
Qed.

Lemma translate_column_non_positive batch_size df dfr log col :
  (batch_size ≤ 0)%Z →
  has_value df col = true →
  translate_column service batch_size df (Ok dfr, log) col =
  if bool_decide (batch_size = 0%Z) then (Raise ValueError, log)
  else (Ok (<[col +:+ "_EN" := default [] (df !! col)]> dfr), log).
Proof.
  intros Hb. unfold has_value, translate_column.
  destruct (df !! col) as [column|]; [|done]. cbn [default from_option id].
  destruct (unique_non_null column) as [|u us] eqn:Hu.
  { rewrite bool_decide_eq_false_2; [done|]. by intros H; apply H. }
  intros _. unfold translate_unique_values.
  destruct (batch_size =? 0)%Z eqn:Hz.
  { apply Z.eqb_eq in Hz. by rewrite bool_decide_eq_true_2. }
  apply Z.eqb_neq in Hz. rewrite bool_decide_eq_false_2 by done.
  assert ((batch_size <? 0)%Z = true) as -> by (apply Z.ltb_lt; lia).
  by rewrite map_column_empty.
Qed.

Lemma non_positive_fold batch_size df cs dfr log :
  (batch_size ≤ 0)%Z →
  foldl (translate_column service batch_size df) (Ok dfr, log)
        (filter (λ col, is_Some (df !! col)) cs) =
  let translated := filter (λ col, has_value df col = true) cs in
  if bool_decide (translated = []) then (Ok dfr, log)
  else if bool_decide (batch_size = 0%Z) then (Raise ValueError, log)
  else (Ok (foldl (λ d col, <[col +:+ "_EN" := default [] (df !! col)]> d)
                  dfr translated), log).
Proof.
  intros Hb. cbv zeta. revert dfr.
  induction cs as [|c cs IH]; intros dfr.
  { by rewrite bool_decide_eq_true_2. }
  destruct (has_value df c) eqn:Hv.
  - rewrite (filter_cons_True (λ col, is_Some (df !! col))).
    2:{ unfold has_value in Hv. by destruct (df !! c). }
    rewrite (filter_cons_True (λ col, has_value df col = true)) by done.
    cbn [foldl]. rewrite translate_column_non_positive by done.
    rewrite (bool_decide_eq_false_2 (_ :: _ = [])) by done.
    destruct (decide (batch_size = 0%Z)) as [Hz|Hz].
    { rewrite !(bool_decide_eq_true_2 (batch_size = 0%Z)) by done.
      apply translate_columns_raise. }
    rewrite !(bool_decide_eq_false_2 (batch_size = 0%Z)) by done.
    rewrite IH. rewrite !(bool_decide_eq_false_2 (batch_size = 0%Z)) by done.
    destruct (decide (filter (λ col, has_value df col = true) cs = []))
      as [Ht|Ht].
    + rewrite bool_decide_eq_true_2 by done. by rewrite Ht.
    + by rewrite bool_decide_eq_false_2 by done.
  - rewrite (filter_cons_False (λ col, has_value df col = true))
      by (by rewrite Hv).
    destruct (decide (is_Some (df !! c))) as [Hs|Hs].
    + rewrite (filter_cons_True (λ col, is_Some (df !! col))) by done.
      cbn [foldl]. rewrite translate_column_no_value by done. apply IH.
    + rewrite (filter_cons_False (λ col, is_Some (df !! col))) by done.
      apply IH.
Qed.


Lemma elem_of_frame_columns (df : Frame) col :
  col ∈ frame_columns df ↔ is_Some (df !! col).
Proof.
  unfold frame_columns. rewrite list_elem_of_fmap. split.
  - intros ([k v] & -> & Hkv). apply elem_of_map_to_list in Hkv. eauto.
  - intros [v Hv]. exists (col, v). split; [done|].
    by apply elem_of_map_to_list.
Qed.

(** X3.  [validate_dataframe] answers [True] exactly when the frame has
    every required column; the columns it reports are the required
    columns the frame lacks, in the order they were required. *)
Theorem validate_dataframe_missing
    {DF : Type} (columns : DF → list string) (df : DF)
    (required_columns : list string) :
  let '(is_valid, missing) :=
    Storage.validate_dataframe columns df required_columns in
  (is_valid = true ↔ ∀ col, col ∈ required_columns → col ∈ columns df) ∧
  (is_valid = true ↔ missing = []) ∧
  missing `sublist_of` required_columns ∧
  ∀ col, col ∈ missing ↔ col ∈ required_columns ∧ col ∉ columns df.
Proof.
  unfold Storage.validate_dataframe.
  set (missing := filter (λ col, col ∉ columns df) required_columns).
  assert (∀ col, col ∈ missing ↔ col ∈ required_columns ∧ col ∉ columns df)
    as Hm.
  { intros col. unfold missing. rewrite list_elem_of_filter. naive_solver. }
  assert (missing `sublist_of` required_columns) as Hs by apply sublist_filter.
  destruct missing as [|c l] eqn:He.
  - split_and!; try done. split; [|done]. intros _ col Hcol.
    destruct (decide (col ∈ columns df)) as [|Hn]; [done|].
    exfalso. eapply elem_of_nil, Hm. eauto.
  - split_and!; try done. split; [done|]. intros Hall.
    assert (c ∈ c :: l) as [Hc Hdf]%Hm by left.
    by apply Hall in Hc.
Qed.

Lemma EN_not_SERVICE_ORDER col : col +:+ "_EN" ≠ "SERVICE_ORDER".
Proof.
  intros H. pose proof (f_equal String.length H) as Hl.
  rewrite string_length_app in Hl. simpl in Hl.
  do 11 (destruct col as [|? col]; [try discriminate H|];
         try (simpl in Hl; lia)).
Qed.

(** X4.  After a successful validation of [SERVICE_ORDER] and the configured
    columns, as the pipeline validates before it translates, the
    translation skips no configured column: each of them is in the
    frame and, when it has a value, gets its [_EN] column; the
    [SERVICE_ORDER] column comes out as it went in. *)
Theorem validated_columns_all_translated
    (batch_size : Z) (columns_to_translate : list string) (df : Frame)
    (log : list string) :
  (0 < batch_size)%Z →
  (validate_dataframe frame_columns df
     ("SERVICE_ORDER" :: columns_to_translate)).1 = true →
  ∃ df_result calls,
    translate_dataframe_async service batch_size columns_to_translate df log
      = (Ok df_result, log ++ calls) ∧
    is_Some (df !! "SERVICE_ORDER") ∧
    df_result !! "SERVICE_ORDER" = df !! "SERVICE_ORDER" ∧
    ∀ col, col ∈ columns_to_translate →
      ∃ column,
        df !! col = Some column ∧
        ∀ s, Some s ∈ column →
          ∃ new_column, df_result !! (col +:+ "_EN") = Some new_column ∧
                        length new_column = length column.
Proof.
  intros Hb Hv.
  assert (∀ col, col ∈ "SERVICE_ORDER" :: columns_to_translate →
                 is_Some (df !! col)) as Hall.
  { unfold validate_dataframe in Hv.
    destruct (filter _ _) as [|c l] eqn:Hf; [|done].
    intros col Hcol. apply elem_of_frame_columns.
    destruct (decide (col ∈ frame_columns df)) as [|Hn]; [done|].
    exfalso. apply (elem_of_nil col). rewrite <-Hf.
    by apply list_elem_of_filter. }
  rewrite translate_dataframe_async_fold.
  set (cs := filter _ columns_to_translate).
  destruct (translate_columns_maps batch_size df cs df log Hb)
    as (dfr' & calls & Hrun & Hframe & Hcols).
  exists dfr', calls. split; [done|]. split; [apply Hall; left|]. split.
  { apply Hframe. intros col _ _ Heq. by apply (EN_not_SERVICE_ORDER col). }
  intros col Hcol. destruct (Hall col) as [column Hdf]; [by right|].
  exists column. split; [done|]. intros s Hs.
  destruct (Hcols col column) as (before & after & _ & Hen); [|done| |].
  - apply list_elem_of_filter. split; [by rewrite Hdf|done].
  - rewrite unique_non_null_nil. intros Hn. by apply (Hn s).
  - eexists. split; [done|]. apply length_map_column.
Qed.
End translator_more.

(** *** Python strings *)
Section text_facts.
Import Text.
Local Open Scope string_scope.
Local Open Scope list_scope.

Lemma startswith_app (old rest : string) : startswith (old +:+ rest) old = true.
Proof.
  induction old as [|a old IH]; [by destruct rest|].
  rewrite string_app_cons. cbn [startswith]. by rewrite Ascii.eqb_refl, IH.
Qed.

Lemma startswith_nil (s : string) : startswith s "" = true.
Proof. by destruct s. Qed.

Lemma replace_go_nil old new skip : replace_go old new skip "" = "".
Proof. done. Qed.

Lemma replace_go_skip old new (p rest : string) :
  replace_go old new (String.length p) (p +:+ rest) = replace_go old new 0 rest.
Proof.
  induction p as [|a p IH]; [by rewrite string_app_nil_l|].
  rewrite string_app_cons. exact IH.
Qed.

(** The two equations of [replace]: an occurrence at the front is
    replaced and the search goes on after it; a character that does not
    start an occurrence is kept. *)
Lemma replace_go_occurrence a old new rest :
  replace_go (String a old) new 0 (String a old +:+ rest) =
  new +:+ replace_go (String a old) new 0 rest.
Proof.
  rewrite string_app_cons. cbn [replace_go].
  rewrite <-string_app_cons, startswith_app. f_equal.
  replace (String.length (String a old) - 1) with (String.length old)
    by (simpl; lia).
  apply replace_go_skip.
Qed.

Lemma replace_go_other old new c s :
  startswith (String c s) old = false →
  replace_go old new 0 (String c s) = String c (replace_go old new 0 s).
Proof. intros H. cbn [replace_go]. by rewrite H. Qed.

Lemma replace_go_no_match old new s t :
  no_match old s t = true →
  replace_go old new 0 (s +:+ t) = s +:+ replace_go old new 0 t.
Proof.
  induction s as [|c s IH]; [by rewrite !string_app_nil_l|].
  cbn [no_match]. intros [Hc Hs]%andb_prop. apply negb_true_iff in Hc.
  rewrite string_app_cons in Hc |- *.
  rewrite replace_go_other by done. by rewrite IH, string_app_cons.
Qed.

Lemma no_match_app old s1 s2 t :
  no_match old (s1 +:+ s2) t = no_match old s1 (s2 +:+ t) && no_match old s2 t.
Proof.
  induction s1 as [|c s1 IH]; [by rewrite string_app_nil_l|].
  rewrite string_app_cons. cbn [no_match].
  rewrite IH, <-!string_app_cons, string_app_assoc. by rewrite andb_assoc.
Qed.

Lemma no_match_chars a old s t :
  (∀ c, c ∈ String.list_ascii_of_string s → c ≠ a) →
  no_match (String a old) s t = true.
Proof.
  induction s as [|c s IH]; intros Hs; [done|].
  cbn [no_match]. rewrite string_app_cons. cbn [startswith].
  rewrite IH by (intros c' Hc'; apply Hs; by right).
  assert (c ≠ a) as Hc by (apply Hs; left).
  apply Ascii.eqb_neq in Hc. rewrite Ascii.eqb_sym in Hc. by rewrite Hc.
Qed.

Lemma no_match_contains old s :
  old ≠ "" → no_match old s "" = negb (contains s old).
Proof.
  intros Ho. induction s as [|c s IH].
  - destruct old; [done|]. done.
  - cbn [no_match contains]. rewrite string_app_nil_r, IH.
    by rewrite negb_orb.
Qed.

Lemma replace_front a old new rest :
  replace (String a old +:+ rest) (String a old) new =
  new +:+ replace rest (String a old) new.
Proof. apply replace_go_occurrence. Qed.

Lemma replace_keep a old new s t :
  no_match (String a old) s t = true →
  replace (s +:+ t) (String a old) new = s +:+ replace t (String a old) new.
Proof. apply replace_go_no_match. Qed.

(** An occurrence of [".xlsx"] cannot begin in [s] and end in [t] when
    [t] begins with none of the letters of the extension. *)
Lemma no_match_xlsx s t :
  contains s ".xlsx" = false →
  match t with
  | String c _ => c ≠ "x"%char ∧ c ≠ "l"%char ∧ c ≠ "s"%char
  | "" => True
  end →
  no_match ".xlsx" s t = true.
Proof.
  intros Hs Ht. induction s as [|c s IH]; [done|].
  cbn [contains] in Hs. apply orb_false_elim in Hs as [Hc Hs].
  cbn [no_match]. rewrite IH by done. rewrite andb_true_r.
  apply negb_true_iff. rewrite string_app_cons.
  destruct (startswith (String c (s +:+ t)) ".xlsx") eqn:Hst; [|done].
  exfalso. cbn [startswith] in Hst, Hc.
  apply andb_prop in Hst as [Hdot Hst]. rewrite Hdot in Hc. cbn [andb] in Hc.
  destruct s as [|c1 s].
  { rewrite string_app_nil_l in Hst. destruct t as [|c0 t]; [done|].
    cbn [startswith] in Hst. apply andb_prop in Hst as [H%Ascii.eqb_eq _].
    naive_solver. }
  rewrite string_app_cons in Hst. cbn [startswith] in Hst, Hc.
  apply andb_prop in Hst as [H1 Hst]. rewrite H1 in Hc. cbn [andb] in Hc.
  destruct s as [|c2 s].
  { rewrite string_app_nil_l in Hst. destruct t as [|c0 t]; [done|].
    cbn [startswith] in Hst. apply andb_prop in Hst as [H%Ascii.eqb_eq _].
    naive_solver. }
  rewrite string_app_cons in Hst. cbn [startswith] in Hst, Hc.
  apply andb_prop in Hst as [H2 Hst]. rewrite H2 in Hc. cbn [andb] in Hc.
  destruct s as [|c3 s].
  { rewrite string_app_nil_l in Hst. destruct t as [|c0 t]; [done|].
    cbn [startswith] in Hst. apply andb_prop in Hst as [H%Ascii.eqb_eq _].
    naive_solver. }
  rewrite string_app_cons in Hst. cbn [startswith] in Hst, Hc.
  apply andb_prop in Hst as [H3 Hst]. rewrite H3 in Hc. cbn [andb] in Hc.
  destruct s as [|c4 s].
  { rewrite string_app_nil_l in Hst. destruct t as [|c0 t]; [done|].
    cbn [startswith] in Hst. apply andb_prop in Hst as [H%Ascii.eqb_eq _].
    naive_solver. }
  rewrite string_app_cons in Hst. cbn [startswith] in Hst, Hc.
  apply andb_prop in Hst as [H4 _]. by rewrite H4, startswith_nil in Hc.
Qed.

(** Replacing the extension of a path that has it once, at the end. *)
Lemma replace_extension stem new :
  contains stem ".xlsx" = false →
  replace (stem +:+ ".xlsx") ".xlsx" new = stem +:+ new.
Proof.
  intros Hs. unfold replace.
  rewrite replace_go_no_match by (by apply no_match_xlsx).
  rewrite <-(string_app_nil_r ".xlsx") at 2.
  rewrite replace_go_occurrence. by rewrite replace_go_nil, string_app_nil_r.
Qed.

(** A path without the extension is left as it is. *)
Lemma replace_no_extension s new :
  contains s ".xlsx" = false → replace s ".xlsx" new = s.
Proof.
  intros Hs. unfold replace. rewrite <-(string_app_nil_r s) at 1.
  rewrite replace_go_no_match; [by rewrite replace_go_nil, string_app_nil_r|].
  by apply no_match_xlsx.
Qed.

Lemma pretty_N_go_digits (x : N) (s : string) :
  (∀ c, c ∈ String.list_ascii_of_string s → Json.is_digit c = true) →
  ∀ c, c ∈ String.list_ascii_of_string (pretty_N_go x s) →
       Json.is_digit c = true.
Proof.
  revert s. induction (N.lt_wf_0 x) as [x _ IH]. intros s Hs.
  destruct (decide (x = 0)%N) as [->|Hx]; [by rewrite pretty_N_go_0|].
  rewrite pretty_N_go_step by lia. apply IH.
  { apply N.div_lt; lia. }
  intros c [->|Hc]%elem_of_cons; [|by apply Hs].
  assert (x `mod` 10 < 10)%N as Hlt by (apply N.mod_lt; lia).
  unfold pretty_N_char.
  destruct (x `mod` 10)%N as [|p]; [done|].
  do 4 (destruct p as [p|p|]; try done; try lia).
Qed.

Lemma pretty_nat_digits (k : nat) c :
  c ∈ String.list_ascii_of_string (pretty k) → Json.is_digit c = true.
Proof.
  unfold pretty, pretty_nat, pretty, pretty_N.
  case_decide.
  - by intros [->|?%elem_of_nil]%elem_of_cons.
  - apply pretty_N_go_digits. by intros ? ?%elem_of_nil.
Qed.
End text_facts.

(** *** Saving *)
Lemma string_app_inj_l (a x y : string) : a +:+ x = a +:+ y → x = y.
Proof.
  induction a as [|c a IH]; [by rewrite !string_app_nil_l|].
  rewrite !string_app_cons. intros [= H]. by apply IH.
Qed.

Section save_excel_facts.
Import Text Storage.
Local Open Scope string_scope.
Local Open Scope list_scope.
Context {World DataFrame : Type}.
Variable path_exists : World → string → bool.
Variable now : World → string.
Variable rename : string → string → World → result unit * World.
Variable to_excel : DataFrame → string → World → result unit * World.
Variable to_csv : DataFrame → string → World → result unit * World.

Local Abbreviation versioned := (versioned path_exists).
Local Abbreviation backup := (backup path_exists now rename).
Local Abbreviation write := (write to_excel to_csv).
Local Abbreviation save_excel :=
  (save_excel path_exists now rename to_excel to_csv).

Lemma candidate_S original k :
  candidate original (k + 1) =
  replace original ".xlsx" "" +:+ "_" +:+ pretty (k + 1) +:+ ".xlsx".
Proof. by rewrite Nat.add_1_r. Qed.

Lemma candidate_inj original i j :
  (0 < i)%nat → (0 < j)%nat →
  candidate original i = candidate original j → i = j.
Proof.
  destruct i as [|i], j as [|j]; try lia. intros _ _. unfold candidate.
  intros H%string_app_inj_l%string_app_inj_l%string_app_inj_r.
  by apply (inj pretty) in H.
Qed.

(** The loop, from round [i] on. *)
Lemma versioned_from fuel w original i k :
  (i ≤ k)%nat → (k - i ≤ fuel)%nat →
  (∀ j, (i ≤ j < k)%nat → path_exists w (candidate original j) = true) →
  path_exists w (candidate original k) = false →
  versioned fuel w original (candidate original i) (i + 1) =
  Some (candidate original k).
Proof.
  revert i. induction fuel as [|fuel IH]; intros i Hik Hf Hbefore Hfree.
  - assert (i = k) as -> by lia. simpl. by rewrite Hfree.
  - destruct (decide (i = k)) as [->|Hne].
    { simpl. by rewrite Hfree. }
    cbn [Storage.versioned]. rewrite Hbefore by lia.
    rewrite <-candidate_S. apply IH; [lia|lia| |done].
    intros j Hj. apply Hbefore. lia.
Qed.

Lemma versioned_candidate fuel w original i p :
  versioned fuel w original (candidate original i) (i + 1) = Some p →
  ∃ k, p = candidate original k ∧ path_exists w p = false.
Proof.
  revert i. induction fuel as [|fuel IH]; intros i.
  - simpl. destruct (path_exists w (candidate original i)) eqn:He; [done|].
    intros [= <-]. eauto.
  - cbn [Storage.versioned].
    destruct (path_exists w (candidate original i)) eqn:He.
    + rewrite <-candidate_S. apply IH.
    + intros [= <-]. eauto.
Qed.

(** Either some round up to [n] finds a free path, or the paths of all
    rounds up to [n] exist. *)
Lemma first_free w original n :
  (∃ k, (k ≤ n)%nat ∧ path_exists w (candidate original k) = false ∧
        ∀ j, (j < k)%nat → path_exists w (candidate original j) = true) ∨
  (∀ j, (j ≤ n)%nat → path_exists w (candidate original j) = true).
Proof.
  induction n as [|n [(k & Hk & Hfree & Hbefore)|Hall]].
  - destruct (path_exists w (candidate original 0)) eqn:He.
    + right. intros j Hj. by assert (j = 0) as -> by lia.
    + left. exists 0. split; [lia|]. split; [done|]. intros j Hj. lia.
  - left. exists k. split; [lia|done].
  - destruct (path_exists w (candidate original (S n))) eqn:He.
    + right. intros j Hj. destruct (decide (j = S n)) as [->|]; [done|].
      apply Hall. lia.
    + left. exists (S n). split; [lia|]. split; [done|].
      intros j Hj. apply Hall. lia.
Qed.

(** X19.  The name [save_excel] writes to: the path itself when nothing is
    there after the backup step, and otherwise the first of
    [base_1.xlsx], [base_2.xlsx], ... that does not exist.  What is
    handed to [to_excel] is a path that does not exist. *)
Theorem save_excel_first_free_name
    (fuel : nat) (df : DataFrame) (filepath : string) (create_backup : bool)
    (w w1 : World) (k : nat) :
  backup filepath create_backup w = (Ok (), w1) →
  (∀ j, (j < k)%nat → path_exists w1 (candidate filepath j) = true) →
  path_exists w1 (candidate filepath k) = false →
  (k ≤ fuel)%nat →
  save_excel fuel df filepath create_backup w =
    Some (write df (candidate filepath k) w1) ∧
  ∀ w2, to_excel df (candidate filepath k) w1 = (Ok (), w2) →
        save_excel fuel df filepath create_backup w =
          Some (Ok (candidate filepath k), w2).
Proof.
  intros Hb Hbefore Hfree Hk.
  assert (save_excel fuel df filepath create_backup w =
          Some (write df (candidate filepath k) w1)) as Hs.
  { unfold Storage.save_excel. rewrite Hb. cbv zeta.
    change filepath with (candidate filepath 0) at 2.
    change 1 with (0 + 1).
    rewrite (versioned_from fuel w1 filepath 0 k); [done|lia|lia| |done].
    intros j Hj. apply Hbefore. lia. }
  split; [done|]. intros w2 Hw. rewrite Hs. unfold Storage.write. by rewrite Hw.
Qed.

(** X20.  The loop ends: when the paths that exist after the backup step are
    among finitely many, one more round than there are such paths
    is enough. *)
Theorem save_excel_terminates
    (df : DataFrame) (filepath : string) (create_backup : bool) (w : World)
    (existing : list string) :
  (∀ p, path_exists (backup filepath create_backup w).2 p = true →
        p ∈ existing) →
  ∃ out, save_excel (S (length existing)) df filepath create_backup w
         = Some out.
Proof.
  intros Hfin. unfold Storage.save_excel.
  destruct (backup filepath create_backup w) as [[[]|e] w1] eqn:Hb;
    [|by eauto].
  cbn [snd] in Hfin. cbv zeta.
  destruct (first_free w1 filepath (S (length existing)))
    as [(k & Hk & Hfree & Hbefore)|Hall].
  - change filepath with (candidate filepath 0) at 2.
    change 1 with (0 + 1).
    rewrite (versioned_from _ w1 filepath 0 k); [by eauto|lia|lia| |done].
    intros j Hj. apply Hbefore. lia.
  - exfalso.
    set (names := candidate filepath <$> seq 1 (S (length existing))).
    assert (NoDup names) as Hnd.
    { apply NoDup_fmap_2_strong; [|apply NoDup_seq].
      intros i j [Hi _]%elem_of_seq [Hj _]%elem_of_seq.
      apply candidate_inj; lia. }
    assert (names ⊆+ existing) as Hsub.
    { apply NoDup_submseteq; [done|].
      intros p (j & -> & [Hj1 Hj2]%elem_of_seq)%list_elem_of_fmap.
      apply Hfin, Hall. lia. }
    apply submseteq_length in Hsub. unfold names in Hsub.
    rewrite length_fmap, length_seq in Hsub. lia.
Qed.

Lemma replace_versioned_extension stem k new :
  contains stem ".xlsx" = false →
  replace (stem +:+ version k +:+ ".xlsx") ".xlsx" new =
  stem +:+ version k +:+ new.
Proof.
  intros Hs. unfold replace.
  rewrite <-!string_app_assoc.
  rewrite replace_go_no_match.
  - rewrite <-(string_app_nil_r ".xlsx") at 2.
    by rewrite replace_go_occurrence, replace_go_nil, string_app_nil_r.
  - rewrite no_match_app. apply andb_true_intro. split.
    + apply no_match_xlsx; [done|]. by destruct k.
    + destruct k as [|k]; [done|]. unfold version.
      apply no_match_chars. intros c [->|Hc%pretty_nat_digits]%elem_of_cons.
      * done.
      * intros ->. done.
Qed.

Lemma candidate_stem stem k :
  contains stem ".xlsx" = false →
  candidate (stem +:+ ".xlsx") k = stem +:+ version k +:+ ".xlsx".
Proof.
  intros Hs. destruct k as [|k]; [by rewrite string_app_nil_l|].
  unfold candidate, version. rewrite replace_extension by done.
  by rewrite string_app_nil_r, !string_app_assoc.
Qed.

(** X21.  The names [save_excel] gives to a path [stem.xlsx] whose stem does
    not contain the extension: the backup is [stem_backup_<time>.xlsx],
    and the path returned is [stem.xlsx] or [stem_k.xlsx], or the same
    with [.csv] when the workbook could not be written. *)
Theorem save_excel_names
    (fuel : nat) (df : DataFrame) (stem : string) (create_backup : bool)
    (w : World) :
  contains stem ".xlsx" = false →
  (path_exists w (stem +:+ ".xlsx") = true →
   backup (stem +:+ ".xlsx") true w =
   rename (stem +:+ ".xlsx")
     (stem +:+ "_backup_" +:+ now w +:+ ".xlsx") w) ∧
  ∀ p w', save_excel fuel df (stem +:+ ".xlsx") create_backup w
            = Some (Ok p, w') →
    ∃ k, p = stem +:+ version k +:+ ".xlsx" ∨
         p = stem +:+ version k +:+ ".csv".
Proof.
  intros Hs. split.
  { intros He. unfold Storage.backup. rewrite He. cbn [andb].
    by rewrite replace_extension. }
  intros p w'. unfold Storage.save_excel.
  destruct (backup (stem +:+ ".xlsx") create_backup w) as [[[]|e] w1];
    [|done].
  cbv zeta.
  change (versioned fuel w1 (stem +:+ ".xlsx") (stem +:+ ".xlsx") 1)
    with (versioned fuel w1 (stem +:+ ".xlsx")
            (candidate (stem +:+ ".xlsx") 0) (0 + 1)).
  destruct (versioned fuel w1 _ _ _) as [q|] eqn:Hv; [|done].
  apply versioned_candidate in Hv as (k & -> & _).
  cbn [mbind option_bind]. unfold Storage.write.
  rewrite candidate_stem by done.
  destruct (to_excel df _ w1) as [[[]|e] w2].
  { intros [= <- <-]. eauto. }
  rewrite replace_versioned_extension by done.
  destruct (to_csv df _ w2) as [[[]|e'] w3]; [|done].
  intros [= <- <-]. eauto.
Qed.

(** X22.  A path that does not contain [".xlsx"].  The backup step renames
    the file to its own name; when nothing is at the path and the
    workbook cannot be written, the CSV text is written to the path
    itself. *)
Theorem save_excel_without_extension
    (fuel : nat) (df : DataFrame) (filepath : string) (w : World) :
  contains filepath ".xlsx" = false →
  (path_exists w filepath = true →
   backup filepath true w = rename filepath filepath w) ∧
  (∀ k, (0 < k)%nat →
        candidate filepath k = filepath +:+ "_" +:+ pretty k +:+ ".xlsx") ∧
  ∀ create_backup e w1,
    path_exists w filepath = false →
    to_excel df filepath w = (Raise e, w1) →
    save_excel fuel df filepath create_backup w =
    Some (match to_csv df filepath w1 with
          | (Ok _, w2) => (Ok filepath, w2)
          | (Raise e, w2) => (Raise e, w2)
          end).
Proof.
  intros Hs. split_and!.
  - intros He. unfold Storage.backup. rewrite He. cbn [andb].
    by rewrite replace_no_extension.
  - intros [|k] Hk; [lia|]. unfold candidate.
    by rewrite replace_no_extension.
  - intros create_backup e w1 He Hx. unfold Storage.save_excel, Storage.backup.
    rewrite He, andb_false_r. cbv zeta.
    destruct fuel; cbn [Storage.versioned]; rewrite He;
      cbn [mbind option_bind]; unfold Storage.write;
      by rewrite Hx, replace_no_extension.
Qed.
End save_excel_facts.

(** *** The request to the classification service *)
Section service_facts.
Import Text Service Classifier.
Local Open Scope string_scope.
Local Open Scope list_scope.

(** [old], of two characters or more, is found nowhere in [s] when its
    second character is not in [s] and does not begin [t]. *)
Lemma no_match_second a b old s t :
  (∀ c, c ∈ String.list_ascii_of_string s → c ≠ b) →
  match t with String c _ => c ≠ b | "" => True end →
  no_match (String a (String b old)) s t = true.
Proof.
  intros Hs Ht. induction s as [|c s IH]; [done|].
  cbn [no_match]. rewrite IH by (intros c' Hc'; apply Hs; by right).
  rewrite andb_true_r. apply negb_true_iff.
  rewrite string_app_cons. cbn [startswith].
  destruct (Ascii.eqb a c); [|done]. cbn [andb].
  destruct s as [|c1 s].
  - rewrite string_app_nil_l. destruct t as [|c0 t]; [done|].
    cbn [startswith]. apply Ascii.eqb_neq in Ht.
    rewrite Ascii.eqb_sym in Ht. by rewrite Ht.
  - rewrite string_app_cons. cbn [startswith].
    assert (c1 ≠ b) as Hc1 by (apply Hs; right; left).
    apply Ascii.eqb_neq in Hc1. rewrite Ascii.eqb_sym in Hc1. by rewrite Hc1.
Qed.

Lemma unfence j :
  (∀ c, c ∈ String.list_ascii_of_string j → c ≠ "`"%char) →
  replace (replace (replace (fence_open +:+ j +:+ fence_close) fence_open "")
                   fence_close "") "```" "" = j.
Proof.
  intros Hj.
  assert (fence_open = String "`" ("``json" +:+ nl)) as Hopen by reflexivity.
  assert (∃ a, fence_close = String a "```" ∧ a ≠ "`"%char) as (a & Hclose & Ha).
  { eexists. split; [reflexivity|done]. }
  assert (replace fence_close fence_open "" = fence_close) as H1 by reflexivity.
  assert (replace fence_close fence_close "" = "") as H2 by reflexivity.
  rewrite Hopen at 1 2. rewrite replace_front, string_app_nil_l.
  rewrite replace_keep by (by apply no_match_chars).
  rewrite <-Hopen, H1.
  rewrite Hclose at 2. rewrite replace_keep.
  2:{ apply no_match_second; [done|]. by rewrite Hclose. }
  rewrite <-Hclose, H2, string_app_nil_r.
  rewrite <-(string_app_nil_r j) at 1.
  rewrite replace_keep by (by apply no_match_chars).
  by rewrite string_app_nil_r.
Qed.

(** X16.  A reply fenced as a [json] block is read as the text between the
    fences: with status 200 and a content of the form
    [```json], line feed, [j], line feed, [```], where [j] has no
    backquote, the call returns [json.loads(j)]. *)
Theorem fenced_reply_read_as_plain
    (part_failure_data prompts api_config : json) (token : option string)
    (str_format : string → list (string * json) → result string)
    (post : Z → Request → result Response)
    (attempts : Z) (reason special performed issue : json)
    (request : Request) (response : Response) (data : json) (j : string) :
  build_request part_failure_data prompts api_config token str_format
    reason special performed issue = Ok request →
  post attempts request = Ok response →
  status_code response = 200%Z →
  response_json response = Ok data →
  message_content data = Ok (JStr (fence_open +:+ j +:+ fence_close)) →
  (∀ c, c ∈ String.list_ascii_of_string j → c ≠ "`"%char) →
  classify_service_call part_failure_data prompts api_config token str_format
    post attempts reason special performed issue = Json.loads j.
Proof.
  intros Hreq Hpost Hstatus Hjson Hcontent Hj.
  unfold classify_service_call. rewrite Hreq, bind_Ok, Hpost, bind_Ok.
  unfold read_response. rewrite Hstatus, Hjson, bind_Ok, Hcontent, bind_Ok.
  change (200 =? 200)%Z with true. cbv iota.
  assert (startswith (fence_open +:+ j +:+ fence_close) "```json" = true) as ->.
  { unfold fence_open. rewrite string_app_assoc. apply startswith_app. }
  by rewrite unfence.
Qed.


(** X18.  A classifier that cannot build its request (no [endpoint] in the
    configuration, or part data or templates the prompt cannot be
    made from) gives every record the degraded default, whatever the
    service would answer. *)
Theorem unusable_configuration_degrades
    (part_failure_data prompts api_config : json) (token : option string)
    (str_format : string → list (string * json) → result string)
    (post : Z → Request → result Response)
    (idx : nat) (row : gmap string json) :
  (∃ e, py_item api_config "endpoint" = Raise e) ∨
  (∃ e, generate_classification_prompt part_failure_data prompts str_format
        = Raise e) →
  process_single_call
    (classify_service_call part_failure_data prompts api_config token
       str_format post) idx row 3
  = (idx, degraded_result).
Proof.
  intros Hcfg. apply process_single_call_all_raise.
  intros n a b c d. unfold classify_service_call, build_request.
  destruct Hcfg as [[e ->]|[e He]]; [by eauto|].
  destruct (py_item api_config "endpoint"); [|by eauto].
  rewrite bind_Ok, He. by eauto.
Qed.
End service_facts.

(** *** File names and typed input *)
Section names_facts.
Import Text Pipeline Cli.
Local Open Scope string_scope.
Local Open Scope list_scope.

Lemma startswith_app_cases x t old :
  startswith (x +:+ t) old = true →
  ((String.length old ≤ String.length x)%nat ∧ startswith x old = true) ∨
  ((String.length x < String.length old)%nat ∧
   startswith t (string_drop (String.length x) old) = true).
Proof.
  revert old. induction x as [|c x IH]; intros old H.
  - rewrite string_app_nil_l in H. destruct old as [|a old].
    + left. by split.
    + right. split; [simpl; lia|done].
  - destruct old as [|a old].
    + left. split; [simpl; lia|done].
    + rewrite string_app_cons in H. cbn [startswith] in H.
      apply andb_prop in H as [Ha H].
      destruct (IH old H) as [[Hl Hs]|[Hl Hs]].
      * left. split; [simpl; lia|]. cbn [startswith]. by rewrite Ha, Hs.
      * right. split; [simpl; lia|done].
Qed.

Lemma no_match_border_free old s t :
  contains s old = false → border_free old t = true →
  no_match old s t = true.
Proof.
  intros Hs Ht. induction s as [|c s IH]; [done|].
  cbn [contains] in Hs. apply orb_false_elim in Hs as [Hc Hs].
  cbn [no_match]. rewrite IH by done. rewrite andb_true_r.
  apply negb_true_iff.
  destruct (startswith (String c s +:+ t) old) eqn:Hst; [|done].
  apply startswith_app_cases in Hst as [[_ Hst]|[Hl Hst]]; [congruence|].
  unfold border_free in Ht. rewrite forallb_forall in Ht.
  specialize (Ht (String.length (String c s))).
  rewrite Hst in Ht. exfalso.
  assert (negb true = true) as Hf; [|done].
  apply Ht, list_elem_of_In, elem_of_seq. simpl in *. lia.
Qed.

Lemma startswith_weaken s old x :
  startswith s (old +:+ x) = true → startswith s old = true.
Proof.
  revert s. induction old as [|a old IH]; intros s; [by rewrite startswith_nil|].
  rewrite string_app_cons. destruct s as [|c s]; [done|]. cbn [startswith].
  intros [-> H]%andb_prop. by rewrite (IH s H).
Qed.

Lemma contains_weaken s old x :
  contains s old = false → contains s (old +:+ x) = false.
Proof.
  induction s as [|c s IH]; cbn [contains].
  - intros [H _]%orb_false_elim. rewrite orb_false_r.
    destruct (startswith "" (old +:+ x)) eqn:He; [|done].
    apply startswith_weaken in He. congruence.
  - intros [H Hs]%orb_false_elim. rewrite IH by done. rewrite orb_false_r.
    destruct (startswith (String c s) (old +:+ x)) eqn:He; [|done].
    apply startswith_weaken in He. congruence.
Qed.

(** X23.  The incremental run looks for the existing problems table beside
    the enriched table by the name the full run gave it; for a path
    without [_final.xlsx] the path of the problems table is the path of
    the enriched table itself. *)
Theorem problems_file_beside_main_file :
  (∀ output_base_name,
     contains output_base_name "_final.xlsx" = false →
     problems_file_path (main_file output_base_name) =
     problems_file output_base_name) ∧
  (∀ processed_file,
     contains processed_file "_final.xlsx" = false →
     problems_file_path processed_file = processed_file).
Proof.
  split.
  - intros base Hb. unfold problems_file_path, main_file, problems_file.
    rewrite replace_keep by (by apply no_match_border_free).
    rewrite <-(string_app_nil_r "_final.xlsx") at 1.
    rewrite replace_front.
    change (replace "" "_final.xlsx" "_problems_normalized.xlsx") with "".
    by rewrite string_app_nil_r.
  - intros f Hf. unfold problems_file_path.
    rewrite <-(string_app_nil_r f) at 1.
    rewrite replace_keep by (by apply no_match_border_free).
    change (replace "" "_final.xlsx" "_problems_normalized.xlsx") with "".
    by rewrite string_app_nil_r.
Qed.
End names_facts.

Section cli_facts.
Import Text Pipeline Cli.
Local Open Scope string_scope.
Local Open Scope list_scope.

(** [s] consists of characters of [p] only. *)
Local Abbreviation all_of p s :=
  (forallb p (String.list_ascii_of_string s) = true).

Lemma lstrip_by_pad p l x : all_of p l → lstrip_by p (l +:+ x) = lstrip_by p x.
Proof.
  induction l as [|c l IH]; [by rewrite string_app_nil_l|].
  cbn [String.list_ascii_of_string forallb]. intros [Hc Hl]%andb_prop.
  rewrite string_app_cons. cbn [lstrip_by]. rewrite Hc. by apply IH.
Qed.

Lemma rstrip_by_all p r : all_of p r → rstrip_by p r = "".
Proof.
  induction r as [|c r IH]; [done|].
  cbn [String.list_ascii_of_string forallb]. intros [Hc Hr]%andb_prop.
  cbn [rstrip_by]. by rewrite (IH Hr), Hc.
Qed.

Lemma rstrip_by_pad p x r : all_of p r → rstrip_by p (x +:+ r) = rstrip_by p x.
Proof.
  intros Hr. induction x as [|c x IH].
  - rewrite string_app_nil_l. by apply rstrip_by_all.
  - rewrite string_app_cons. cbn [rstrip_by]. by rewrite IH.
Qed.

Lemma rstrip_by_keep_app p s t :
  rstrip_by p t = t → t ≠ "" → rstrip_by p (s +:+ t) = s +:+ t.
Proof.
  intros Ht Hne. induction s as [|c s IH]; [by rewrite string_app_nil_l|].
  rewrite string_app_cons. cbn [rstrip_by]. rewrite IH.
  destruct (s +:+ t) as [|c' u] eqn:He.
  - destruct s; [by rewrite string_app_nil_l in He|].
    by rewrite string_app_cons in He.
  - by rewrite andb_false_r.
Qed.

Lemma lstrip_by_keep p x : begins_outside p x = true → lstrip_by p x = x.
Proof.
  destruct x as [|c x]; [done|]. cbn [begins_outside lstrip_by].
  by intros ->%negb_true_iff.
Qed.

Lemma rstrip_by_keep p x : ends_outside p x = true → rstrip_by p x = x.
Proof.
  induction x as [|c x IH]; [done|]. cbn [ends_outside rstrip_by].
  destruct x as [|c' x].
  - intros ->%negb_true_iff. done.
  - intros H. rewrite (IH H). by rewrite andb_false_r.
Qed.

Lemma ends_outside_app p s t :
  ends_outside p t = true → ends_outside p (s +:+ t) = true.
Proof.
  intros Ht. induction s as [|c s IH]; [by rewrite string_app_nil_l|].
  rewrite string_app_cons. cbn [ends_outside].
  by destruct (s +:+ t).
Qed.

Lemma begins_outside_app p s t :
  begins_outside p s = true → begins_outside p (s +:+ t) = true.
Proof. destruct s; [done|]. by rewrite string_app_cons. Qed.

(** A text that begins and ends with a character outside [p], between
    characters of [p], is what [strip] leaves. *)
Lemma strip_by_pad p l x r :
  all_of p l → all_of p r →
  begins_outside p x = true → ends_outside p x = true →
  strip_by p (l +:+ x +:+ r) = x.
Proof.
  intros Hl Hr Hx1 Hx2. unfold strip_by.
  rewrite lstrip_by_pad by done.
  rewrite lstrip_by_keep by (by apply begins_outside_app).
  rewrite rstrip_by_pad by done. by apply rstrip_by_keep.
Qed.

Lemma outside_weaken (p q : ascii → bool) x :
  (∀ c, q c = true → p c = true) →
  (begins_outside p x = true → begins_outside q x = true) ∧
  (ends_outside p x = true → ends_outside q x = true).
Proof.
  intros Hpq.
  assert (∀ c, negb (p c) = true → negb (q c) = true) as Hn.
  { intros c Hc%negb_true_iff. apply negb_true_iff.
    destruct (q c) eqn:Hq; [|done]. apply Hpq in Hq. congruence. }
  split.
  - destruct x; [done|]. apply Hn.
  - induction x as [|c x IH]; [done|]. cbn [ends_outside].
    destruct x; [apply Hn|apply IH].
Qed.

(** X24.  [get_user_choice] returns one of ["1"], ["2"], ["3"]: what is left
    of the first line typed that is one of them once stripped. *)
Theorem get_user_choice_valid (inputs : list string) :
  match get_user_choice inputs with
  | Some (choice, rest) =>
      choice ∈ ["1"; "2"; "3"] ∧
      ∃ refused line,
        inputs = refused ++ line :: rest ∧ strip line = choice ∧
        ∀ l, l ∈ refused → strip l ∉ ["1"; "2"; "3"]
  | None => ∀ l, l ∈ inputs → strip l ∉ ["1"; "2"; "3"]
  end.
Proof.
  induction inputs as [|line inputs IH]; [by intros l ?%elem_of_nil|].
  cbn [get_user_choice]. case_bool_decide as Hc.
  - split; [done|]. exists [], line. split; [done|]. split; [done|].
    by intros l ?%elem_of_nil.
  - destruct (get_user_choice inputs) as [[choice rest]|].
    + destruct IH as (Hv & refused & l & -> & Hl & Href).
      split; [done|]. exists (line :: refused), l. split; [done|].
      split; [done|]. intros l' [->|?]%elem_of_cons; [done|by apply Href].
    + intros l [->|?]%elem_of_cons; [done|by apply IH].
Qed.

Lemma strip_by_all p l : all_of p l → strip_by p l = "".
Proof.
  intros Hl. unfold strip_by. rewrite <-(string_app_nil_r l).
  by rewrite lstrip_by_pad.
Qed.

Lemma no_match_xls s t :
  contains s ".xls" = false →
  border_free ".xls" t && border_free ".xlsx" t = true →
  no_match ".xls" s t = true ∧ no_match ".xlsx" s t = true.
Proof.
  intros Hs [H1 H2]%andb_prop. split; [by apply no_match_border_free|].
  apply no_match_border_free; [|done].
  by apply (contains_weaken s ".xls" "x").
Qed.

(** X27.  The base name typed for the output: a line of white space gives
    the default name; a name typed with the extension [.xlsx] or [.xls],
    or without one, is returned without it and without the white space
    around it. *)
Theorem get_output_name_drops_extension
    (l stem r : string) (rest : list string) :
  Translator.strips_to_empty l = true →
  Translator.strips_to_empty r = true →
  begins_outside Translator.isspace stem = true →
  contains stem ".xls" = false →
  get_output_name ((l +:+ stem +:+ ".xlsx" +:+ r) :: rest) = Some (stem, rest) ∧
  get_output_name ((l +:+ stem +:+ ".xls" +:+ r) :: rest) = Some (stem, rest) ∧
  (ends_outside Translator.isspace stem = true →
   get_output_name ((l +:+ stem +:+ r) :: rest) = Some (stem, rest)) ∧
  get_output_name (l :: rest) = Some ("processed_service_calls", rest).
Proof.
  intros Hl Hr Hb Hs.
  assert (∀ x, x ≠ "" → String.eqb (stem +:+ x) "" = false) as Hne.
  { intros x _. destruct stem; [done|]. by rewrite string_app_cons. }
  assert (replace stem ".xls" "" = stem) as Hstem.
  { rewrite <-(string_app_nil_r stem) at 1.
    rewrite replace_keep by (by apply no_match_xls).
    change (replace "" ".xls" "") with "". by rewrite string_app_nil_r. }
  assert (∀ ext, ext ≠ "" → ends_outside Translator.isspace ext = true →
            strip (l +:+ stem +:+ ext +:+ r) = stem +:+ ext) as Hstrip.
  { intros ext _ He. unfold strip. rewrite <-(string_app_assoc stem).
    apply strip_by_pad; try done.
    - by apply begins_outside_app.
    - by apply ends_outside_app. }
  split_and!.
  - unfold get_output_name. rewrite Hstrip, Hne by done.
    do 2 f_equal. rewrite replace_keep by (by apply no_match_xls).
    change (replace ".xlsx" ".xlsx" "") with "".
    by rewrite string_app_nil_r.
  - unfold get_output_name. rewrite Hstrip, Hne by done.
    do 2 f_equal. rewrite (replace_keep _ _ _ stem ".xls")
      by (by apply no_match_xls).
    change (replace ".xls" ".xlsx" "") with ".xls".
    rewrite replace_keep by (by apply no_match_xls).
    change (replace ".xls" ".xls" "") with "".
    by rewrite string_app_nil_r.
  - intros He. unfold get_output_name, strip.
    rewrite strip_by_pad by done.
    destruct stem as [|c stem']; [done|]. cbn [String.eqb].
    do 2 f_equal. rewrite <-(string_app_nil_r (String c stem')) at 1.
    rewrite (replace_keep _ _ _ _ "") by (by apply no_match_xls).
    change (replace "" ".xlsx" "") with "". by rewrite string_app_nil_r.
  - unfold get_output_name, strip. by rewrite strip_by_all.
Qed.

Lemma get_file_path_sound_bounded path_exists n inputs p rest :
  (length inputs ≤ n)%nat →
  get_file_path path_exists inputs = Some (Some p, rest) →
  path_exists p = true ∧ ∃ used, inputs = used ++ rest ∧ used ≠ [].
Proof.
  revert inputs. induction n as [|n IH]; intros inputs Hn.
  { destruct inputs; [done|simpl in Hn; lia]. }
  destruct inputs as [|line inputs]; [done|]. cbn [get_file_path].
  destruct (path_exists (strip_char _ _)) eqn:He.
  { intros [= <- <-]. split; [done|]. by exists [line]. }
  destruct inputs as [|answer inputs]; [done|].
  destruct (negb _); [done|]. intros H.
  apply IH in H as [Hp (used & -> & Hu)]; [|simpl in Hn; lia].
  split; [done|]. by exists (line :: answer :: used).
Qed.

(** X25.  [get_file_path] returns a path only when something exists at it. *)
Theorem get_file_path_exists
    (path_exists : string → bool) (inputs : list string)
    (p : string) (rest : list string) :
  get_file_path path_exists inputs = Some (Some p, rest) →
  path_exists p = true.
Proof.
  intros H.
  by apply (get_file_path_sound_bounded _ (length inputs)) in H as [? _].
Qed.

(** X26.  A path typed bare, within double quotes or within single quotes,
    with white space around it, is read as the path: when something
    exists at it, it is returned, and no further line is read. *)
Theorem get_file_path_unquotes
    (path_exists : string → bool) (l quote p r : string)
    (rest : list string) :
  quote ∈ [""; String Json.dquote ""; "'"] →
  Translator.strips_to_empty l = true →
  Translator.strips_to_empty r = true →
  begins_outside space_or_quote p = true →
  ends_outside space_or_quote p = true →
  path_exists p = true →
  get_file_path path_exists ((l +:+ quote +:+ p +:+ quote +:+ r) :: rest)
  = Some (Some p, rest).
Proof.
  intros Hq Hl Hr Hb He Hp.
  assert (∀ q : ascii → bool,
            (∀ c, q c = true → space_or_quote c = true) →
            begins_outside q p = true ∧ ends_outside q p = true) as Hout.
  { intros q Hq'. destruct (outside_weaken space_or_quote q p Hq'). auto. }
  destruct (Hout Translator.isspace) as [Hb1 He1].
  { intros c Hc. unfold space_or_quote. by rewrite Hc. }
  destruct (Hout (Ascii.eqb Json.dquote)) as [Hb2 He2].
  { intros c Hc. unfold space_or_quote. rewrite Hc. by rewrite orb_true_r. }
  destruct (Hout (Ascii.eqb "'")) as [Hb3 He3].
  { intros c Hc. unfold space_or_quote. rewrite Hc. by rewrite !orb_true_r. }
  assert (∀ q, strip_by q p = p ∨ ¬ (begins_outside q p = true ∧
                                        ends_outside q p = true)) as Hkeep.
  { intros q. destruct (begins_outside q p) eqn:H1, (ends_outside q p) eqn:H2;
      try (right; by intros [? ?]).
    left. unfold strip_by. by rewrite lstrip_by_keep, rstrip_by_keep. }
  assert (∀ q, begins_outside q p = true → ends_outside q p = true →
               strip_by q p = p) as Hkeep'.
  { intros q H1 H2. by destruct (Hkeep q) as [?|[]]. }
  cbn [get_file_path]. unfold strip, strip_char.
  rewrite !elem_of_cons, elem_of_nil in Hq.
  destruct Hq as [->|[->|[->|[]]]].
  - rewrite !string_app_nil_l. rewrite strip_by_pad by done.
    rewrite !Hkeep' by done. by rewrite Hp.
  - rewrite <-(string_app_assoc p), <-(string_app_assoc (String _ "")).
    rewrite strip_by_pad; try done.
    + rewrite strip_by_pad by done. rewrite Hkeep' by done. by rewrite Hp.
    + by do 2 apply ends_outside_app.
  - rewrite <-(string_app_assoc p), <-(string_app_assoc "'").
    rewrite strip_by_pad; try done.
    + assert (strip_by (Ascii.eqb Json.dquote) ("'" +:+ p +:+ "'") =
              "'" +:+ p +:+ "'") as ->.
      { unfold strip_by. rewrite lstrip_by_keep by done.
        apply rstrip_by_keep. by do 2 apply ends_outside_app. }
      rewrite strip_by_pad by done. by rewrite Hp.
    + by do 2 apply ends_outside_app.
Qed.
End cli_facts.

(** *** The retry loop for any number of attempts *)
Section retry_any.
Import Classifier.
Local Open Scope string_scope.
Local Open Scope list_scope.

Lemma retry_first_success
    (classify : Z → json → json → json → json → result json)
    idx row max_attempts n attempts :
  n = Z.to_nat (max_attempts - attempts) →
  (0 ≤ attempts < max_attempts)%Z →
  (∀ j, (0 ≤ j < attempts)%Z → ∃ e, attempt classify row j = Raise e) →
  let r := retry classify idx row max_attempts n attempts in
  r.1 = idx ∧
  ((∃ k, (0 ≤ k < max_attempts)%Z ∧ attempt classify row k = Ok r.2 ∧
         ∀ j, (0 ≤ j < k)%Z → ∃ e, attempt classify row j = Raise e) ∨
   (r.2 = degraded_result ∧
    ∀ j, (0 ≤ j < max_attempts)%Z → ∃ e, attempt classify row j = Raise e)).
Proof.
  revert attempts. induction n as [|n IH]; intros attempts Hn Hlt Hbefore; [lia|].
  cbn [retry]. destruct (attempt classify row attempts) as [v|e] eqn:Ha.
  { cbn [fst snd]. split; [done|]. left. exists attempts. by eauto. }
  assert (∀ j, (0 ≤ j < attempts + 1)%Z → ∃ e, attempt classify row j = Raise e)
    as Hbefore'.
  { intros j Hj. destruct (decide (j = attempts)) as [->|]; [by eauto|].
    apply Hbefore. lia. }
  case_bool_decide as Hm.
  - cbn [fst snd]. split; [done|]. right. split; [done|]. by rewrite <-Hm.
  - apply IH; [lia|lia|done].
Qed.

(** X9.  For any positive [max_attempts], the call makes the attempts in
    order and returns the parsed result of the first that succeeds;
    when all [max_attempts] attempts raise it returns the degraded
    default. *)
Theorem process_single_call_first_success
    (classify : Z → json → json → json → json → result json)
    (idx : nat) (row : gmap string json) (max_attempts : Z) :
  (1 ≤ max_attempts)%Z →
  let r := process_single_call classify idx row max_attempts in
  r.1 = idx ∧
  ((∃ k, (0 ≤ k < max_attempts)%Z ∧ attempt classify row k = Ok r.2 ∧
         ∀ j, (0 ≤ j < k)%Z → ∃ e, attempt classify row j = Raise e) ∨
   (r.2 = degraded_result ∧
    ∀ j, (0 ≤ j < max_attempts)%Z → ∃ e, attempt classify row j = Raise e)).
Proof.
  intros Hm. unfold process_single_call.
  apply retry_first_success; [done|lia|]. intros j Hj. lia.
Qed.
End retry_any.

(** *** What the classification reads of the frame *)
Lemma bind_Raise {A B} (e : exn) (f : A → result B) :
  (x ← Raise e; f x) = Raise e.
Proof. done. Qed.

Ltac sync_step :=
  first
    [ rewrite bind_Ok
    | rewrite bind_Raise
    | match goal with
      | |- context [if truthy ?p then _ else _] =>
          destruct (truthy p) eqn:?
      | |- context [@mbind result _ _ _ _ ?m] =>
          lazymatch m with
          | Ok _ => fail
          | Raise _ => fail
          | mbind _ _ => fail
          | if _ then _ else _ => fail
          | for_each (Classifier.fill_slot _) _ _ => fail
          | _ => destruct m eqn:?
          end
      end ].

Section reads_facts.
Import Classifier Vocabulary.
Local Open Scope string_scope.
Local Open Scope list_scope.

Lemma fill_slots_any idx l (d1 d2 : DataFrame Row) :
  match for_each (fill_slot idx) l d1, for_each (fill_slot idx) l d2 with
  | Ok _, Ok _ => True
  | Raise e, Raise e' => e = e'
  | _, _ => False
  end.
Proof.
  revert d1 d2. induction l as [|[i p] l IH]; intros d1 d2; [done|].
  cbn [for_each]. destruct p; try done.
  rewrite !fill_slot_obj, !bind_Ok. apply IH.
Qed.

Lemma add_result_same df df' (d1 d2 : DataFrame Row) recs entry :
  loc df' entry.1 "SERVICE_ORDER" = loc df entry.1 "SERVICE_ORDER" →
  same_records (add_result df (d1, recs) entry)
               (add_result df' (d2, recs) entry).
Proof.
  destruct entry as [idx result]. cbn [fst]. intros Hloc.
  unfold add_result. rewrite Hloc.
  destruct result; try done.
  repeat sync_step; try done;
    match goal with
    | |- same_records (mbind _ (for_each (fill_slot ?i) ?l ?x))
                      (mbind _ (for_each (fill_slot ?i) ?l ?y)) =>
        pose proof (fill_slots_any i l x y) as Hf;
        destruct (for_each (fill_slot i) l x), (for_each (fill_slot i) l y);
        try done
    end;
    repeat sync_step; try done;
    by subst.
Qed.

Lemma add_results_same df df' results (st st' : DataFrame Row * list NormalizedRow) :
  (∀ idx, loc df' idx "SERVICE_ORDER" = loc df idx "SERVICE_ORDER") →
  st.2 = st'.2 →
  same_records (for_each (add_result df) results st)
               (for_each (add_result df') results st').
Proof.
  intros Hloc. revert st st'.
  induction results as [|entry results IH]; intros [d1 recs] [d2 recs'] Hst.
  { done. }
  cbn [snd] in Hst. subst recs'. cbn [for_each].
  pose proof (add_result_same df df' d1 d2 recs entry (Hloc _)) as He.
  destruct (add_result df (d1, recs) entry) as [[d1' recs1]|e1],
    (add_result df' (d2, recs) entry) as [[d2' recs2]|e2]; try done.
  rewrite !bind_Ok. apply IH. done.
Qed.

Lemma mapM_ext {A B} (f g : A → result B) l :
  (∀ x, x ∈ l → f x = g x) → mapM f l = mapM g l.
Proof.
  induction l as [|x l IH]; intros Hfg; [done|].
  rewrite !mapM_cons, (Hfg x) by left.
  rewrite IH; [done|]. intros y Hy. apply Hfg. by right.
Qed.

(** X15.  The classification reads the four text columns and
    [SERVICE_ORDER], and nothing else of the frame: two frames with the
    same labels that agree on these columns (whatever their [_EN]
    columns hold) get the same problems table, or raise alike. *)
Theorem classification_reads_five_columns
    (classify_service_call : nat → Z → json → json → json → json → result json)
    (as_completed : list (nat * json) → list (nat * json))
    (df df' : DataFrame Row) :
  df'.*1 = df.*1 →
  (∀ idx col, col ∈ columns_read → loc df' idx col = loc df idx col) →
  same_records (process_dataframe classify_service_call as_completed df)
               (process_dataframe classify_service_call as_completed df').
Proof.
  intros Hlabels Hcols. unfold process_dataframe. rewrite Hlabels.
  assert (mapM (submit classify_service_call df') df.*1 =
          mapM (submit classify_service_call df) df.*1) as ->.
  { apply mapM_ext. intros idx _. unfold submit.
    by rewrite !Hcols by (unfold columns_read; set_solver). }
  destruct (mapM (submit classify_service_call df) df.*1) as [futures|e];
    [|done].
  rewrite !bind_Ok. unfold _add_results_to_dataframe.
  apply add_results_same; [|done].
  intros idx. apply Hcols. unfold columns_read. set_solver.
Qed.
End reads_facts.

(** *** The incremental run *)
Section pipeline_facts.
Import Text Pipeline.
Local Open Scope string_scope.
Local Open Scope list_scope.
Context {World Row Key : Type} `{Countable Key}.
Variable id_column : Row → Key.
Variable columns : DataFrame Row → list string.
Variable read_excel : string → World → result (DataFrame Row) * World.
Variable translate : DataFrame Row → World → result (DataFrame Row) * World.
Variable process_dataframe :
  DataFrame Row → json → World →
  result (DataFrame Row * DataFrame Row) * World.
Variable save_excel :
  DataFrame Row → string → bool → World → result string * World.
Variable now : World → string.
Variable settings : json.

Local Abbreviation load_excel := (load_excel read_excel).
Local Abbreviation run_incremental_pipeline :=
  (run_incremental_pipeline id_column read_excel translate process_dataframe
     save_excel now settings).
Local Abbreviation run_full_pipeline :=
  (run_full_pipeline columns read_excel translate process_dataframe
     save_excel settings).
Local Abbreviation column := (Utils.column id_column).
Local Abbreviation key_set := (Utils.key_set id_column).
Local Abbreviation find_new_service_orders :=
  (Utils.find_new_service_orders id_column).



Lemma mapM_as_str (l : list string) : mapM as_str (JStr <$> l) = Ok l.
Proof.
  induction l as [|x l IH]; [done|].
  rewrite fmap_cons, mapM_cons. cbn [as_str]. by rewrite bind_Ok, IH.
Qed.

Lemma hashable_labels (l : list string) :
  existsb unhashable (JStr <$> l) = false.
Proof. by induction l. Qed.

Lemma is_valid_labels (df : DataFrame Row) (required : list string) :
  is_valid columns df (JStr <$> required) =
  Ok (bool_decide (Forall (λ col, col ∈ columns df) required)).
Proof.
  unfold is_valid. rewrite hashable_labels, mapM_as_str.
  unfold Storage.validate_dataframe. f_equal.
  destruct (filter _ required) as [|c l] eqn:Hf; cbn [fst]; symmetry.
  - apply bool_decide_eq_true_2, Forall_forall. intros col Hcol.
    destruct (decide (col ∈ columns df)) as [|Hn]; [done|].
    exfalso. apply (elem_of_nil col). rewrite <-Hf.
    by apply list_elem_of_filter.
  - apply bool_decide_eq_false_2. rewrite Forall_forall. intros Hall.
    assert (c ∈ filter (λ col, col ∉ columns df) required) as Hc
      by (rewrite Hf; left).
    apply list_elem_of_filter in Hc as [Hn Hc]. by apply Hall in Hc.
Qed.

End pipeline_facts.

(** *** Instances *)
Ltac by_decision :=
  match goal with |- ?P => exact (bool_decide_unpack P I) end.

Section instances.
Import Classifier Translator Text Storage Service Pipeline Cli Vocabulary Samples.
Local Open Scope string_scope.
Local Open Scope list_scope.


Lemma malformed_result_aborts_witness :
  ∃ e, _add_results_to_dataframe sample_df [(1, degraded_result); (0, JArr [])]
       = Raise e.
Proof.
  apply (malformed_result_aborts sample_df _ 0 (JArr [])).
  - right. left.
  - discriminate.
  - reflexivity.
Defined.

Lemma materializer_keeps_input_columns_witness :
  ∃ df_result problems_df,
    _add_results_to_dataframe sample_df sample_results =
      Ok (df_result, problems_df) ∧
    loc df_result 0 "SERVICE_ORDER" = Ok (JStr "SO-100").
Proof.
  destruct (materializer_runs sample_df sample_results) as [df_result Hrun].
  { vm_compute. reflexivity. }
  eexists df_result, _. split; [exact Hrun|].
  destruct (materializer_keeps_input_columns _ _ _ _ Hrun) as [_ Hcols].
  rewrite Hcols; [reflexivity|]. by_decision.
Defined.



Lemma sample_calls_columns idx col :
  idx ∈ sample_calls.*1 → col ∈ columns_read →
  ∃ v, loc sample_calls idx col = Ok v.
Proof.
  intros Hidx Hcol. unfold columns_read in Hcol.
  rewrite !elem_of_cons, elem_of_nil in Hcol.
  change (sample_calls.*1) with [0; 1] in Hidx.
  rewrite !elem_of_cons, elem_of_nil in Hidx.
  destruct Hidx as [->|[->|[]]];
    destruct Hcol as [->|[->|[->|[->|[->|[]]]]]];
    eexists; vm_compute; reflexivity.
Qed.


Lemma classification_reads_five_columns_witness :
  same_records
    (process_dataframe service_down (λ futures, futures) sample_calls)
    (process_dataframe service_down (λ futures, futures) sample_calls_EN).
Proof.
  apply classification_reads_five_columns.
  - reflexivity.
  - intros idx col Hcol. unfold columns_read in Hcol.
    rewrite !elem_of_cons, elem_of_nil in Hcol.
    destruct Hcol as [->|[->|[->|[->|[->|[]]]]]];
      destruct idx as [|[|idx]]; vm_compute; reflexivity.
Defined.

Lemma process_single_call_first_success_witness :
  process_single_call
     (λ n _ _ _ _, if (n =? 3)%Z then Ok sample_result
                   else Raise RequestException)
     7 sample_row_data 5 = (7, sample_result) ∧
  (process_single_call
     (λ n _ _ _ _, if (n =? 3)%Z then Ok sample_result
                   else Raise RequestException)
     7 sample_row_data 5).1 = 7.
Proof.
  split; [reflexivity|].
  destruct (process_single_call_first_success
              (λ n _ _ _ _, if (n =? 3)%Z then Ok sample_result
                            else Raise RequestException)
              7 sample_row_data 5) as [H _].
  - lia.
  - exact H.
Defined.

Lemma translate_adds_only_EN_columns_witness :
  ∃ df_result calls,
    translate_dataframe_async sample_service 2 ["REASON_FOR_SERVICE"]
      sample_orders [] = (Ok df_result, [] ++ calls) ∧
    df_result !! "SERVICE_ORDER" = sample_orders !! "SERVICE_ORDER".
Proof.
  destruct (translate_adds_only_EN_columns sample_service 2
              ["REASON_FOR_SERVICE"] sample_orders [])
    as (df_result & calls & Hrun & Hframe & _).
  - lia.
  - exists df_result, calls. split; [exact Hrun|]. apply Hframe.
    intros col column s Hcol _ _.
    apply list_elem_of_singleton in Hcol. subst col. discriminate.
Defined.

Lemma non_blank_cell_translated_witness :
  ∃ df_result calls new_column,
    translate_dataframe_async sample_service 2 ["REASON_FOR_SERVICE"]
      sample_frame [] = (Ok df_result, [] ++ calls) ∧
    df_result !! "REASON_FOR_SERVICE_EN" = Some new_column ∧
    new_column !! 0 = Some (Some "EN hola").
Proof.
  destruct (non_blank_cell_translated sample_service 2
              ["REASON_FOR_SERVICE"] sample_frame []
              "REASON_FOR_SERVICE" sample_column 0 "hola")
    as (df_result & calls & new_column & before & after &
        Hrun & _ & Hen & Hcell & _).
  - lia.
  - left.
  - reflexivity.
  - reflexivity.
  - reflexivity.
  - exists df_result, calls, new_column. split; [exact Hrun|].
    split; [exact Hen|exact Hcell].
Defined.

Lemma batch_size_changes_nothing_witness :
  translate_dataframe_async sample_service 2 ["REASON_FOR_SERVICE"]
    sample_frame [] =
  translate_dataframe_async sample_service 10 ["REASON_FOR_SERVICE"]
    sample_frame [].
Proof. apply batch_size_changes_nothing; lia. Defined.


Lemma validated_columns_all_translated_witness :
  ∃ df_result calls,
    translate_dataframe_async sample_service 2 ["REASON_FOR_SERVICE"]
      sample_orders [] = (Ok df_result, [] ++ calls) ∧
    is_Some (df_result !! "REASON_FOR_SERVICE_EN").
Proof.
  destruct (validated_columns_all_translated sample_service 2
              ["REASON_FOR_SERVICE"] sample_orders [])
    as (df_result & calls & Hrun & _ & _ & Hcols).
  - lia.
  - vm_compute. reflexivity.
  - exists df_result, calls. split; [exact Hrun|].
    destruct (Hcols "REASON_FOR_SERVICE") as (column & Hdf & Hen); [left|].
    injection Hdf as <-.
    destruct (Hen "hola") as (new_column & Hn & _); [left|].
    exists new_column. exact Hn.
Defined.

Local Abbreviation sample_save_excel fails :=
  (save_excel sample_exists sample_now sample_rename
     (sample_to_excel fails) sample_to_csv).

Lemma save_excel_first_free_name_witness :
  sample_save_excel false 5 () "out.xlsx" false ["out.xlsx"; "out_1.xlsx"] =
  Some (Ok "out_2.xlsx", ["out_2.xlsx"; "out.xlsx"; "out_1.xlsx"]).
Proof.
  destruct (save_excel_first_free_name sample_exists sample_now sample_rename
              (sample_to_excel false) sample_to_csv
              5 () "out.xlsx" false ["out.xlsx"; "out_1.xlsx"]
              ["out.xlsx"; "out_1.xlsx"] 2) as [_ H].
  - reflexivity.
  - intros j Hj. destruct j as [|[|j]]; [reflexivity|reflexivity|lia].
  - reflexivity.
  - lia.
  - apply H. reflexivity.
Defined.

Lemma save_excel_terminates_witness :
  ∃ out, sample_save_excel false 3 () "out.xlsx" true ["out.xlsx"; "out_1.xlsx"]
         = Some out.
Proof.
  apply (save_excel_terminates sample_exists sample_now sample_rename
           (sample_to_excel false) sample_to_csv
           () "out.xlsx" true ["out.xlsx"; "out_1.xlsx"]
           ["out_backup_20250101_120000.xlsx"; "out_1.xlsx"]).
  intros p Hp. apply bool_decide_eq_true in Hp. exact Hp.
Defined.

Lemma save_excel_names_witness :
  ∃ k, "out_1.csv" = "out" +:+ version k +:+ ".xlsx" ∨
       "out_1.csv" = "out" +:+ version k +:+ ".csv".
Proof.
  destruct (save_excel_names sample_exists sample_now sample_rename
              (sample_to_excel true) sample_to_csv
              5 () "out" false ["out.xlsx"]) as [_ H].
  - reflexivity.
  - apply (H "out_1.csv" ["out_1.csv"; "out.xlsx"]). reflexivity.
Defined.

Lemma save_excel_without_extension_witness :
  sample_save_excel true 5 () "data.xls" true [] = Some (Ok "data.xls", ["data.xls"]).
Proof.
  destruct (save_excel_without_extension sample_exists sample_now
              sample_rename (sample_to_excel true) sample_to_csv
              5 () "data.xls" []) as (_ & _ & H).
  - reflexivity.
  - apply (H true RuntimeError []); reflexivity.
Defined.

Local Abbreviation sample_classify status content :=
  (classify_service_call sample_parts sample_prompts sample_api (Some "t")
     sample_format (sample_post status content)).

Lemma fenced_reply_read_as_plain_witness :
  sample_classify 200%Z (fence_open +:+ "{}" +:+ fence_close) 0%Z
    JNull JNull JNull JNull = Ok (JObj []).
Proof.
  destruct (build_request sample_parts sample_prompts sample_api (Some "t")
              sample_format JNull JNull JNull JNull) as [request|] eqn:Hreq;
    [|discriminate Hreq].
  erewrite (fenced_reply_read_as_plain sample_parts sample_prompts sample_api
             (Some "t") sample_format _ 0%Z JNull JNull JNull JNull
             request (sample_reply 200 (fence_open +:+ "{}" +:+ fence_close))
             _ "{}" Hreq).
  - reflexivity.
  - reflexivity.
  - reflexivity.
  - reflexivity.
  - reflexivity.
  - intros c Hc. change (c ∈ ["{"%char; "}"%char]) in Hc.
    rewrite !elem_of_cons, elem_of_nil in Hc.
    destruct Hc as [->|[->|[]]]; discriminate.
Defined.


Lemma unusable_configuration_degrades_witness :
  process_single_call
    (classify_service_call sample_parts sample_prompts (JObj []) (Some "t")
       sample_format (sample_post 200 "{}"))
    7 sample_row_data 3 = (7, degraded_result).
Proof.
  apply unusable_configuration_degrades. left. exists KeyError. reflexivity.
Defined.

Lemma problems_file_beside_main_file_witness :
  problems_file_path (main_file "processed_service_calls") =
    problems_file "processed_service_calls" ∧
  problems_file_path "processed_service_calls_final_1.xlsx" =
    "processed_service_calls_final_1.xlsx".
Proof.
  destruct problems_file_beside_main_file as [H1 H2]. split.
  - apply H1. reflexivity.
  - apply H2. reflexivity.
Defined.

Lemma get_output_name_drops_extension_witness :
  get_output_name ["  report.xlsx "; "y"] = Some ("report", ["y"]).
Proof.
  destruct (get_output_name_drops_extension "  " "report" " " ["y"]
              eq_refl eq_refl eq_refl eq_refl) as [H _].
  exact H.
Defined.

Lemma get_file_path_exists_witness :
  get_file_path (String.eqb "data.xlsx")
    ["nope.xlsx"; " Y "; "data.xlsx"; "next"]
  = Some (Some "data.xlsx", ["next"]) ∧
  String.eqb "data.xlsx" "data.xlsx" = true.
Proof.
  split; [reflexivity|].
  apply (get_file_path_exists (String.eqb "data.xlsx")
           ["nope.xlsx"; " Y "; "data.xlsx"; "next"] "data.xlsx" ["next"]).
  reflexivity.
Defined.

Lemma get_file_path_unquotes_witness :
  get_file_path (String.eqb "my data.xlsx") [" 'my data.xlsx' "; "next"]
  = Some (Some "my data.xlsx", ["next"]).
Proof.
  apply (get_file_path_unquotes (String.eqb "my data.xlsx")
           " " "'" "my data.xlsx" " " ["next"]);
    [right; right; left|reflexivity..].
Defined.

Local Abbreviation sample_run :=
  (run_incremental_pipeline (Row := string) id sample_read sample_translate
     sample_process sample_save sample_now sample_settings).



End instances.
